(** * weaPro: the token-bounded batch loaders of [7_weaviate]

    A shallow embedding of the ingestion scripts

    - [7_weaviate/mx/addToCollection.py]                          (module [Mx]),
    - [7_weaviate/us/state/batchAddStateCollection.py]            (module [State]),
    - [7_weaviate/us/state/old/batchAddStateCollectionOllamaV2.py] (module [StateOld]),
    - [7_weaviate/mx/populateCollection.py]                       (module [MxPopulate]),
    - [7_weaviate/us/federal/populateCollections.py]              (module [Federal]),

    followed by the properties of the batch accumulator, of the flush and
    failure-logging paths, of the two-phase loaders and of the parent
    extraction.

    Conventions of the embedding.
    - A Python [str] is a [string]; one character stands for one code point
      (texts are taken in the range of one byte per code point).
    - A Python [int] is a [Z].
    - Objects that the scripts build and hand over (properties, failure-log
      entries) are [json] values; a [dict] keeps its insertion order and is an
      association list.
    - The vector database is an oracle [sink]: it answers a bulk insert from
      the history of the earlier bulk inserts and the objects of this one.
      Every bulk insert is recorded in the [calls] of the [world], every
      failure-log append in [flog], every [time.sleep] in [sleeps].
    - Console output ([print]) is not modelled.
    - The files are taken with the values of the types that the scripts
      expect (strings for the texts and the names, lists of objects for the
      chunks); each module says which.  On other values the scripts can
      raise exceptions that the model does not have, so that the
      properties below speak of the runs on these files. *)

From Stdlib Require Import ZArith Lia Ascii String DecimalString Sorted.
From stdpp Require Import gmap strings list.

Set Warnings "-register-all,-abstract-large-number".
Open Scope Z_scope.

(** ** Python strings *)

Module Py.

Definition len (s : string) : Z := Z.of_nat (String.length s).

(** [str.isspace] on one code point below 256. *)
Definition isspace (c : ascii) : bool :=
  let n := nat_of_ascii c in
  ((9 <=? n)%nat && (n <=? 13)%nat) || ((28 <=? n)%nat && (n <=? 32)%nat)
  || (n =? 133)%nat || (n =? 160)%nat.

(** [s.lstrip()] *)
Fixpoint lstrip (s : string) : string :=
  match s with
  | EmptyString => EmptyString
  | String c r => if isspace c then lstrip r else s
  end.

(** [s.rstrip()] *)
Fixpoint rstrip (s : string) : string :=
  match s with
  | EmptyString => EmptyString
  | String c r =>
      match rstrip r with
      | EmptyString => if isspace c then EmptyString else String c EmptyString
      | r' => String c r'
      end
  end.

(** [s.strip()] *)
Definition strip (s : string) : string := rstrip (lstrip s).

(** Truth value of a [str]: non-empty. *)
Definition truthy (s : string) : bool :=
  match s with EmptyString => false | String _ _ => true end.

(** [str.lower] on one code point below 256. *)
Definition lower_char (c : ascii) : ascii :=
  let n := nat_of_ascii c in
  if ((65 <=? n)%nat && (n <=? 90)%nat)
     || ((192 <=? n)%nat && (n <=? 222)%nat && negb (n =? 215)%nat)
  then ascii_of_nat (n + 32) else c.

Fixpoint lower (s : string) : string :=
  match s with
  | EmptyString => EmptyString
  | String c r => String (lower_char c) (lower r)
  end.

(** [s.startswith(p)] *)
Definition startswith (s p : string) : bool := String.prefix p s.

(** [needle in hay] *)
Fixpoint contains (needle hay : string) : bool :=
  String.prefix needle hay
  || match hay with
     | EmptyString => false
     | String _ r => contains needle r
     end.

(** [s.split(sep)] for a separator of one character. *)
Fixpoint split (sep : ascii) (s : string) : list string :=
  match s with
  | EmptyString => [EmptyString]
  | String c r =>
      if Ascii.eqb c sep then EmptyString :: split sep r
      else match split sep r with
           | [] => [String c EmptyString]
           | h :: t => String c h :: t
           end
  end.

Definition digit (c : ascii) : option Z :=
  let n := nat_of_ascii c in
  if ((48 <=? n)%nat && (n <=? 57)%nat) then Some (Z.of_nat n - 48) else None.

(** The whitespace that [int] skips around a numeral, on one code point
    below 256: narrower than that of [str.strip], the code points 28 to 31
    are not skipped. *)
Definition int_space (c : ascii) : bool :=
  let n := nat_of_ascii c in
  ((9 <=? n)%nat && (n <=? 13)%nat) || (n =? 32)%nat
  || (n =? 133)%nat || (n =? 160)%nat.

Fixpoint int_lstrip (s : string) : string :=
  match s with
  | EmptyString => EmptyString
  | String c r => if int_space c then int_lstrip r else s
  end.

Fixpoint int_rstrip (s : string) : string :=
  match s with
  | EmptyString => EmptyString
  | String c r =>
      match int_rstrip r with
      | EmptyString => if int_space c then EmptyString else String c EmptyString
      | r' => String c r'
      end
  end.

(** The digits of a numeral: one or more decimal digits, with single
    underscores between two digits.  [after_digit] tells that the
    character before is a digit; the result is the value and the number
    of digits. *)
Fixpoint numeral (acc : Z) (count : nat) (after_digit : bool) (s : string)
    : option (Z * nat) :=
  match s with
  | EmptyString => if after_digit then Some (acc, count) else None
  | String c r =>
      match digit c with
      | Some d => numeral (10 * acc + d) (S count) true r
      | None =>
          if Ascii.eqb c "_" && after_digit then numeral acc count false r
          else None
      end
  end.

(** [sys.get_int_max_str_digits()], at its default. *)
Definition int_max_str_digits : nat := 4300.

(** [int(s)]: surrounding whitespace, an optional sign, then a numeral of
    at most [int_max_str_digits] digits; [None] stands for [ValueError]. *)
Definition int (s : string) : option Z :=
  match int_rstrip (int_lstrip s) with
  | EmptyString => None
  | String c r =>
      let negative := Ascii.eqb c "-" in
      let body := if Ascii.eqb c "+" || negative then r else String c r in
      match numeral 0 0 false body with
      | Some (n, count) =>
          if (count <=? int_max_str_digits)%nat
          then Some (if negative then - n else n)
          else None
      | None => None
      end
  end.

(** Lookup in a [dict] kept as an association list. *)
Fixpoint lookup {V : Type} (k : string) (d : list (string * V)) : option V :=
  match d with
  | [] => None
  | (k', v) :: r => if String.eqb k k' then Some v else lookup k r
  end.

(** [d.get(k, dflt)] *)
Definition get {V : Type} (d : list (string * V)) (k : string) (dflt : V) : V :=
  default dflt (lookup k d).

(** [d.keys()] *)
Definition keys {V : Type} (d : list (string * V)) : list string := d.*1.

(** [sorted(l, key=...)] is stable: insertion from the right, an element
    going before the first one whose key is not smaller. *)
Fixpoint insert_by {A : Type} (x : Z * A) (l : list (Z * A)) : list (Z * A) :=
  match l with
  | [] => [x]
  | y :: r => if x.1 <=? y.1 then x :: l else y :: insert_by x r
  end.

Fixpoint sort_by {A : Type} (l : list (Z * A)) : list (Z * A) :=
  match l with
  | [] => []
  | x :: r => insert_by x (sort_by r)
  end.

End Py.

(** ** Objects handed to the database and to the failure log *)

Inductive json : Type :=
| JNone
| JInt (z : Z)
| JStr (s : string)
| JList (l : list json)
| JDict (d : list (string * json)).

Definition jfield (k : string) (o : json) : option json :=
  match o with
  | JDict d => Py.lookup k d
  | _ => None
  end.

(** The text of the field [content] of an object. *)
Definition content_of (o : json) : string :=
  match jfield "content" o with
  | Some (JStr s) => s
  | _ => EmptyString
  end.

(** A dictionary of strings as an object. *)
Definition json_of_dict (d : list (string * string)) : json :=
  JDict (prod_map id JStr <$> d).

(** ** The database and the files *)

(** One entry of [collection.batch.failed_objects]. *)
Record failed_object := FailedObject {
  message : string;
  object_ : option json   (* the properties of [failed.object_], when it has one *)
}.

Inductive sink_outcome :=
| Accepted (failed : list failed_object)   (* the insert returns *)
| Raises (msg : string).                   (* the insert raises, [str(e) = msg] *)

Definition sink_t := list (list json) -> list json -> sink_outcome.

Record world := World {
  calls : list (list json);   (* the bulk inserts, oldest first *)
  flog : list json;           (* the failure log, oldest first *)
  sleeps : list Z             (* the delays slept, oldest first *)
}.

Definition world0 : world := World [] [] [].

Definition record_call (objs : list json) (w : world) : world :=
  World (calls w ++ [objs]) (flog w) (sleeps w).

Definition append_log (e : json) (w : world) : world :=
  World (calls w) (flog w ++ [e]) (sleeps w).

Definition sleep (d : Z) (w : world) : world :=
  World (calls w) (flog w) (sleeps w ++ [d]).

(** ** Exceptions *)

Inductive exn :=
| ValueError
| IndexError
| KeyError (k : string)
| Exception (msg : string).

Inductive res (A : Type) :=
| Ret (a : A)
| Exc (e : exn).
Arguments Ret {A} a.
Arguments Exc {A} e.

(** A computation on a state [S] that returns or raises; the state it leaves
    is kept in both cases. *)
Definition M (S A : Type) : Type := S -> res A * S.

Definition ret {S A} (a : A) : M S A := fun s => (Ret a, s).
Definition raise {S A} (e : exn) : M S A := fun s => (Exc e, s).
Definition bind {S A B} (m : M S A) (k : A -> M S B) : M S B :=
  fun s => match m s with
           | (Ret a, s') => k a s'
           | (Exc e, s') => (Exc e, s')
           end.
Definition modify {S} (f : S -> S) : M S unit := fun s => (Ret tt, f s).

Notation "x <-- m ;; k" := (bind m (fun x => k))
  (at level 100, m at next level, k at level 200, only parsing).
Notation "m ;;; k" := (bind m (fun _ => k))
  (at level 100, k at level 200, only parsing).

(** [for x in l: body x] *)
Fixpoint for_each {S A} (l : list A) (body : A -> M S unit) : M S unit :=
  match l with
  | [] => ret tt
  | x :: r => body x ;;; for_each r body
  end.

(** ** [7_weaviate/mx/addToCollection.py] *)

Module Mx.

Definition MAX_BATCH_TOKENS : Z := 120000.

(** Approximate token count for text *)
Definition approx_tokens (text : string) : Z := Z.max 1 (Py.len text / 4).

(** The failure file holds a JSON array; one more element per call. *)
Definition append_oversized_chunk (chunk_data : json) (w : world) : world :=
  append_log chunk_data w.

(** A paragraph of a document: a dictionary of strings. *)
Definition pdict := list (string * string).

Definition create_chunk_object (paragraph : pdict)
    (document_name document_tipo : string) (only_content : bool)
    : json * string * Z :=
  let content := Py.get paragraph "content" "" in
  let prior_content := Py.get paragraph "priorContent" "" in
  let article := if only_content then "" else Py.get paragraph "name" "" in
  let from_article :=
    if only_content then "" else Py.get paragraph "fromArticle" "" in
  let content_and_prior := Py.strip (prior_content +:+ " " +:+ content) in
  let obj := JDict [
    ("content", JStr content);
    ("priorContent", JStr prior_content);
    ("contentAndPriorConcatenated", JStr content_and_prior);
    ("article", JStr article);
    ("fromArticle",
      JList (if Py.truthy from_article then [JStr from_article] else []));
    ("document", JStr document_name);
    ("tipo", JStr document_tipo)
  ] in
  let token_count := approx_tokens content in
  (obj, article, token_count).

Record batch_item := BatchItem {
  obj : json;
  article : string;
  token_count : Z;
  paragraph : pdict;
  document_name : string;
  document_tipo : string;
  file_name : string
}.

Definition error_info (msg : string) (item : batch_item) : json :=
  JDict [
    ("error", JStr msg);
    ("chunk", json_of_dict (paragraph item));
    ("document", JStr (document_name item));
    ("tipo", JStr (document_tipo item));
    ("file", JStr (file_name item))
  ].

(** The document of one JSON file; a field is [None] when the key is
    missing. *)
Record document := Document {
  name : option string;
  Tipo : option string;
  onlyContent : option bool;
  paragraphs_by_bold : option (list pdict)
}.

(** The local variables of [process_document]. *)
Record locals := Locals {
  chunks_inserted : Z;
  chunks_failed : Z;
  current_batch : list batch_item;
  current_batch_tokens : Z
}.

Section WithSink.
Variable sink : sink_t.

(** [for attempt in range(2)], the attempts still to run in [attempts]. *)
Fixpoint retry_loop (attempts : list nat) (batch_items : list batch_item)
    (retry_delay : Z) (w : world) : (Z * Z) * world :=
  let batch_size := Z.of_nat (length batch_items) in
  match attempts with
  | [] => ((0, batch_size), w)
  | attempt :: rest =>
      let objects := obj <$> batch_items in
      match sink (calls w) objects with
      | Accepted _ => ((batch_size, 0), record_call objects w)
      | Raises msg =>
          let w1 := record_call objects w in
          if (attempt =? 0)%nat then
            retry_loop rest batch_items retry_delay (sleep retry_delay w1)
          else
            ((0, batch_size),
             foldl (fun w' item =>
                      append_oversized_chunk (error_info msg item) w')
                   w1 batch_items)
      end
  end.

Definition insert_batch_with_retry (batch_items : list batch_item)
    (retry_delay : Z) (w : world) : (Z * Z) * world :=
  retry_loop (seq 0 2) batch_items retry_delay w.

(** The default of the parameter [retry_delay]. *)
Definition retry_delay_default : Z := 60.

(** One call of [insert_batch_with_retry] with the two additions to the
    counts that follow it, and the values that the batch variables have
    afterwards. *)
Definition flush (batch_items : list batch_item) (st : locals * world)
    (next_batch : list batch_item) (next_tokens : Z) : locals * world :=
  let '(l, w) := st in
  let '((inserted, failed), w') :=
    insert_batch_with_retry batch_items retry_delay_default w in
  (Locals (chunks_inserted l + inserted) (chunks_failed l + failed)
          next_batch next_tokens, w').

(** The body of the loop over the paragraphs. *)
Definition step (document_name document_tipo : string)
    (only_content : bool) (file : string)
    (st : locals * world) (paragraph : pdict) : locals * world :=
  let '(obj, article, token_count) :=
    create_chunk_object paragraph document_name document_tipo only_content in
  let batch_item :=
    BatchItem obj article token_count paragraph document_name
              document_tipo file in
  let l := st.1 in
  if bool_decide (current_batch l <> [])
     && (MAX_BATCH_TOKENS <? current_batch_tokens l + token_count) then
    flush (current_batch l) st [batch_item] token_count
  else if MAX_BATCH_TOKENS <? token_count then
    let st1 :=
      if bool_decide (current_batch l <> []) then
        flush (current_batch l) st [] 0
      else st in
    flush [batch_item] st1 (current_batch st1.1) (current_batch_tokens st1.1)
  else
    (Locals (chunks_inserted l) (chunks_failed l)
            (current_batch l ++ [batch_item])
            (current_batch_tokens l + token_count), st.2).

Definition process_document (file : string) (data : document)
    (w : world) : (Z * Z) * world :=
  let document_name := default "" (name data) in
  let document_tipo := default "" (Tipo data) in
  let only_content := default false (onlyContent data) in
  let paragraphs := default [] (paragraphs_by_bold data) in
  let st0 := (Locals 0 0 [] 0, w) in
  let st1 :=
    foldl (step document_name document_tipo only_content file)
          st0 paragraphs in
  let st2 :=
    if bool_decide (current_batch st1.1 <> []) then
      flush (current_batch st1.1) st1
            (current_batch st1.1) (current_batch_tokens st1.1)
    else st1 in
  ((chunks_inserted st2.1, chunks_failed st2.1), st2.2).


End WithSink.

End Mx.

(** ** The lines of a JSONL file *)

Module Jsonl.

(** A chunk of a line: a dictionary of strings. *)
Definition cdict := list (string * string).

(** A parsed line of the domain of this model: a JSON object whose
    members, [chunks] apart, have a string as value, and whose member
    [chunks], when it has one, is a list of objects whose values are
    strings.  The members are kept in the order of the line.  The other
    lines that [json.loads] accepts (a value that is no object, a parent
    that is no string, a chunk that is no such object) are not
    represented: on them the scripts can stop with an [AttributeError]
    or a [TypeError], which they do not catch. *)
Record data := Data {
  members : list (string * string);
  chunks : option (list cdict)
}.

(** [int(x.split('_')[1])] *)
Definition sort_key (x : string) : res Z :=
  match Py.split "_" x !! 1%nat with
  | None => Exc IndexError
  | Some t =>
      match Py.int t with
      | None => Exc ValueError
      | Some n => Ret n
      end
  end.

(** The keys of the list, each with its sort key; the first key whose
    sort key raises ends the computation. *)
Fixpoint with_keys (l : list string) : res (list (Z * string)) :=
  match l with
  | [] => Ret []
  | x :: r =>
      match sort_key x with
      | Exc e => Exc e
      | Ret n =>
          match with_keys r with
          | Exc e => Exc e
          | Ret t => Ret ((n, x) :: t)
          end
      end
  end.

(** [sorted([k for k in data.keys() if k.startswith('parent_')],
           key=lambda x: int(x.split('_')[1]))] *)
Definition parent_keys (d : data) : res (list string) :=
  match with_keys
          (filter (fun k => Is_true (Py.startswith k "parent_"))
                  (Py.keys (members d))) with
  | Exc e => Exc e
  | Ret l => Ret (Py.sort_by l).*2
  end.

(** [[data[k] for k in ks]] *)
Fixpoint items (d : data) (ks : list string) : res (list string) :=
  match ks with
  | [] => Ret []
  | k :: r =>
      match Py.lookup k (members d) with
      | None => Exc (KeyError k)
      | Some v =>
          match items d r with
          | Exc e => Exc e
          | Ret t => Ret (v :: t)
          end
      end
  end.

(** The two assignments that follow the sort: the article is the value of
    the last parent key, [fromArticle] the values of all but the first. *)
Definition article_and_from (d : data) (parent_keys : list string)
    : res (string * list string) :=
  let article :=
    match last parent_keys with
    | Some k => Py.get (members d) k ""
    | None => ""
    end in
  if (1 <? length parent_keys)%nat then
    match items d (tail parent_keys) with
    | Exc e => Exc e
    | Ret from_article => Ret (article, from_article)
    end
  else Ret (article, []).

Definition lift {S A} (r : res A) : M S A := fun s => (r, s).

End Jsonl.

(** ** [7_weaviate/us/state/batchAddStateCollection.py] *)

Module State.
Import Jsonl.

Definition MAX_BATCH_TOKENS : Z := 136000.
Definition fileName : string := "calTitle1_regulations_content".

(** Approximate token count for text *)
Definition approx_tokens (text : string) : Z := Z.max 1 (Py.len text / 4).

(** The variables of the script. *)
Record globals := Globals {
  w : world;
  total_chunks_processed : Z;
  total_chunks_imported : Z;
  total_failed : Z;
  total_batches : Z;
  current_batch : list json;
  current_batch_tokens : Z
}.

Definition globals0 (w0 : world) : globals := Globals w0 0 0 0 0 [] 0.

Definition set_w (f : world -> world) (g : globals) : globals :=
  Globals (f (w g)) (total_chunks_processed g) (total_chunks_imported g)
          (total_failed g) (total_batches g) (current_batch g)
          (current_batch_tokens g).

Definition set_batch (b : list json) (t : Z) (g : globals) : globals :=
  Globals (w g) (total_chunks_processed g) (total_chunks_imported g)
          (total_failed g) (total_batches g) b t.

(** Append a failed chunk to the JSONL file *)
Definition append_failed_chunk (chunk_data : json) (g : globals) : globals :=
  set_w (append_log chunk_data) g.

Definition failed_entry (msg : string) (batch_number : Z) (obj : json) : json :=
  JDict [("error", JStr msg);
         ("properties", obj);
         ("batch_number", JInt batch_number)].

Definition properties_of (chunk : cdict) (article : string)
    (from_article : list string) : json :=
  let content := Py.get chunk "content" "" in
  let prior_content := Py.get chunk "priorContent" "" in
  let content_and_prior := Py.strip (prior_content +:+ " " +:+ content) in
  JDict [("content", JStr content);
         ("priorContent", JStr prior_content);
         ("contentAndPriorConcatenated", JStr content_and_prior);
         ("article", JStr article);
         ("fromArticle", JList (JStr <$> from_article));
         ("document", JStr fileName)].

Section WithSink.
Variable sink : sink_t.

(** Send a batch to Weaviate *)
Definition send_batch (batch_objects : list json) (g : globals) : globals :=
  match batch_objects with
  | [] => g
  | _ :: _ =>
      let batches := total_batches g + 1 in
      let batch_size := Z.of_nat (length batch_objects) in
      let w1 := record_call batch_objects (w g) in
      match sink (calls (w g)) batch_objects with
      | Accepted _ =>
          Globals w1 (total_chunks_processed g)
                  (total_chunks_imported g + batch_size)
                  (total_failed g) batches
                  (current_batch g) (current_batch_tokens g)
      | Raises msg =>
          foldl (fun g' obj =>
                   append_failed_chunk (failed_entry msg batches obj) g')
                (Globals w1 (total_chunks_processed g)
                         (total_chunks_imported g)
                         (total_failed g + batch_size) batches
                         (current_batch g) (current_batch_tokens g))
                batch_objects
      end
  end.

(** The body of the loop over the chunks of a line. *)
Definition chunk_step (article : string) (from_article : list string)
    (chunk : cdict) (g : globals) : globals :=
  let content := Py.get chunk "content" "" in
  let chunk_tokens := approx_tokens content in
  let properties := properties_of chunk article from_article in
  let g :=
    Globals (w g) (total_chunks_processed g + 1) (total_chunks_imported g)
            (total_failed g) (total_batches g) (current_batch g)
            (current_batch_tokens g) in
  if MAX_BATCH_TOKENS <? chunk_tokens then
    let g1 :=
      if bool_decide (current_batch g <> []) then
        set_batch [] 0 (send_batch (current_batch g) g)
      else g in
    send_batch [properties] g1
  else if MAX_BATCH_TOKENS <? current_batch_tokens g + chunk_tokens then
    set_batch [properties] chunk_tokens (send_batch (current_batch g) g)
  else
    set_batch (current_batch g ++ [properties])
              (current_batch_tokens g + chunk_tokens) g.

(** The body of the loop over the lines; [None] is a line on which
    [json.loads] raises [JSONDecodeError]: it is skipped. *)
Definition line_step (line : option data) : M globals unit :=
  match line with
  | None => ret tt
  | Some d =>
      parent_keys <-- lift (parent_keys d) ;;
      af <-- lift (article_and_from d parent_keys) ;;
      for_each (default [] (chunks d))
               (fun chunk => modify (chunk_step af.1 af.2 chunk))
  end.

(** The script, from the first line to the last batch. *)
Definition run (lines : list (option data)) : M globals unit :=
  for_each lines line_step ;;;
  modify (fun g => if bool_decide (current_batch g <> [])
                   then send_batch (current_batch g) g else g).

End WithSink.

End State.

(** ** [7_weaviate/us/state/old/batchAddStateCollectionOllamaV2.py] *)

Module StateOld.
Import Jsonl.

Definition MAX_BATCH_TOKENS : Z := 136000.
Definition fileName : string := "calTitle1_regulations_content".

(** Approximate token count for text *)
Definition approx_tokens (text : string) : Z := Z.max 1 (Py.len text / 4).

(** Extract article and fromArticle from data *)
Definition extract_parent_info (d : data) : res (string * list string) :=
  match parent_keys d with
  | Exc e => Exc e
  | Ret parent_keys => article_and_from d parent_keys
  end.

(** Create properties object for a chunk *)
Definition create_chunk_properties (chunk : cdict) (article : string)
    (from_article : list string) (document : string) : json :=
  let content := Py.get chunk "content" "" in
  let prior_content := Py.get chunk "priorContent" "" in
  let content_and_prior := Py.strip (prior_content +:+ " " +:+ content) in
  JDict [("content", JStr content);
         ("priorContent", JStr prior_content);
         ("contentAndPriorConcatenated", JStr content_and_prior);
         ("article", JStr article);
         ("fromArticle", JList (JStr <$> from_article));
         ("document", JStr document)].

(** The dictionaries [stats] and [batch_state], and the world. *)
Record state := St {
  w : world;
  processed : Z;
  imported : Z;
  failed : Z;
  batches : Z;
  objects : list json;
  tokens : Z
}.

Definition state0 (w0 : world) : state := St w0 0 0 0 0 [] 0.

Definition set_w (f : world -> world) (s : state) : state :=
  St (f (w s)) (processed s) (imported s) (failed s) (batches s)
     (objects s) (tokens s).

Definition add_processed (n : Z) (s : state) : state :=
  St (w s) (processed s + n) (imported s) (failed s) (batches s)
     (objects s) (tokens s).

Definition add_imported (n : Z) (s : state) : state :=
  St (w s) (processed s) (imported s + n) (failed s) (batches s)
     (objects s) (tokens s).

Definition add_failed (n : Z) (s : state) : state :=
  St (w s) (processed s) (imported s) (failed s + n) (batches s)
     (objects s) (tokens s).

Definition add_batches (n : Z) (s : state) : state :=
  St (w s) (processed s) (imported s) (failed s) (batches s + n)
     (objects s) (tokens s).

Definition set_batch (b : list json) (t : Z) (s : state) : state :=
  St (w s) (processed s) (imported s) (failed s) (batches s) b t.

(** Append a failed chunk to the JSONL file *)
Definition append_failed_chunk (chunk_data : json) (s : state) : state :=
  set_w (append_log chunk_data) s.

(** The entry written for one element of [failed_objects]. *)
Definition rejected_entry (batch_number : Z) (f : failed_object) : json :=
  JDict [("error", JStr (message f));
         ("properties", default JNone (object_ f));
         ("batch_number", JInt batch_number)].

(** The entry written for one object of a batch whose insert raised. *)
Definition failed_entry (msg : string) (batch_number : Z) (obj : json) : json :=
  JDict [("error", JStr msg);
         ("properties", obj);
         ("batch_number", JInt batch_number)].

(** The test for the disk space error. *)
Definition disk_error (error_msg : string) : bool :=
  Py.contains "disk usage too high" (Py.lower error_msg)
  || Py.contains "read-only" (Py.lower error_msg).

(** Check if adding chunk would exceed batch token limit *)
Definition should_send_batch (current_tokens chunk_tokens max_tokens : Z) : bool :=
  max_tokens <? current_tokens + chunk_tokens.

Section WithSink.
Variable sink : sink_t.

(** Send a batch to Weaviate and update statistics *)
Definition send_batch_to_weaviate (batch_objects : list json)
    (batch_number : Z) (current_tokens : Z) : M state unit :=
  fun s =>
  match batch_objects with
  | [] => (Ret tt, s)
  | _ :: _ =>
      let batch_size := Z.of_nat (length batch_objects) in
      let s1 := set_w (record_call batch_objects) s in
      match sink (calls (w s)) batch_objects with
      | Accepted failed_objects =>
          match failed_objects with
          | _ :: _ =>
              let s2 :=
                foldl (fun s' f =>
                         append_failed_chunk (rejected_entry batch_number f)
                                             (add_failed 1 s'))
                      s1 failed_objects in
              let successful :=
                batch_size - Z.of_nat (length failed_objects) in
              (Ret tt, add_imported successful s2)
          | [] => (Ret tt, add_imported batch_size s1)
          end
      | Raises error_msg =>
          let s2 := add_failed batch_size s1 in
          if disk_error error_msg then
            (Exc (Exception error_msg), s2)
          else
            (Ret tt,
             foldl (fun s' obj =>
                      append_failed_chunk
                        (failed_entry error_msg batch_number obj) s')
                   s2 batch_objects)
      end
  end.

(** Handle a chunk that exceeds max batch tokens by sending it alone *)
Definition handle_oversized_chunk (properties : json) (chunk_tokens : Z)
    : M state unit :=
  modify (add_batches 1) ;;;
  fun s => send_batch_to_weaviate [properties] (batches s) chunk_tokens s.

(** [stats['batches'] += 1], then the current batch is sent under that
    number and the batch state is reset. *)
Definition send_current : M state unit :=
  modify (add_batches 1) ;;;
  (fun s => send_batch_to_weaviate (objects s) (batches s) (tokens s) s) ;;;
  modify (set_batch [] 0).

(** The body of the loop of [process_chunks_from_line]. *)
Definition chunk_step (article : string) (from_article : list string)
    (document : string) (max_tokens : Z) (chunk : cdict) : M state unit :=
  let properties :=
    create_chunk_properties chunk article from_article document in
  let chunk_tokens := approx_tokens (content_of properties) in
  modify (add_processed 1) ;;;
  if max_tokens <? chunk_tokens then
    (fun s => if bool_decide (objects s <> []) then send_current s
              else (Ret tt, s)) ;;;
    handle_oversized_chunk properties chunk_tokens
  else
    (fun s => if should_send_batch (tokens s) chunk_tokens max_tokens
              then send_current s else (Ret tt, s)) ;;;
    modify (fun s => set_batch (objects s ++ [properties])
                               (tokens s + chunk_tokens) s).

(** Process all chunks from a single JSONL line *)
Definition process_chunks_from_line (d : data) (document : string)
    (max_tokens : Z) : M state unit :=
  af <-- lift (extract_parent_info d) ;;
  for_each (default [] (chunks d))
           (chunk_step af.1 af.2 document max_tokens).

(** The body of the loop over the lines; [None] is a line on which
    [json.loads] raises [JSONDecodeError]: it is skipped. *)
Definition line_step (document : string) (max_tokens : Z)
    (line : option data) : M state unit :=
  match line with
  | None => ret tt
  | Some d => process_chunks_from_line d document max_tokens
  end.

(** Process entire JSONL file line by line; the statistics are those of
    the state that is returned. *)
Definition process_jsonl_file (lines : list (option data))
    (document : string) (max_tokens : Z) (w0 : world) : res unit * state :=
  (for_each lines (line_step document max_tokens) ;;;
   fun s => if bool_decide (objects s <> []) then
              (modify (add_batches 1) ;;;
               fun s' => send_batch_to_weaviate (objects s') (batches s')
                                                (tokens s') s') s
            else (Ret tt, s))
  (state0 w0).

(** [main] *)
Definition main (lines : list (option data)) (w0 : world)
    : res unit * state :=
  process_jsonl_file lines fileName MAX_BATCH_TOKENS w0.

End WithSink.

End StateOld.

(** ** The two-phase loaders: articles, then chunks *)

(** [enumerate(l)] *)
Definition enumerate {A : Type} (l : list A) : list (nat * A) :=
  zip (seq 0 (length l)) l.

(** [str(n)] for an index. *)
Definition str_of_nat (n : nat) : string :=
  NilEmpty.string_of_uint (Nat.to_uint n).

(** An object queued in a batch of a collection: its properties and, when
    it is given, the reference [source_article]. *)
Record batch_object (uuid : Type) := BatchObject {
  properties : json;
  source_article : option uuid
}.
Arguments BatchObject {uuid} properties source_article.
Arguments properties {uuid} b.
Arguments source_article {uuid} b.

(** ** [7_weaviate/mx/populateCollection.py] *)

Module MxPopulate.

(** A sub-chunk: a dictionary whose values are read and stored as they
    are. *)
Definition chunk := list (string * json).

(** An article of the file; a field is [None] when the key is missing.
    The domain of this model: [full_content] is a string, [sub_chunks] a
    list of objects, and [add_object] returns.  On other files the
    function can raise (on a null [full_content], [strip] raises
    [AttributeError]; the database can raise); the loop over the files
    takes such a file as one on which the call raises. *)
Record article_data := ArticleData {
  full_content : option string;
  sub_chunks : option (list chunk)
}.

Record file_data := FileData {
  document_name : option string;
  Tipo : option string;
  articles : option (list article_data)
}.

Section WithSink.
Variable uuid : Type.
(** The identifier that [add_object] returns for an article, from the
    number of articles added before it. *)
Variable new_uuid : nat -> uuid.

(** The state of step 1. *)
Record step1 := Step1 {
  article_batch : list (batch_object uuid);
  article_uuids : gmap nat (option uuid);
  inserted_articles : Z;
  skipped_articles : Z
}.

Definition article_step (document_name : string) (s : step1)
    (ia : nat * article_data) : step1 :=
  let '(idx, article_data) := ia in
  let full_content := default "" (full_content article_data) in
  let sub_chunks := default [] (sub_chunks article_data) in
  let article_name :=
    match sub_chunks with
    | c :: _ => Py.get c "name" (JStr "")
    | [] => JStr ("article_" +:+ str_of_nat idx)
    end in
  if Py.truthy (Py.strip full_content) then
    let article_uuid := new_uuid (length (article_batch s)) in
    Step1 (article_batch s ++
             [BatchObject (JDict [("content", JStr full_content);
                                  ("article", article_name);
                                  ("document", JStr document_name)])
                          None])
          (<[idx := Some article_uuid]> (article_uuids s))
          (inserted_articles s + 1) (skipped_articles s)
  else
    Step1 (article_batch s) (<[idx := None]> (article_uuids s))
          (inserted_articles s) (skipped_articles s + 1).

(** The state of step 2. *)
Record step2 := Step2 {
  chunk_batch : list (batch_object uuid);
  chunk_count : Z;
  chunks_with_reference : Z;
  chunks_without_reference : Z
}.

Definition chunk_properties (tipo document_name : string) (c : chunk) : json :=
  JDict [("content", Py.get c "content" (JStr ""));
         ("article", Py.get c "name" (JStr ""));
         ("tipo", JStr tipo);
         ("document", JStr document_name);
         ("start_offset", Py.get c "start_offset" (JInt 0))].

Definition chunk_step (tipo document_name : string)
    (article_uuid : option uuid) (s : step2) (c : chunk) : step2 :=
  let chunk_properties := chunk_properties tipo document_name c in
  match article_uuid with
  | Some u =>
      Step2 (chunk_batch s ++ [BatchObject chunk_properties (Some u)])
            (chunk_count s + 1) (chunks_with_reference s + 1)
            (chunks_without_reference s)
  | None =>
      Step2 (chunk_batch s ++ [BatchObject chunk_properties None])
            (chunk_count s + 1) (chunks_with_reference s)
            (chunks_without_reference s + 1)
  end.

Definition chunks_of_article (tipo document_name : string)
    (uuids : gmap nat (option uuid)) (s : step2)
    (ia : nat * article_data) : step2 :=
  let '(article_idx, article_data) := ia in
  match default [] (sub_chunks article_data) with
  | [] => s
  | sub_chunks =>
      (* [article_uuids.get(article_idx)] *)
      let article_uuid := mjoin (uuids !! article_idx) in
      foldl (chunk_step tipo document_name article_uuid) s sub_chunks
  end.

(** Populate collections with proper ordering to avoid reference errors.
    Next to the pair that the function returns, the objects queued in
    the two batches and the dictionary of identifiers. *)
Definition populate_collections_batch (data : file_data)
    : (Z * Z) * step1 * step2 :=
  let document_name := default "" (document_name data) in
  let tipo := default "" (Tipo data) in
  let articles_data := default [] (articles data) in
  let s1 :=
    foldl (article_step document_name) (Step1 [] ∅ 0 0)
          (enumerate articles_data) in
  let s2 :=
    foldl (chunks_of_article tipo document_name (article_uuids s1))
          (Step2 [] 0 0 0) (enumerate articles_data) in
  ((inserted_articles s1, chunk_count s2), s1, s2).

End WithSink.

End MxPopulate.

(** ** [7_weaviate/us/federal/populateCollections.py] *)

Module Federal.

Definition chunk := list (string * json).

(** An article of the file; a field is [None] when the key is missing.
    The domain of this model: the content is any value (it is stored as
    it is), the name is a string, [sub_chunks] is absent or a list of
    objects, and [add_object] returns.  On other files the function can
    raise other exceptions than the [KeyError] of a missing key (on a
    null [sub_chunks], [len] raises [TypeError]; a name that is a list
    cannot be a key; the database can raise). *)
Record article_data := ArticleData {
  full_content : option json;
  article_name : option string;
  sub_chunks : option (list chunk)
}.

(** [d[k]] *)
Definition item {S V} (d : list (string * V)) (k : string) : M S V :=
  match Py.lookup k d with
  | Some v => ret v
  | None => raise (KeyError k)
  end.

(** [article_data[k]] for a field of the record. *)
Definition field {S V} (f : option V) (k : string) : M S V :=
  match f with
  | Some v => ret v
  | None => raise (KeyError k)
  end.

Section WithSink.
Variable uuid : Type.
Variable new_uuid : nat -> uuid.

Record state := St {
  article_batch : list (batch_object uuid);
  article_uuids : gmap string uuid;
  chunk_batch : list (batch_object uuid);
  chunk_count : Z
}.

Definition article_step (document_name : string) (a : article_data)
    : M state unit :=
  content <-- field (full_content a) "full_content" ;;
  name <-- field (article_name a) "article_name" ;;
  modify (fun s =>
    let article_uuid := new_uuid (length (article_batch s)) in
    St (article_batch s ++
          [BatchObject (JDict [("content", content);
                               ("article", JStr name);
                               ("document", JStr document_name)])
                       None])
       (<[name := article_uuid]> (article_uuids s))
       (chunk_batch s) (chunk_count s)).

Definition chunk_step (document_name article_name : string)
    (article_uuid : uuid) (c : chunk) : M state unit :=
  content <-- item c "content" ;;
  start_offset <-- item c "start_offset" ;;
  modify (fun s =>
    St (article_batch s) (article_uuids s)
       (chunk_batch s ++
          [BatchObject (JDict [("content", content);
                               ("article", JStr article_name);
                               ("document", JStr document_name);
                               ("start_offset", start_offset)])
                       (Some article_uuid)])
       (chunk_count s + 1)).

Definition chunks_of_article (document_name : string) (a : article_data)
    : M state unit :=
  article_name <-- field (article_name a) "article_name" ;;
  article_uuid <-- (fun s => match article_uuids s !! article_name with
                             | Some u => (Ret u, s)
                             | None => (Exc (KeyError article_name), s)
                             end) ;;
  for_each (default [] (sub_chunks a))
           (chunk_step document_name article_name article_uuid).

(** Populate collections with proper ordering to avoid reference errors.
    [document_name] is the sanitized stem of the file name. The pair
    that the function returns is [(size (article_uuids s), chunk_count s)]
    of the state [s] that is left. *)
Definition populate_collections_batch (document_name : string)
    (articles_data : list article_data) : res unit * state :=
  (for_each articles_data (article_step document_name) ;;;
   for_each articles_data (chunks_of_article document_name))
  (St [] ∅ [] 0).

End WithSink.

End Federal.


(** ** The callers: files, directories and the start of the scripts *)

(** [initialize_output_file] of [mx/addToCollection.py], [setup_output_file]
    of the old loader and the first lines of
    [us/state/batchAddStateCollection.py]: the failure log starts empty. *)
Definition clear_log (w : world) : world := World (calls w) [] (sleeps w).

Module MxMain.

(** [initialize_output_file] *)
Definition initialize_output_file (w : world) : world := clear_log w.

Section WithSink.
Variable sink : sink_t.

(** The loop of [main] over the files.  A file is its name and its
    document, or [None] when [load_document] raises.  The exception
    leaves the loop: the files that follow are not read. *)
Fixpoint files_loop (files : list (string * option Mx.document))
    (total_chunks total_failed : Z) : M world (Z * Z) :=
  match files with
  | [] => ret (total_chunks, total_failed)
  | (file, None) :: _ => raise (Exception "load_document")
  | (file, Some data) :: rest =>
      fun w =>
        let '((chunks_inserted, chunks_failed), w') :=
          Mx.process_document sink file data w in
        files_loop rest (total_chunks + chunks_inserted)
                   (total_failed + chunks_failed) w'
  end.

(** [main]: the totals that [print_summary] gets, or [None] when an
    exception was caught before the summary. *)
Definition main (files : list (string * option Mx.document))
    (w : world) : option (Z * Z) * world :=
  match files_loop files 0 0 (initialize_output_file w) with
  | (Ret totals, w') => (Some totals, w')
  | (Exc _, w') => (None, w')
  end.

End WithSink.

End MxMain.

Module StateScript.

Section WithSink.
Variable sink : sink_t.

(** [us/state/batchAddStateCollection.py] from its first line: the
    output file is removed, the counters start at 0. *)
Definition script (lines : list (option Jsonl.data)) (w : world)
    : res unit * State.globals :=
  State.run sink lines (State.globals0 (clear_log w)).

End WithSink.

End StateScript.

Module StateOldMain.

(** Create output directory and clear existing file *)
Definition setup_output_file (w : world) : world := clear_log w.

Section WithSink.
Variable sink : sink_t.

(** [main] of the old loader from its first line. *)
Definition main (lines : list (option Jsonl.data)) (w : world)
    : res unit * StateOld.state :=
  StateOld.main sink lines (setup_output_file w).

End WithSink.

End StateOldMain.

(** ** [process_all_json_files] of [mx/populateCollection.py] *)

Module MxPopulateFiles.

(** What the loop over the files keeps. *)
Record totals := Totals {
  total_articles : Z;
  total_chunks : Z;
  processed_files : Z;
  failed_files : list string
}.

Section WithSink.
Variable uuid : Type.
(** The identifiers that [add_object] returns in the batch of the file
    with the given index. *)
Variable new_uuid : nat -> nat -> uuid.

(** The body of the loop.  A file is its name and the content on which
    [populate_collections_batch] returns, or [None] when the call
    raises, whatever the cause (the file cannot be opened or parsed, a
    value has not the type that the function expects, the database
    raises); every exception is caught and the name is kept. *)
Definition file_step (t : totals)
    (f : nat * (string * option MxPopulate.file_data)) : totals :=
  let '(idx, (file_name, content)) := f in
  match content with
  | Some data =>
      let '(articles, chunks) :=
        (MxPopulate.populate_collections_batch uuid (new_uuid idx) data).1.1 in
      Totals (total_articles t + articles) (total_chunks t + chunks)
             (processed_files t + 1) (failed_files t)
  | None =>
      Totals (total_articles t) (total_chunks t) (processed_files t)
             (failed_files t ++ [file_name])
  end.

(** Process all JSON files in the specified directory: the pair that is
    returned, with the two other results of the loop. *)
Definition process_all_json_files
    (json_files : list (string * option MxPopulate.file_data))
    : (Z * Z) * totals :=
  match json_files with
  | [] => ((0, 0), Totals 0 0 0 [])
  | _ =>
      let t := foldl file_step (Totals 0 0 0 []) (enumerate json_files) in
      ((total_articles t, total_chunks t), t)
  end.

(** The loop of the script over the directories. *)
Definition all_directories
    (dirs : list (list (string * option MxPopulate.file_data))) : Z * Z :=
  foldl (fun acc json_files =>
           let '(dir_articles, dir_chunks) :=
             (process_all_json_files json_files).1 in
           (acc.1 + dir_articles, acc.2 + dir_chunks))
        (0, 0) dirs.

End WithSink.

End MxPopulateFiles.

(** ** The file names of [us/federal/populateCollections.py] *)

Module FederalFiles.

(** [\d] on the code points of this model, those below 256: the ten
    digits. *)
Definition isdigit (c : ascii) : bool :=
  let n := nat_of_ascii c in (48 <=? n)%nat && (n <=? 57)%nat.

(** The longest run of digits at the head of a list, and what follows. *)
Fixpoint span_digits (l : list ascii) : list ascii * list ascii :=
  match l with
  | c :: r =>
      if isdigit c then let '(ds, rest) := span_digits r in (c :: ds, rest)
      else ([], l)
  | [] => ([], [])
  end.

(** A match of [-vol\d+] that ends where the list, read backwards, starts:
    what is left of the name, backwards. *)
Definition match_volume (backwards : list ascii) : option (list ascii) :=
  match span_digits backwards with
  | (_ :: _, "l" :: "o" :: "v" :: "-" :: before)%char => Some before
  | _ => None
  end.

(** Remove '-vol{x}' suffix from filenames:
    [re.sub(r'-vol\d+$', '', filename)].  The end [$] is the end of the
    name, or the place before a line feed that ends the name. *)
Definition sanitize_document_name (filename : string) : string :=
  let backwards := reverse (list_ascii_of_string filename) in
  match backwards with
  | ("010" :: r)%char =>
      match match_volume r with
      | Some before =>
          string_of_list_ascii (reverse before ++ ["010"%char])
      | None => filename
      end
  | _ =>
      match match_volume backwards with
      | Some before => string_of_list_ascii (reverse before)
      | None => filename
      end
  end.

(** The place of the first dot of a list: what stands before it and what
    stands after it. *)
Fixpoint break_dot (l : list ascii) : option (list ascii * list ascii) :=
  match l with
  | [] => None
  | c :: r =>
      if Ascii.eqb c "." then Some ([], r)
      else match break_dot r with
           | Some (a, b) => Some (c :: a, b)
           | None => None
           end
  end.

(** [Path(name).stem]: the name without its last suffix.  The suffix
    starts at the last dot of the name, unless this dot is the first or
    the last character of the name. *)
Definition stem (name : string) : string :=
  match break_dot (reverse (list_ascii_of_string name)) with
  | Some (_ :: _, (_ :: _) as before) =>
      string_of_list_ascii (reverse before)
  | _ => name
  end.

(** What the loop of [process_all_json_files] keeps. *)
Record totals := Totals {
  total_articles : Z;
  total_chunks : Z;
  processed_files : Z;
  failed_files : list string
}.

Section WithSink.
Variable uuid : Type.
Variable new_uuid : nat -> nat -> uuid.

(** The body of the loop over the files.  A file is its name
    ([json_file.name]) and its articles, or [None] when
    [populate_collections_batch] raises on it for another cause than a
    missing key (the file cannot be opened or parsed, a value has not
    the type that the function expects, the database raises).  Every
    exception is caught and the name is kept. *)
Definition file_step (t : totals)
    (f : nat * (string * option (list Federal.article_data))) : totals :=
  let '(idx, (name, content)) := f in
  match content with
  | Some articles_data =>
      match Federal.populate_collections_batch uuid (new_uuid idx)
              (sanitize_document_name (stem name)) articles_data with
      | (Ret _, s) =>
          Totals (total_articles t
                  + Z.of_nat (size (Federal.article_uuids uuid s)))
                 (total_chunks t + Federal.chunk_count uuid s)
                 (processed_files t + 1) (failed_files t)
      | (Exc _, _) =>
          Totals (total_articles t) (total_chunks t) (processed_files t)
                 (failed_files t ++ [name])
      end
  | None =>
      Totals (total_articles t) (total_chunks t) (processed_files t)
             (failed_files t ++ [name])
  end.

(** Process all JSON files in the specified directory; the function
    returns nothing, the totals are what it prints. *)
Definition process_all_json_files
    (json_files : list (string * option (list Federal.article_data)))
    : option totals :=
  match json_files with
  | [] => None
  | _ => Some (foldl file_step (Totals 0 0 0 []) (enumerate json_files))
  end.

End WithSink.

End FederalFiles.


(** ** Vocabulary of the properties *)

(** The weight of an object is the approximate token count of its field
    [content]; the accumulated weight of a batch is the sum over its
    objects. *)
Definition weight (o : json) : Z := Mx.approx_tokens (content_of o).

Definition accumulated_weight (b : list json) : Z :=
  foldr (fun o acc => weight o + acc) 0 b.

(** A batch made of one object that alone exceeds the limit. *)
Definition oversized_singleton (limit : Z) (b : list json) : Prop :=
  exists o, b = [o] /\ limit < weight o.

(** What may be handed to the database under a limit. *)
Definition admissible (limit : Z) (b : list json) : Prop :=
  accumulated_weight b <= limit \/ oversized_singleton limit b.

(** A text of [n] characters. *)
Fixpoint text_of (n : nat) : string :=
  match n with
  | O => EmptyString
  | S k => String "x" (text_of k)
  end.

(** Databases used in the examples. *)
Definition sink_accepts : sink_t := fun _ _ => Accepted [].
Definition sink_raises (msg : string) : sink_t := fun _ _ => Raises msg.
(** Accepts, rejecting the first object of every batch. *)
Definition sink_rejects_first (msg : string) : sink_t :=
  fun _ objs => match objs with
                | [] => Accepted []
                | o :: _ => Accepted [FailedObject msg (Some o)]
                end.

(** The number of chunks of the lines that parse. *)
Definition chunk_total (lines : list (option Jsonl.data)) : Z :=
  foldr (fun line acc =>
           match line with
           | Some d => Z.of_nat (length (default [] (Jsonl.chunks d))) + acc
           | None => acc
           end) 0 lines.

(** A computation started in a state of [P] returns in a state of [Q] or
    raises in a state of [E]. *)
Definition triple {S A : Type} (P : S -> Prop) (m : M S A)
    (Q : A -> S -> Prop) (E : exn -> S -> Prop) : Prop :=
  forall s, P s ->
    match m s with
    | (Ret a, s') => Q a s'
    | (Exc e, s') => E e s'
    end.

(** No bulk insert of the list [c], after the first [k] ones, raised with a
    message of the disk space error. *)
Definition no_disk_error (sink : sink_t) (k : nat) (c : list (list json)) : Prop :=
  forall hist objs rest msg,
    c = hist ++ objs :: rest -> (k <= length hist)%nat ->
    sink hist objs = Raises msg -> StateOld.disk_error msg = false.

(** ** Invariants of the loaders *)

(** What the loop of [process_document] maintains, [n] paragraphs after a
    start in the world [w0]. *)
Record mx_inv (w0 : world) (n : Z) (st : Mx.locals * world) : Prop := MxInv {
  mx_calls : exists new,
    calls st.2 = calls w0 ++ new
    /\ Forall (fun b => b <> [] /\ admissible Mx.MAX_BATCH_TOKENS b) new;
  mx_items : Forall (fun it => Mx.token_count it = weight (Mx.obj it))
                    (Mx.current_batch st.1);
  mx_tokens : Mx.current_batch_tokens st.1
              = accumulated_weight (Mx.obj <$> Mx.current_batch st.1);
  mx_batch : admissible Mx.MAX_BATCH_TOKENS (Mx.obj <$> Mx.current_batch st.1);
  mx_count : Mx.chunks_inserted st.1 + Mx.chunks_failed st.1
             + Z.of_nat (length (Mx.current_batch st.1)) = n
}.

(** What the script maintains from a start in the world [w0]. *)
Record state_inv (w0 : world) (g : State.globals) : Prop := StateInv {
  st_calls : exists new,
    calls (State.w g) = calls w0 ++ new
    /\ Forall (fun b => b <> [] /\ admissible State.MAX_BATCH_TOKENS b) new;
  st_tokens : State.current_batch_tokens g
              = accumulated_weight (State.current_batch g);
  st_batch : accumulated_weight (State.current_batch g)
             <= State.MAX_BATCH_TOKENS;
  st_count : State.total_chunks_imported g + State.total_failed g
             + Z.of_nat (length (State.current_batch g))
             = State.total_chunks_processed g
}.

(** A run started in the world [w0] that has processed [p] chunks, of which
    [k] are not yet counted as imported or failed, and whose current batch
    is [ob]. *)
Record old_mid (sink : sink_t) (w0 : world) (p k : Z) (ob : list json)
    (s : StateOld.state) : Prop := OldMid {
  old_calls : exists new,
    calls (StateOld.w s) = calls w0 ++ new /\ Forall (fun b => b <> []) new;
  old_safe : no_disk_error sink (length (calls w0)) (calls (StateOld.w s));
  old_count : StateOld.imported s + StateOld.failed s + k = StateOld.processed s;
  old_processed : StateOld.processed s = p;
  old_objects : StateOld.objects s = ob
}.

(** Between two chunks, the chunks not yet counted are those of the current
    batch. *)
Definition old_inv (sink : sink_t) (w0 : world) (p : Z) (s : StateOld.state) : Prop :=
  old_mid sink w0 p (Z.of_nat (length (StateOld.objects s))) (StateOld.objects s) s.

(** How a run stands when an exception leaves it: either no bulk insert
    raised the disk space error, or the last one did, none did before,
    and the exception is the one it raised. *)
Definition old_raised (sink : sink_t) (w0 : world) (e : exn) (s : StateOld.state) : Prop :=
  (exists new, calls (StateOld.w s) = calls w0 ++ new
               /\ Forall (fun b => b <> []) new)
  /\ (no_disk_error sink (length (calls w0)) (calls (StateOld.w s))
      \/ exists hist objs msg,
           calls (StateOld.w s) = hist ++ [objs]
           /\ (length (calls w0) <= length hist)%nat
           /\ no_disk_error sink (length (calls w0)) hist
           /\ sink hist objs = Raises msg
           /\ StateOld.disk_error msg = true
           /\ e = Exception msg).


(** The end of [process_document] from a state of the loop: the
    paragraphs that are left, then the last batch. *)
Definition mx_finish (sink : sink_t) (dn dt : string) (oc : bool) (file : string)
    (st : Mx.locals * world) (ps : list Mx.pdict)
    : Mx.locals * world :=
  let st1 := foldl (Mx.step sink dn dt oc file) st ps in
  if bool_decide (Mx.current_batch st1.1 <> []) then
    Mx.flush sink (Mx.current_batch st1.1) st1
             (Mx.current_batch st1.1) (Mx.current_batch_tokens st1.1)
  else st1.

(** ** Inputs of the examples *)

(** A paragraph, or a chunk, whose content has [n] characters. *)
Definition chunk_of_size (n : nat) : list (string * string) :=
  [("content", text_of n); ("priorContent", "")].

Definition line_one : Jsonl.data :=
  Jsonl.Data [("parent_0", "Title 1"); ("parent_1", "Division 1");
              ("parent_2", "Chapter 1")]
             (Some [chunk_of_size 8; chunk_of_size 12]).

Definition lines_ok : list (option Jsonl.data) :=
  [Some line_one; None; Some line_one].

(** A pending batch of weight 30000, then a paragraph of weight 130000. *)
Definition doc_oversized : Mx.document :=
  Mx.Document (Some "Ley") (Some "Federal") (Some false)
    (Some [chunk_of_size 120000; chunk_of_size 520000]).

(** The number of objects and the accumulated weight of each bulk insert. *)
Definition shape (c : list (list json)) : list (nat * Z) :=
  (fun b => (length b, accumulated_weight b)) <$> c.


(** A batch of five objects of the JSONL loaders. *)
Definition five_objects : list json :=
  (fun n => State.properties_of (chunk_of_size n) "Chapter 1" ["Division 1"])
    <$> [4; 8; 12; 16; 20]%nat.

(** Two chunks of weight 70000 each: two batches under the limit 136000. *)
Definition lines_two_batches : list (option Jsonl.data) :=
  [Some (Jsonl.Data [("parent_0", "Title 1"); ("parent_1", "Division 1")]
                    (Some [chunk_of_size 280000; chunk_of_size 280000]))].

(** ** Vocabulary of the two-phase loaders *)

(** An article is blank when its content is empty once stripped. *)
Definition blank (a : MxPopulate.article_data) : bool :=
  negb (Py.truthy (Py.strip (default "" (MxPopulate.full_content a)))).

(** The articles that are not blank. *)
Definition kept (l : list MxPopulate.article_data) : list MxPopulate.article_data :=
  filter (fun a => blank a = false) l.

(** The identifier under which the chunks of the article [a], at the index
    [i] of the file, find their parent: none for a blank article, otherwise
    the identifier returned when it was added, after the articles kept
    before it. *)
Definition parent_uuid {uuid : Type} (new_uuid : nat -> uuid)
    (articles : list MxPopulate.article_data) (i : nat)
    (a : MxPopulate.article_data) : option uuid :=
  if blank a then None else Some (new_uuid (length (kept (take i articles)))).

(** An object of a batch that carries a reference. *)
Definition has_reference {uuid : Type} (b : batch_object uuid) : Prop :=
  is_Some (source_article b).

(** A file of three articles: the second is empty, the third is blank. *)
Definition file_three_articles : MxPopulate.file_data :=
  MxPopulate.FileData (Some "Ley Federal") (Some "Ley")
    (Some [MxPopulate.ArticleData (Some "Articulo 1. Texto")
             (Some [[("name", JStr "Articulo 1"); ("content", JStr "Texto");
                     ("start_offset", JInt 0)]]);
           MxPopulate.ArticleData (Some "")
             (Some [[("name", JStr "Articulo 2"); ("content", JStr "Parte a");
                     ("start_offset", JInt 0)];
                    [("name", JStr "Articulo 2"); ("content", JStr "Parte b");
                     ("start_offset", JInt 7)]]);
           MxPopulate.ArticleData (Some "   ")
             (Some [[("name", JStr "Articulo 3"); ("content", JStr "Parte c")]])]).

(** A file of the federal loader: one article without content, one chunk. *)
Definition federal_empty_article : list Federal.article_data :=
  [Federal.ArticleData (Some (JStr "")) (Some "Sec. 1")
     (Some [[("content", JStr "Part a"); ("start_offset", JInt 0)]])].

(** ** Inputs for the extraction of the parents *)

(** A line whose lowest parent is [parent_1]. *)
Definition line_without_parent_0 : Jsonl.data :=
  Jsonl.Data [("parent_1", "Division 1"); ("parent_2", "Chapter 1")]
             (Some [chunk_of_size 8]).

(** A line with eleven parents, not in order. *)
Definition line_eleven_parents : Jsonl.data :=
  Jsonl.Data [("parent_10", "v10"); ("parent_9", "v9"); ("parent_2", "v2");
              ("parent_0", "v0"); ("parent_1", "v1"); ("title", "t");
              ("parent_3", "v3"); ("parent_4", "v4"); ("parent_5", "v5");
              ("parent_8", "v8"); ("parent_7", "v7"); ("parent_6", "v6")]
             None.

(** A line with a parent key that has no number. *)
Definition line_bad_parent : Jsonl.data :=
  Jsonl.Data [("parent_0", "v0"); ("parent_x", "vx")] None.

(** The keys of a line that start with [parent_]. *)
Definition parent_candidates (d : Jsonl.data) : list string :=
  filter (fun k => Is_true (Py.startswith k "parent_")) (Py.keys (Jsonl.members d)).

(** Increasing sort keys. *)
Definition key_le {A : Type} (x y : Z * A) : Prop := x.1 <= y.1.

(** A computation that returns from every state. *)
Definition returns {S : Type} (m : M S unit) : Prop :=
  forall s, exists s', m s = (Ret tt, s').

(** A line whose parent keys all have a number. *)
Definition numbered (line : option Jsonl.data) : Prop :=
  match line with
  | Some d => exists r, StateOld.extract_parent_info d = Ret r
  | None => True
  end.

(** A database that never raises the disk space error. *)
Definition never_disk_error (sink : sink_t) : Prop :=
  forall hist objs msg,
    sink hist objs = Raises msg -> StateOld.disk_error msg = false.


(** ** Vocabulary of the further properties *)

(** The objects that the script [us/state/batchAddStateCollection.py]
    builds for a line, in the order of its chunks. *)
Definition line_objects (line : option Jsonl.data) : list json :=
  match line with
  | Some d =>
      match StateOld.extract_parent_info d with
      | Ret af =>
          (fun c => State.properties_of c af.1 af.2) <$> default [] (Jsonl.chunks d)
      | Exc _ => []
      end
  | None => []
  end.

(** The same for the old loader, which is given the name of the document. *)
Definition old_line_objects (document : string) (line : option Jsonl.data) : list json :=
  match line with
  | Some d =>
      match StateOld.extract_parent_info d with
      | Ret af =>
          (fun c => StateOld.create_chunk_properties c af.1 af.2 document)
            <$> default [] (Jsonl.chunks d)
      | Exc _ => []
      end
  | None => []
  end.

(** The objects that [process_document] builds for the paragraphs. *)
Definition mx_objects (dn dt : string) (oc : bool) (ps : list Mx.pdict) : list json :=
  (fun p => (Mx.create_chunk_object p dn dt oc).1.1) <$> ps.

(** An entry of the failure log of the JSONL loaders that holds an object of
    the bulk insert whose number it carries. *)
Definition entry_of_batch (new : list (list json)) (e : json) : Prop :=
  exists msg i b o,
    e = State.failed_entry msg (Z.of_nat (S i)) o
    /\ new !! i = Some b /\ o ∈ b.

(** The bulk inserts of a list of batches, each with its number of
    attempts. *)
Definition attempts (batches : list (nat * list json)) : list (list json) :=
  flat_map (fun nb => replicate nb.1 nb.2) batches.

(** The number of second attempts. *)
Definition retries (batches : list (nat * list json)) : nat :=
  length (filter (fun nb => nb.1 = 2%nat) batches).

(** Some bulk insert raises in the database. *)
Definition can_raise (sink : sink_t) : Prop :=
  exists hist objs msg, sink hist objs = Raises msg.

(** What the script [us/state/batchAddStateCollection.py] has done with the
    objects [expected] that it has built since its start in the world
    [w0]: they are the objects of the bulk inserts, in order, followed by
    those of the current batch; the batches are numbered as they are
    handed over; the failure log has one more entry for every object
    counted as failed, with the number of its bulk insert; nothing is
    slept. *)
Record state_trace (w0 : world) (expected : list json) (g : State.globals)
    : Prop := StateTrace {
  tr_calls : exists new,
    calls (State.w g) = calls w0 ++ new
    /\ concat new ++ State.current_batch g = expected
    /\ State.total_batches g = Z.of_nat (length new)
    /\ exists entries,
         flog (State.w g) = flog w0 ++ entries
         /\ State.total_failed g = Z.of_nat (length entries)
         /\ Forall (entry_of_batch new) entries;
  tr_sleeps : sleeps (State.w g) = sleeps w0
}.

(** The same at the end of the script, after the last batch: the current
    batch has been handed over too. *)
Record state_trace_end (w0 : world) (expected : list json) (g : State.globals)
    : Prop := StateTraceEnd {
  te_calls : exists new,
    calls (State.w g) = calls w0 ++ new
    /\ concat new = expected
    /\ State.total_batches g = Z.of_nat (length new)
    /\ exists entries,
         flog (State.w g) = flog w0 ++ entries
         /\ State.total_failed g = Z.of_nat (length entries)
         /\ Forall (entry_of_batch new) entries;
  te_sleeps : sleeps (State.w g) = sleeps w0
}.

(** What a run of the old loader keeps whatever happens, since its start in
    the world [w0]: the batches are counted as they are handed over, each
    is within the limit or one oversized object, and nothing is slept. *)
Record old_sent (w0 : world) (max_tokens : Z) (s : StateOld.state)
    : Prop := OldSent {
  os_calls : exists new,
    calls (StateOld.w s) = calls w0 ++ new
    /\ StateOld.batches s = Z.of_nat (length new)
    /\ Forall (admissible max_tokens) new;
  os_sleeps : sleeps (StateOld.w s) = sleeps w0
}.

(** What it keeps between two chunks, for the objects [expected] built so
    far: they are the objects of the bulk inserts, in order, followed by
    those of the current batch, whose weight is the running total and is
    within the limit; the failure log has one more entry for every object
    counted as failed. *)
Record old_trace (w0 : world) (max_tokens : Z) (expected : list json)
    (s : StateOld.state) : Prop := OldTrace {
  ot_calls : exists new,
    calls (StateOld.w s) = calls w0 ++ new
    /\ StateOld.batches s = Z.of_nat (length new)
    /\ Forall (admissible max_tokens) new
    /\ concat new ++ StateOld.objects s = expected;
  ot_tokens : StateOld.tokens s = accumulated_weight (StateOld.objects s);
  ot_batch : StateOld.objects s <> [] ->
             accumulated_weight (StateOld.objects s) <= max_tokens;
  ot_log : exists entries,
    flog (StateOld.w s) = flog w0 ++ entries
    /\ StateOld.failed s = Z.of_nat (length entries);
  ot_sleeps : sleeps (StateOld.w s) = sleeps w0
}.

(** At the end of a run, after the last batch. *)
Record old_trace_end (w0 : world) (max_tokens : Z) (expected : list json)
    (s : StateOld.state) : Prop := OldTraceEnd {
  oe_calls : exists new,
    calls (StateOld.w s) = calls w0 ++ new
    /\ StateOld.batches s = Z.of_nat (length new)
    /\ Forall (admissible max_tokens) new
    /\ concat new = expected;
  oe_log : exists entries,
    flog (StateOld.w s) = flog w0 ++ entries
    /\ StateOld.failed s = Z.of_nat (length entries);
  oe_sleeps : sleeps (StateOld.w s) = sleeps w0
}.

(** What [process_document] has done with the objects [expected] of the
    paragraphs read so far, since its start in the world [w0]: they are the
    objects of the batches handed over, in order, followed by those of the
    current batch; every batch was tried once, or twice when the database
    raised; one delay of 60 seconds was slept before every second attempt;
    the failure log has one more entry for every item counted as failed. *)
Record mx_trace (sink : sink_t) (w0 : world) (expected : list json)
    (st : Mx.locals * world) : Prop := MxTrace {
  mt_calls : exists batches,
    calls st.2 = calls w0 ++ attempts batches
    /\ Forall (fun nb => nb.1 = 1%nat \/ (nb.1 = 2%nat /\ can_raise sink)) batches
    /\ Forall (fun nb => nb.2 <> []) batches
    /\ concat batches.*2 ++ (Mx.obj <$> Mx.current_batch st.1) = expected
    /\ sleeps st.2 = sleeps w0 ++ replicate (retries batches) 60;
  mt_log : exists entries,
    flog st.2 = flog w0 ++ entries
    /\ Mx.chunks_failed st.1 = Z.of_nat (length entries)
    /\ (entries <> [] -> can_raise sink)
}.

(** At the end of [process_document], after the last batch. *)
Record mx_trace_end (sink : sink_t) (w0 : world) (expected : list json)
    (failed : Z) (w : world) : Prop := MxTraceEnd {
  me_calls : exists batches,
    calls w = calls w0 ++ attempts batches
    /\ Forall (fun nb => nb.1 = 1%nat \/ (nb.1 = 2%nat /\ can_raise sink)) batches
    /\ Forall (fun nb => nb.2 <> []) batches
    /\ concat batches.*2 = expected
    /\ sleeps w = sleeps w0 ++ replicate (retries batches) 60;
  me_log : exists entries,
    flog w = flog w0 ++ entries
    /\ failed = Z.of_nat (length entries)
    /\ (entries <> [] -> can_raise sink)
}.


Definition doc_small : Mx.document :=
  Mx.Document (Some "Ley") (Some "Federal") None
    (Some [chunk_of_size 8; chunk_of_size 12; chunk_of_size 4]).

(** A database that never raises. *)
Definition never_raises (sink : sink_t) : Prop :=
  forall hist objs, exists rejected, sink hist objs = Accepted rejected.

(** Files that [load_document] reads without error. *)
Definition loaded (files : list (string * Mx.document))
    : list (string * option Mx.document) :=
  (fun fd => (fd.1, Some fd.2)) <$> files.

(** The number of paragraphs of the files. *)
Definition paragraph_total (files : list (string * Mx.document)) : Z :=
  foldr (fun fd acc =>
           Z.of_nat (length (default [] (Mx.paragraphs_by_bold fd.2))) + acc)
        0 files.

(** A string of digits. *)
Definition all_digits (s : string) : Prop :=
  Forall (fun c => FederalFiles.isdigit c = true) (list_ascii_of_string s).

Definition line_feed : string := String "010" EmptyString.

(** ** Vocabulary of the federal loader *)

(** The article carries the name [name]. *)
Definition named (name : string) (a : Federal.article_data) : bool :=
  bool_decide (Federal.article_name a = Some name).

(** The index, counted from [i], of the last article of the list that
    carries the name. *)
Fixpoint last_index_from (name : string) (i : nat)
    (l : list Federal.article_data) : option nat :=
  match l with
  | [] => None
  | a :: r =>
      match last_index_from name (S i) r with
      | Some j => Some j
      | None => if named name a then Some i else None
      end
  end.

(** The identifier returned when the last article with the name of [a] was
    added. *)
Definition federal_parent {uuid : Type} (new_uuid : nat -> uuid)
    (articles : list Federal.article_data) (a : Federal.article_data)
    : option uuid :=
  match Federal.article_name a with
  | Some name => new_uuid <$> last_index_from name 0 articles
  | None => None
  end.

(** The names of the articles. *)
Definition article_names (articles : list Federal.article_data) : list string :=
  omap Federal.article_name articles.

(** An article with the two keys that step 1 reads. *)
Definition complete_article (a : Federal.article_data) : Prop :=
  is_Some (Federal.full_content a) /\ is_Some (Federal.article_name a).

(** A sub-chunk with the two keys that step 2 reads. *)
Definition complete_chunk (c : Federal.chunk) : Prop :=
  is_Some (Py.lookup "content" c) /\ is_Some (Py.lookup "start_offset" c).

(** The sub-chunks of the articles. *)
Definition federal_chunks (articles : list Federal.article_data)
    : list Federal.chunk :=
  flat_map (fun a => default [] (Federal.sub_chunks a)) articles.

(** What step 1 of the federal loader keeps, after the articles [pre]. *)
Record federal_step1 {uuid : Type} (new_uuid : nat -> uuid)
    (pre : list Federal.article_data) (s : Federal.state uuid) : Prop :=
  FederalStep1 {
    f1_uuids : forall name,
      Federal.article_uuids uuid s !! name
      = new_uuid <$> last_index_from name 0 pre;
    f1_articles : length (Federal.article_batch uuid s) = length pre;
    f1_complete : Forall complete_article pre;
    f1_chunks : Federal.chunk_batch uuid s = [];
    f1_count : Federal.chunk_count uuid s = 0
  }.

(** The name and the reference of a chunk object. *)
Definition name_and_reference {uuid : Type} (b : batch_object uuid)
    : option json * option uuid :=
  (jfield "article" (properties b), source_article b).

(** What step 2 keeps, after the chunks of the articles [pre]. *)
Record federal_step2 {uuid : Type} (new_uuid : nat -> uuid)
    (articles pre : list Federal.article_data) (s : Federal.state uuid)
    : Prop := FederalStep2 {
  f2_uuids : forall name,
    Federal.article_uuids uuid s !! name
    = new_uuid <$> last_index_from name 0 articles;
  f2_articles : length (Federal.article_batch uuid s) = length articles;
  f2_chunks :
    name_and_reference <$> Federal.chunk_batch uuid s
    = flat_map (fun a =>
                  (fun _ => (JStr <$> Federal.article_name a,
                             federal_parent new_uuid articles a))
                    <$> default [] (Federal.sub_chunks a)) pre;
  f2_count :
    Federal.chunk_count uuid s
    = Z.of_nat (length (Federal.chunk_batch uuid s))
}.

(** What the loop over the chunks of one article keeps, after the chunks
    [cs]: the name of the article is [name], its identifier in the
    dictionary is [u], and [base] describes the chunk objects added for the
    articles before it. *)
Definition chunks_inv {uuid : Type} (new_uuid : nat -> uuid)
    (articles : list Federal.article_data) (name : string) (u : uuid)
    (base : list (option json * option uuid))
    (cs : list Federal.chunk) (s : Federal.state uuid) : Prop :=
  (forall name',
     Federal.article_uuids uuid s !! name'
     = new_uuid <$> last_index_from name' 0 articles)
  /\ length (Federal.article_batch uuid s) = length articles
  /\ name_and_reference <$> Federal.chunk_batch uuid s
     = base ++ ((fun _ => (Some (JStr name), Some u)) <$> cs)
  /\ Federal.chunk_count uuid s
     = Z.of_nat (length (Federal.chunk_batch uuid s))
  /\ Forall complete_chunk cs.

(** Where the federal loader raises. *)
Definition federal_error {uuid : Type} (articles : list Federal.article_data)
    (e : exn) (s : Federal.state uuid) : Prop :=
  ((e = KeyError "full_content" \/ e = KeyError "article_name")
   /\ Federal.chunk_batch uuid s = []
   /\ ~ Forall complete_article articles)
  \/ ((e = KeyError "content" \/ e = KeyError "start_offset")
      /\ length (Federal.article_batch uuid s) = length articles
      /\ ~ Forall complete_chunk (federal_chunks articles)).

(** Two articles with the same name. *)
Definition federal_same_name : list Federal.article_data :=
  [Federal.ArticleData (Some (JStr "first text")) (Some "Sec. 1")
     (Some [[("content", JStr "Part a"); ("start_offset", JInt 0)]]);
   Federal.ArticleData (Some (JStr "second text")) (Some "Sec. 1")
     (Some [[("content", JStr "Part b"); ("start_offset", JInt 0)]])].

(** The second article has no name. *)
Definition federal_missing_name : list Federal.article_data :=
  [Federal.ArticleData (Some (JStr "first text")) (Some "Sec. 1")
     (Some [[("content", JStr "Part a"); ("start_offset", JInt 0)]]);
   Federal.ArticleData (Some (JStr "second text")) None
     (Some [[("content", JStr "Part b"); ("start_offset", JInt 0)]])].

(** ** Vocabulary of the loops over the files *)

Definition zsum (l : list Z) : Z := foldr Z.add 0 l.

(** The sub-chunks of the articles of [mx/populateCollection.py]. *)
Definition mx_chunks (articles : list MxPopulate.article_data)
    : list MxPopulate.chunk :=
  flat_map (fun a => default [] (MxPopulate.sub_chunks a)) articles.

(** What a file of [mx/populateCollection.py] adds to the totals: the
    number of its articles that are not blank and the number of its
    sub-chunks; nothing when [populate_collections_batch] raises on it. *)
Definition mx_file_counts (content : option MxPopulate.file_data) : Z * Z :=
  match content with
  | Some data =>
      let articles := default [] (MxPopulate.articles data) in
      (Z.of_nat (length (kept articles)), Z.of_nat (length (mx_chunks articles)))
  | None => (0, 0)
  end.

(** The names of the files on which [populate_collections_batch] raises. *)
Definition raising {A : Type} (files : list (string * option A))
    : list string :=
  (filter (fun f => f.2 = None) files).*1.

(** A file of the federal loader on which [populate_collections_batch]
    returns: no other cause makes the call raise, and no key is missing. *)
Definition federal_file_ok (content : option (list Federal.article_data))
    : Prop :=
  match content with
  | Some articles =>
      Forall complete_article articles
      /\ Forall complete_chunk (federal_chunks articles)
  | None => False
  end.

Definition federal_file_ok_dec content : Decision (federal_file_ok content) :=
  ltac:(unfold federal_file_ok, complete_article, complete_chunk;
        destruct content; exact _).

#[global] Existing Instance federal_file_ok_dec.

(** What a file of the federal loader adds to the totals: the number of
    distinct names of its articles and the number of its sub-chunks;
    nothing when it fails. *)
Definition federal_file_counts (content : option (list Federal.article_data))
    : Z * Z :=
  match content with
  | Some articles =>
      if decide (federal_file_ok content) then
        (Z.of_nat (length (remove_dups (article_names articles))),
         Z.of_nat (length (federal_chunks articles)))
      else (0, 0)
  | None => (0, 0)
  end.

(** The article object that step 1 of the federal loader builds. *)
Definition federal_article_object {uuid : Type} (doc : string)
    (a : Federal.article_data) : batch_object uuid :=
  BatchObject (JDict [("content", default JNone (Federal.full_content a));
                      ("article", JStr (default "" (Federal.article_name a)));
                      ("document", JStr doc)])
              None.

(** ** Vocabulary of the counts of a run *)








(** * Properties *)

(** ** The weight function *)

Lemma approx_tokens_pos (t : string) : 1 <= Mx.approx_tokens t.
Proof. unfold Mx.approx_tokens. lia. Qed.

Lemma weight_pos (o : json) : 1 <= weight o.
Proof. apply approx_tokens_pos. Qed.

Lemma accumulated_weight_app (b1 b2 : list json) :
  accumulated_weight (b1 ++ b2) = accumulated_weight b1 + accumulated_weight b2.
Proof.
  induction b1 as [|o b1 IH]; simpl; [reflexivity|].
  rewrite IH. lia.
Qed.

Lemma accumulated_weight_nonneg (b : list json) : 0 <= accumulated_weight b.
Proof.
  induction b as [|o b IH]; simpl; [lia|].
  pose proof (weight_pos o). lia.
Qed.

(** C8. The weight of a text is [max(1, floor(len(text) / 4))]: it is 1 below
    8 characters and otherwise the quotient [q] with
    [4 * q <= len(text) < 4 * q + 4]; the three loaders compute the same
    function; equal texts have equal weights, and a longer text never has a
    smaller weight. *)
Theorem approx_tokens_floor_monotone (t t1 t2 : string) :
  Mx.approx_tokens t = Z.max 1 (Py.len t / 4)
  /\ State.approx_tokens t = Mx.approx_tokens t
  /\ (exists q, 4 * q <= Py.len t < 4 * q + 4 /\ Mx.approx_tokens t = Z.max 1 q)
  /\ 1 <= Mx.approx_tokens t
  /\ (t1 = t2 -> Mx.approx_tokens t1 = Mx.approx_tokens t2)
  /\ (Py.len t1 < Py.len t2 -> Mx.approx_tokens t1 <= Mx.approx_tokens t2).
Proof.
  repeat split.
  - exists (Py.len t / 4). unfold Mx.approx_tokens.
    pose proof (Z.div_mod (Py.len t) 4 ltac:(lia)) as Hdm.
    pose proof (Z.mod_pos_bound (Py.len t) 4 ltac:(lia)) as Hm.
    lia.
  - apply approx_tokens_pos.
  - intros ->. reflexivity.
  - intros Hlt. unfold Mx.approx_tokens.
    assert (Py.len t1 / 4 <= Py.len t2 / 4)
      by (apply Z.div_le_mono; lia).
    lia.
Qed.

Lemma approx_tokens_floor_monotone_witness :
  Py.len "abc" < Py.len "abcdefghijkl"
  /\ Mx.approx_tokens "abc" <= Mx.approx_tokens "abcdefghijkl".
Proof.
  split; [vm_compute; reflexivity |].
  apply (approx_tokens_floor_monotone "abc" "abc" "abcdefghijkl").
  vm_compute; reflexivity.
Defined.


(** ** Rules for computations that return or raise *)

Section Logic.
Context {S : Type}.

Lemma triple_ret {A} (P : S -> Prop) (a : A) Q E :
  (forall s, P s -> Q a s) -> triple P (ret a) Q E.
Proof. intros H s Hs. simpl. auto. Qed.

Lemma triple_lift {A} (P : S -> Prop) (r : res A) (Q : A -> S -> Prop) E :
  (forall s, P s -> match r with Ret a => Q a s | Exc e => E e s end) ->
  triple P (Jsonl.lift r) Q E.
Proof. intros H s Hs. unfold Jsonl.lift. specialize (H s Hs). now destruct r. Qed.

Lemma triple_modify (P : S -> Prop) (f : S -> S) Q E :
  (forall s, P s -> Q tt (f s)) -> triple P (modify f) Q E.
Proof. intros H s Hs. simpl. auto. Qed.

Lemma triple_bind {A B} (P : S -> Prop) (m : M S A) (k : A -> M S B)
    (R : A -> S -> Prop) Q E :
  triple P m R E ->
  (forall a, triple (R a) (k a) Q E) ->
  triple P (bind m k) Q E.
Proof.
  intros Hm Hk s Hs. unfold bind. specialize (Hm s Hs).
  destruct (m s) as [[a|e] s']; [apply (Hk a s' Hm) | exact Hm].
Qed.

Lemma triple_conseq {A} (P P' : S -> Prop) (m : M S A)
    (Q Q' : A -> S -> Prop) (E E' : exn -> S -> Prop) :
  triple P' m Q' E' ->
  (forall s, P s -> P' s) ->
  (forall a s, Q' a s -> Q a s) ->
  (forall e s, E' e s -> E e s) ->
  triple P m Q E.
Proof.
  intros Hm HP HQ HE s Hs. specialize (Hm s (HP s Hs)).
  destruct (m s) as [[a|e] s']; auto.
Qed.

(** A loop, with an invariant on the elements already handled. *)
Lemma triple_for_each {A} (I : list A -> S -> Prop) (body : A -> M S unit) E
    (l : list A) :
  (forall pre x, triple (I pre) (body x) (fun _ => I (pre ++ [x])) E) ->
  forall pre, triple (I pre) (for_each l body) (fun _ => I (pre ++ l)) E.
Proof.
  intros Hbody. induction l as [|x l IH]; intros pre.
  - apply triple_ret. intros s Hs. now rewrite app_nil_r.
  - simpl. eapply triple_bind; [apply Hbody|].
    intros u. eapply triple_conseq; [apply (IH (pre ++ [x])) | auto | | auto].
    intros u' s Hs. now rewrite <- app_assoc in Hs.
Qed.

(** A loop whose body never raises is a fold. *)
Lemma for_each_modify {A} (f : A -> S -> S) (l : list A) (s : S) :
  for_each l (fun x => modify (f x)) s = (Ret tt, foldl (fun s' x => f x s') s l).
Proof.
  revert s. induction l as [|x l IH]; intros s; simpl; [reflexivity|].
  unfold bind. simpl. apply IH.
Qed.

End Logic.


(** ** The accumulator of [mx/addToCollection.py] *)

Section MxFacts.
Variable sink : sink_t.

(** An object built by [create_chunk_object] weighs its token count. *)
Lemma create_chunk_object_weight p dn dt oc :
  let '(o, _, tc) := Mx.create_chunk_object p dn dt oc in
  tc = weight o /\ 1 <= tc.
Proof.
  unfold Mx.create_chunk_object, weight, content_of. simpl.
  split; [reflexivity | apply approx_tokens_pos].
Qed.

(** The three ways in which [insert_batch_with_retry] ends. *)
Lemma insert_batch_with_retry_cases items d w :
  let objs := Mx.obj <$> items in
  let n := Z.of_nat (length items) in
  let w1 := record_call objs w in
  let w2 := record_call objs (sleep d w1) in
  Mx.insert_batch_with_retry sink items d w =
    match sink (calls w) objs with
    | Accepted _ => ((n, 0), w1)
    | Raises _ =>
        match sink (calls w ++ [objs]) objs with
        | Accepted _ => ((n, 0), w2)
        | Raises msg =>
            ((0, n),
             World (calls w2)
                   (flog w ++ (Mx.error_info msg <$> items))
                   (sleeps w2))
        end
    end.
Proof.
  intros objs n w1 w2.
  unfold Mx.insert_batch_with_retry. simpl.
  fold objs. destruct (sink (calls w) objs) as [f1|m1]; [reflexivity|].
  simpl. destruct (sink (calls w ++ [objs]) objs) as [f2|m2]; [reflexivity|].
  f_equal. fold w1. fold w2.
  assert (Hgen : forall l w',
    foldl (fun w'' item =>
             Mx.append_oversized_chunk (Mx.error_info m2 item) w'') w' l
    = World (calls w') (flog w' ++ (Mx.error_info m2 <$> l)) (sleeps w')).
  { induction l as [|x l IH]; intros w'; simpl.
    - rewrite app_nil_r. now destruct w'.
    - rewrite IH. simpl. now rewrite <- app_assoc. }
  apply Hgen.
Qed.

(** A flush makes one or two bulk inserts of the same objects and counts
    every item of the batch once. *)
Lemma insert_batch_with_retry_calls items d w :
  exists n ins fl w',
    Mx.insert_batch_with_retry sink items d w = ((ins, fl), w')
    /\ (n = 1 \/ n = 2)%nat
    /\ calls w' = calls w ++ replicate n (Mx.obj <$> items)
    /\ ins + fl = Z.of_nat (length items).
Proof.
  rewrite insert_batch_with_retry_cases.
  destruct (sink (calls w) _) as [f1|m1].
  - exists 1%nat. do 3 eexists. split; [reflexivity|].
    split; [now left|]. split; [reflexivity | lia].
  - destruct (sink (calls w ++ _) _) as [f2|m2].
    + exists 2%nat. do 3 eexists. split; [reflexivity|].
      split; [now right|]. simpl. rewrite <- app_assoc. split; [reflexivity | lia].
    + exists 2%nat. do 3 eexists. split; [reflexivity|].
      split; [now right|]. simpl. rewrite <- app_assoc. split; [reflexivity | lia].
Qed.

(** What a flush changes. *)
Lemma flush_effect items st next nt :
  exists n ins fl,
    (n = 1 \/ n = 2)%nat
    /\ calls (Mx.flush sink items st next nt).2
       = calls st.2 ++ replicate n (Mx.obj <$> items)
    /\ ins + fl = Z.of_nat (length items)
    /\ Mx.chunks_inserted (Mx.flush sink items st next nt).1
       = Mx.chunks_inserted st.1 + ins
    /\ Mx.chunks_failed (Mx.flush sink items st next nt).1
       = Mx.chunks_failed st.1 + fl.
Proof.
  destruct st as [l w]. unfold Mx.flush.
  destruct (insert_batch_with_retry_calls items Mx.retry_delay_default w)
    as (n & ins & fl & w' & -> & Hn & Hcalls & Hsum).
  exists n, ins, fl. repeat split; assumption.
Qed.

Lemma flush_current_batch items st next nt :
  Mx.current_batch (Mx.flush sink items st next nt).1 = next
  /\ Mx.current_batch_tokens (Mx.flush sink items st next nt).1 = nt.
Proof.
  unfold Mx.flush. destruct st as [l w].
  destruct (Mx.insert_batch_with_retry _ _ _ _) as [[i f] w'].
  split; reflexivity.
Qed.

Lemma mx_inv_init w0 : mx_inv w0 0 (Mx.Locals 0 0 [] 0, w0).
Proof.
  split; simpl; try reflexivity.
  - exists []. rewrite app_nil_r. split; [reflexivity | constructor].
  - constructor.
  - left. simpl. unfold Mx.MAX_BATCH_TOKENS. lia.
Qed.

(** Flushing the current batch and starting the next one. *)
Lemma mx_inv_flush w0 n st next nt k :
  mx_inv w0 n st ->
  Mx.current_batch st.1 <> [] ->
  Forall (fun it => Mx.token_count it = weight (Mx.obj it)) next ->
  nt = accumulated_weight (Mx.obj <$> next) ->
  admissible Mx.MAX_BATCH_TOKENS (Mx.obj <$> next) ->
  k = Z.of_nat (length next) ->
  mx_inv w0 (n + k) (Mx.flush sink (Mx.current_batch st.1) st next nt).
Proof.
  intros [Hc Hi Ht Hb Hn] Hne Hnext Hnt Hadm ->.
  destruct st as [l w]. simpl in *. unfold Mx.flush.
  destruct (insert_batch_with_retry_calls (Mx.current_batch l)
              Mx.retry_delay_default w)
    as (m & ins & fl & w' & -> & Hm & Hcalls & Hsum).
  destruct Hc as (new & Hnew & Hall).
  split; simpl; try assumption.
  - exists (new ++ replicate m (Mx.obj <$> Mx.current_batch l)).
    rewrite Hcalls, Hnew, app_assoc. split; [reflexivity|].
    apply Forall_app. split; [assumption|].
    apply Forall_replicate. split; [|assumption].
    destruct (Mx.current_batch l); [congruence | discriminate].
  - lia.
Qed.

Lemma mx_inv_step w0 n st dn dt oc file p :
  mx_inv w0 n st ->
  mx_inv w0 (n + 1) (Mx.step sink dn dt oc file st p).
Proof.
  intros Hinv. unfold Mx.step.
  pose proof (create_chunk_object_weight p dn dt oc) as Hw.
  destruct (Mx.create_chunk_object p dn dt oc) as [[o a] tc].
  destruct Hw as [Hw Hpos].
  set (item := Mx.BatchItem o a tc p dn dt file).
  assert (Hitem : Forall (fun it => Mx.token_count it = weight (Mx.obj it)) [item])
    by (constructor; [exact Hw | constructor]).
  assert (Hsingle : accumulated_weight (Mx.obj <$> [item]) = tc)
    by (simpl; lia).
  assert (Hadm1 : admissible Mx.MAX_BATCH_TOKENS (Mx.obj <$> [item])).
  { destruct (Z.le_gt_cases tc Mx.MAX_BATCH_TOKENS).
    - left. rewrite Hsingle. assumption.
    - right. exists o. split; [reflexivity | lia]. }
  destruct (bool_decide (Mx.current_batch st.1 <> [])) eqn:Hne.
  - apply bool_decide_eq_true in Hne.
    destruct (Mx.MAX_BATCH_TOKENS <? Mx.current_batch_tokens st.1 + tc) eqn:Hover;
      simpl.
    + apply mx_inv_flush; auto.
    + apply Z.ltb_ge in Hover. destruct Hinv as [Hc Hi Ht Hb Hn].
      pose proof (accumulated_weight_nonneg (Mx.obj <$> Mx.current_batch st.1)).
      destruct (Mx.MAX_BATCH_TOKENS <? tc) eqn:Hbig;
        [apply Z.ltb_lt in Hbig; lia|].
      split; simpl.
      * assumption.
      * apply Forall_app. split; assumption.
      * rewrite fmap_app, accumulated_weight_app, Ht, Hsingle. reflexivity.
      * left. rewrite fmap_app, accumulated_weight_app, Hsingle, <- Ht.
        assumption.
      * rewrite length_app. simpl. lia.
  - apply bool_decide_eq_false in Hne.
    assert (Hnil : Mx.current_batch st.1 = [])
      by (destruct (Mx.current_batch st.1); [reflexivity | exfalso; apply Hne; discriminate]).
    simpl. destruct Hinv as [Hc Hi Ht Hb Hn].
    destruct (Mx.MAX_BATCH_TOKENS <? tc) eqn:Hbig.
    + (* the oversized paragraph goes alone; the batch stays empty *)
      apply Z.ltb_lt in Hbig.
      destruct st as [l w]. simpl in *. unfold Mx.flush.
      destruct (insert_batch_with_retry_calls [item] Mx.retry_delay_default w)
        as (m & ins & fl & w' & -> & Hm & Hcalls & Hsum).
      destruct Hc as (new & Hnew & Hall).
      split; simpl; try assumption.
      * exists (new ++ replicate m (Mx.obj <$> [item])).
        rewrite Hcalls, Hnew, app_assoc. split; [reflexivity|].
        apply Forall_app. split; [assumption|].
        apply Forall_replicate. split; [discriminate | assumption].
      * rewrite Hnil in *. simpl in *. lia.
    + apply Z.ltb_ge in Hbig. rewrite Hnil in *. simpl in *.
      split; simpl.
      * assumption.
      * assumption.
      * rewrite Ht. lia.
      * left. unfold accumulated_weight. simpl. lia.
      * lia.
Qed.

Lemma mx_inv_loop w0 dn dt oc file ps : forall n st,
  mx_inv w0 n st ->
  mx_inv w0 (n + Z.of_nat (length ps))
         (foldl (Mx.step sink dn dt oc file) st ps).
Proof.
  induction ps as [|p ps IH]; intros n st Hinv; simpl.
  - now rewrite Z.add_0_r.
  - replace (n + Z.of_nat (S (length ps)))
      with ((n + 1) + Z.of_nat (length ps)) by lia.
    apply IH, mx_inv_step, Hinv.
Qed.

(** The whole of [process_document]: the bulk inserts it adds, and its
    two counts. *)
Lemma process_document_summary file data w0 :
  exists new,
    calls (Mx.process_document sink file data w0).2 = calls w0 ++ new
    /\ Forall (fun b => b <> [] /\ admissible Mx.MAX_BATCH_TOKENS b) new
    /\ (Mx.process_document sink file data w0).1.1
       + (Mx.process_document sink file data w0).1.2
       = Z.of_nat (length (default [] (Mx.paragraphs_by_bold data))).
Proof.
  unfold Mx.process_document.
  set (ps := default [] (Mx.paragraphs_by_bold data)).
  pose proof (mx_inv_loop w0 (default "" (Mx.name data))
                (default "" (Mx.Tipo data))
                (default false (Mx.onlyContent data)) file ps 0 _
                (mx_inv_init w0)) as Hinv.
  set (st1 := foldl _ _ ps) in *. simpl in Hinv.
  destruct (bool_decide (Mx.current_batch st1.1 <> [])) eqn:Hne.
  - apply bool_decide_eq_true in Hne.
    destruct (flush_effect (Mx.current_batch st1.1) st1
                (Mx.current_batch st1.1) (Mx.current_batch_tokens st1.1))
      as (k & ins & fl & Hk & Hcalls & Hsum & Hins & Hfl).
    destruct Hinv as [(new & Hnew & Hall) _ _ Hb Hn].
    exists (new ++ replicate k (Mx.obj <$> Mx.current_batch st1.1)).
    cbn [fst snd]. rewrite Hcalls, Hnew, Hins, Hfl, app_assoc.
    split; [reflexivity|]. split; [|lia].
    apply Forall_app. split; [assumption|].
    apply Forall_replicate. split; [|assumption].
    destruct (Mx.current_batch st1.1); [congruence | discriminate].
  - apply bool_decide_eq_false in Hne.
    assert (Hnil : Mx.current_batch st1.1 = [])
      by (destruct (Mx.current_batch st1.1); [reflexivity | exfalso; apply Hne; discriminate]).
    destruct Hinv as [Hc _ _ _ Hn]. rewrite Hnil in Hn. simpl in Hn.
    destruct Hc as (new & Hnew & Hall). exists new.
    repeat split; try assumption. simpl. lia.
Qed.

End MxFacts.


(** ** An oversized paragraph in [process_document] *)

Section MxOversized.
Variable sink : sink_t.
Variables (dn dt : string) (oc : bool) (file : string).

Lemma mx_inv_rebase w0 n st : mx_inv w0 n st -> mx_inv st.2 n st.
Proof.
  intros [Hc Hi Ht Hb Hn]. split; try assumption.
  exists []. rewrite app_nil_r. split; [reflexivity | constructor].
Qed.

Lemma flush_calls items st next nt :
  exists n, (n = 1 \/ n = 2)%nat
    /\ calls (Mx.flush sink items st next nt).2
       = calls st.2 ++ replicate n (Mx.obj <$> items).
Proof.
  destruct st as [l w]. unfold Mx.flush.
  destruct (insert_batch_with_retry_calls sink items Mx.retry_delay_default w)
    as (n & ins & fl & w' & -> & Hn & Hcalls & _).
  exists n. split; assumption.
Qed.

(** The bulk inserts already made stay. *)
Lemma mx_finish_calls w0 n st ps :
  mx_inv w0 n st ->
  exists more, calls (mx_finish sink dn dt oc file st ps).2 = calls st.2 ++ more.
Proof.
  intros Hinv. apply mx_inv_rebase in Hinv.
  pose proof (mx_inv_loop sink st.2 dn dt oc file ps n st Hinv) as Hloop.
  unfold mx_finish. set (st1 := foldl _ st ps) in *.
  destruct (bool_decide (Mx.current_batch st1.1 <> [])) eqn:Hne.
  - apply bool_decide_eq_true in Hne.
    destruct (flush_calls (Mx.current_batch st1.1) st1
                (Mx.current_batch st1.1) (Mx.current_batch_tokens st1.1))
      as (k & _ & ->).
    destruct Hloop as [(new & -> & _) _ _ _ _].
    eexists. rewrite <- app_assoc. reflexivity.
  - destruct Hloop as [(new & -> & _) _ _ _ _]. eexists. reflexivity.
Qed.

(** A batch that holds one oversized item is the next thing that is
    handed over, alone. *)
Lemma mx_pending_singleton w0 n st item ps :
  mx_inv w0 n st ->
  Mx.current_batch st.1 = [item] ->
  Mx.MAX_BATCH_TOKENS < Mx.current_batch_tokens st.1 ->
  exists k rest, (k = 1 \/ k = 2)%nat
    /\ calls (mx_finish sink dn dt oc file st ps).2
       = calls st.2 ++ replicate k [Mx.obj item] ++ rest.
Proof.
  intros Hinv Hb Hbig. destruct ps as [|q ps].
  - unfold mx_finish. simpl. rewrite Hb. simpl.
    destruct (flush_calls [item] st [item] (Mx.current_batch_tokens st.1))
      as (k & Hk & ->).
    exists k, []. rewrite app_nil_r. split; [assumption | reflexivity].
  - pose proof (mx_inv_step sink w0 n st dn dt oc file q Hinv) as Hinv1.
    destruct (mx_finish_calls w0 (n + 1) _ ps Hinv1) as (more & Hmore).
    unfold mx_finish in *. cbn [foldl] in *. rewrite Hmore.
    unfold Mx.step.
    pose proof (create_chunk_object_weight q dn dt oc) as Hw.
    destruct (Mx.create_chunk_object q dn dt oc) as [[o a] tc].
    destruct Hw as [_ Hpos].
    rewrite Hb. simpl.
    assert (Hover : (Mx.MAX_BATCH_TOKENS <? Mx.current_batch_tokens st.1 + tc) = true)
      by (apply Z.ltb_lt; lia).
    rewrite Hover.
    match goal with
    | |- context [Mx.flush sink [item] st ?nb ?nt] =>
        destruct (flush_calls [item] st nb nt) as (k & Hk & ->)
    end.
    exists k, more. split; [assumption|]. now rewrite <- app_assoc.
Qed.

(** The oversized paragraph [p] arrives in the state [st]. *)
Lemma mx_oversized_step w0 n st p post :
  mx_inv w0 n st ->
  Mx.MAX_BATCH_TOKENS < Mx.approx_tokens (Py.get p "content" "") ->
  let pending := Mx.obj <$> Mx.current_batch st.1 in
  let o := (Mx.create_chunk_object p dn dt oc).1.1 in
  exists n1 n2 rest,
    (n1 = 1 \/ n1 = 2)%nat /\ (n2 = 1 \/ n2 = 2)%nat
    /\ calls (mx_finish sink dn dt oc file st (p :: post)).2
       = calls st.2
         ++ (if pending is [] then [] else replicate n1 pending)
         ++ replicate n2 [o] ++ rest.
Proof.
  intros Hinv Hbig pending. cbv zeta.
  pose proof (mx_inv_step sink w0 n st dn dt oc file p Hinv) as Hinv1.
  assert (Hfin : mx_finish sink dn dt oc file st (p :: post)
                 = mx_finish sink dn dt oc file (Mx.step sink dn dt oc file st p) post)
    by reflexivity.
  rewrite Hfin. revert Hinv1. unfold Mx.step.
  assert (Htc : (Mx.create_chunk_object p dn dt oc).2
                = Mx.approx_tokens (Py.get p "content" "")) by reflexivity.
  destruct (Mx.create_chunk_object p dn dt oc) as [[o a] tc].
  simpl in Htc. subst tc. cbn [fst snd].
  set (tc := Mx.approx_tokens (Py.get p "content" "")) in *.
  set (item := Mx.BatchItem o a tc p dn dt file).
  destruct Hinv as [Hc Hi Ht Hb Hn].
  pose proof (accumulated_weight_nonneg (Mx.obj <$> Mx.current_batch st.1)) as Hnn.
  destruct (bool_decide (Mx.current_batch st.1 <> [])) eqn:Hne.
  - apply bool_decide_eq_true in Hne.
    assert (Hover : (Mx.MAX_BATCH_TOKENS <? Mx.current_batch_tokens st.1 + tc) = true)
      by (apply Z.ltb_lt; lia).
    rewrite Hover. simpl. intros Hinv1.
    destruct (flush_current_batch sink (Mx.current_batch st.1) st [item] tc)
      as [Hcb Hct].
    destruct (mx_pending_singleton w0 (n + 1) _ item post Hinv1 Hcb)
      as (n2 & rest & Hn2 & Hcalls); [rewrite Hct; assumption|].
    destruct (flush_calls (Mx.current_batch st.1) st [item] tc)
      as (n1 & Hn1 & Hfl).
    exists n1, n2, rest. split; [assumption|]. split; [assumption|].
    rewrite Hcalls, Hfl. subst pending.
    destruct (Mx.current_batch st.1) as [|x l]; [congruence|].
    simpl. now rewrite <- !app_assoc.
  - apply bool_decide_eq_false in Hne.
    assert (Hnil : Mx.current_batch st.1 = [])
      by (destruct (Mx.current_batch st.1);
          [reflexivity | exfalso; apply Hne; discriminate]).
    simpl.
    assert (Hbig' : (Mx.MAX_BATCH_TOKENS <? tc) = true) by (apply Z.ltb_lt; assumption).
    rewrite Hbig'. intros Hinv1.
    destruct (mx_finish_calls w0 (n + 1) _ post Hinv1) as (more & ->).
    match goal with
    | |- context [Mx.flush sink [item] st ?nb ?nt] =>
        destruct (flush_calls [item] st nb nt) as (n2 & Hn2 & ->)
    end.
    exists 1%nat, n2, more. split; [now left|]. split; [assumption|].
    subst pending. rewrite Hnil. simpl. now rewrite <- app_assoc.
Qed.

End MxOversized.


(** ** The accumulator of [us/state/batchAddStateCollection.py] *)

Section StateFacts.
Variable sink : sink_t.

Lemma state_log_entries (f : json -> json) objs : forall g,
  foldl (fun g' o => State.append_failed_chunk (f o) g') g objs
  = State.set_w (fun w => World (calls w) (flog w ++ (f <$> objs)) (sleeps w)) g.
Proof.
  induction objs as [|o objs IH]; intros g; simpl.
  - unfold State.set_w. rewrite app_nil_r. now destruct g as [[]].
  - rewrite IH. unfold State.set_w, State.append_failed_chunk, State.set_w.
    simpl. now rewrite <- app_assoc.
Qed.

(** The two ways in which [send_batch] ends on a batch that is not
    empty: one bulk insert, never a second one. *)
Lemma send_batch_cases objs g :
  objs <> [] ->
  State.send_batch sink objs g =
    let n := Z.of_nat (length objs) in
    let b := State.total_batches g + 1 in
    let w := State.w g in
    match sink (calls w) objs with
    | Accepted _ =>
        State.Globals (record_call objs w) (State.total_chunks_processed g)
          (State.total_chunks_imported g + n) (State.total_failed g) b
          (State.current_batch g) (State.current_batch_tokens g)
    | Raises msg =>
        State.Globals
          (World (calls w ++ [objs])
                 (flog w ++ (State.failed_entry msg b <$> objs))
                 (sleeps w))
          (State.total_chunks_processed g)
          (State.total_chunks_imported g) (State.total_failed g + n) b
          (State.current_batch g) (State.current_batch_tokens g)
    end.
Proof.
  intros Hne. destruct objs as [|o objs]; [congruence|].
  unfold State.send_batch.
  destruct (sink (calls (State.w g)) (o :: objs)) as [f|msg]; [reflexivity|].
  rewrite (state_log_entries
             (State.failed_entry msg (State.total_batches g + 1))).
  reflexivity.
Qed.

(** What [send_batch] changes. *)
Lemma send_batch_effect objs g :
  let g' := State.send_batch sink objs g in
  calls (State.w g') = calls (State.w g) ++ (if objs is [] then [] else [objs])
  /\ State.total_chunks_imported g' + State.total_failed g'
     = State.total_chunks_imported g + State.total_failed g
       + Z.of_nat (length objs)
  /\ State.total_chunks_processed g' = State.total_chunks_processed g
  /\ State.current_batch g' = State.current_batch g
  /\ State.current_batch_tokens g' = State.current_batch_tokens g.
Proof.
  destruct objs as [|o objs].
  - simpl. rewrite app_nil_r. repeat split; lia.
  - cbv zeta. rewrite send_batch_cases by discriminate. cbv zeta.
    destruct (sink _ _); simpl; repeat split; lia.
Qed.

Lemma state_inv_init w0 : state_inv w0 (State.globals0 w0).
Proof.
  split; simpl; try reflexivity.
  - exists []. rewrite app_nil_r. split; [reflexivity | constructor].
  - unfold State.MAX_BATCH_TOKENS. lia.
Qed.

Lemma state_calls_send w0 objs g :
  (exists new, calls (State.w g) = calls w0 ++ new
     /\ Forall (fun b => b <> [] /\ admissible State.MAX_BATCH_TOKENS b) new) ->
  admissible State.MAX_BATCH_TOKENS objs ->
  exists new, calls (State.w (State.send_batch sink objs g)) = calls w0 ++ new
     /\ Forall (fun b => b <> [] /\ admissible State.MAX_BATCH_TOKENS b) new.
Proof.
  intros (new & Hnew & Hall) Hadm.
  destruct (send_batch_effect objs g) as (Hc & _).
  rewrite Hc, Hnew. destruct objs as [|o objs].
  - exists new. rewrite app_nil_r. auto.
  - exists (new ++ [o :: objs]). rewrite app_assoc. split; [reflexivity|].
    apply Forall_app. split; [assumption|].
    constructor; [|constructor]. split; [discriminate | assumption].
Qed.

Lemma state_inv_chunk_step w0 a fa chunk g :
  state_inv w0 g ->
  state_inv w0 (State.chunk_step sink a fa chunk g)
  /\ State.total_chunks_processed (State.chunk_step sink a fa chunk g)
     = State.total_chunks_processed g + 1.
Proof.
  intros [Hc Ht Hb Hn]. unfold State.chunk_step.
  set (props := State.properties_of chunk a fa).
  set (tc := State.approx_tokens (Py.get chunk "content" "")).
  assert (Htc : weight props = tc) by reflexivity.
  assert (Hpos : 1 <= tc) by apply approx_tokens_pos.
  set (g0 := State.Globals _ (State.total_chunks_processed g + 1) _ _ _ _ _).
  destruct (State.MAX_BATCH_TOKENS <? tc) eqn:Hbig.
  - apply Z.ltb_lt in Hbig.
    assert (Hsingle : admissible State.MAX_BATCH_TOKENS [props])
      by (right; exists props; split; [reflexivity | lia]).
    destruct (bool_decide (State.current_batch g0 <> [])) eqn:Hne.
    + set (g1 := State.send_batch sink (State.current_batch g0) g0).
      destruct (send_batch_effect (State.current_batch g0) g0)
        as (_ & Hs1 & Hp1 & _).
      fold g1 in Hs1, Hp1.
      destruct (send_batch_effect [props] (State.set_batch [] 0 g1))
        as (_ & Hs2 & Hp2 & Hb2 & Ht2).
      split; [split|].
      * apply state_calls_send; [|assumption].
        apply (state_calls_send w0 (State.current_batch g0) g0);
          [exact Hc | left; exact Hb].
      * rewrite Ht2, Hb2. reflexivity.
      * rewrite Hb2. simpl. unfold State.MAX_BATCH_TOKENS. lia.
      * rewrite Hs2, Hb2, Hp2. simpl in *. lia.
      * rewrite Hp2. simpl. exact Hp1.
    + apply bool_decide_eq_false in Hne.
      assert (Hnil : State.current_batch g = [])
        by (simpl in Hne; destruct (State.current_batch g);
            [reflexivity | exfalso; apply Hne; discriminate]).
      destruct (send_batch_effect [props] g0) as (_ & Hs2 & Hp2 & Hb2 & Ht2).
      split; [split|].
      * apply state_calls_send; assumption.
      * rewrite Ht2, Hb2. exact Ht.
      * rewrite Hb2. exact Hb.
      * rewrite Hs2, Hb2, Hp2. simpl in *. rewrite Hnil in *. simpl in *. lia.
      * rewrite Hp2. reflexivity.
  - apply Z.ltb_ge in Hbig.
    destruct (State.MAX_BATCH_TOKENS <? State.current_batch_tokens g0 + tc)
      eqn:Hover.
    + destruct (send_batch_effect (State.current_batch g0) g0)
        as (_ & Hs1 & Hp1 & _).
      split; [split|]; simpl.
      * apply (state_calls_send w0 (State.current_batch g0) g0);
          [exact Hc | left; exact Hb].
      * fold props. rewrite Htc. lia.
      * fold props. rewrite Htc. lia.
      * simpl in *. lia.
      * exact Hp1.
    + apply Z.ltb_ge in Hover. simpl in Hover.
      split; [split|]; simpl.
      * exact Hc.
      * rewrite accumulated_weight_app, Ht. simpl. fold props.
        rewrite Htc. lia.
      * rewrite accumulated_weight_app. simpl. fold props.
        rewrite Htc. lia.
      * rewrite length_app. simpl. lia.
      * reflexivity.
Qed.

Lemma state_inv_chunks w0 a fa chunks : forall g,
  state_inv w0 g ->
  let g' := foldl (fun g' c => State.chunk_step sink a fa c g') g chunks in
  state_inv w0 g'
  /\ State.total_chunks_processed g'
     = State.total_chunks_processed g + Z.of_nat (length chunks).
Proof.
  induction chunks as [|c chunks IH]; intros g Hinv; simpl.
  - split; [assumption | lia].
  - destruct (state_inv_chunk_step w0 a fa c g Hinv) as [Hinv1 Hp1].
    destruct (IH _ Hinv1) as [Hinv2 Hp2].
    split; [assumption | lia].
Qed.

(** One line: the invariant is kept whether the line is handled or the
    extraction of its parents raises; a handled line adds its chunks to
    the number of processed chunks. *)
Lemma state_line_step w0 (pre : list (option Jsonl.data)) line :
  triple (fun g => state_inv w0 g
                   /\ State.total_chunks_processed g = chunk_total pre)
         (State.line_step sink line)
         (fun _ g => state_inv w0 g
                     /\ State.total_chunks_processed g
                        = chunk_total (pre ++ [line]))
         (fun _ g => state_inv w0 g).
Proof.
  assert (Htot : forall l, chunk_total (pre ++ [l])
                           = chunk_total pre + chunk_total [l]).
  { intros l. induction pre as [|x pre IH]; simpl; [lia|].
    destruct x; simpl in IH; lia. }
  intros g [Hinv Hp]. unfold State.line_step.
  destruct line as [d|]; simpl.
  - unfold bind, Jsonl.lift.
    destruct (Jsonl.parent_keys d) as [pk|e]; [|assumption].
    destruct (Jsonl.article_and_from d pk) as [af|e]; [|assumption].
    rewrite for_each_modify.
    destruct (state_inv_chunks w0 af.1 af.2 (default [] (Jsonl.chunks d)) g Hinv)
      as [Hinv' Hp'].
    split; [assumption|]. rewrite Htot. simpl. lia.
  - split; [assumption|]. rewrite Htot. simpl. lia.
Qed.

(** The whole script. *)
Lemma state_run_summary w0 lines :
  triple (fun g => g = State.globals0 w0)
         (State.run sink lines)
         (fun _ g =>
            (exists new, calls (State.w g) = calls w0 ++ new
               /\ Forall (fun b => b <> []
                                   /\ admissible State.MAX_BATCH_TOKENS b) new)
            /\ State.total_chunks_imported g + State.total_failed g
               = State.total_chunks_processed g
            /\ State.total_chunks_processed g = chunk_total lines)
         (fun _ g =>
            (exists new, calls (State.w g) = calls w0 ++ new
               /\ Forall (fun b => b <> []
                                   /\ admissible State.MAX_BATCH_TOKENS b) new)
            /\ State.total_chunks_imported g + State.total_failed g
               + Z.of_nat (length (State.current_batch g))
               = State.total_chunks_processed g).
Proof.
  unfold State.run.
  eapply triple_bind.
  - eapply triple_conseq.
    + apply (triple_for_each
               (fun pre g => state_inv w0 g
                             /\ State.total_chunks_processed g = chunk_total pre)
               (State.line_step sink)
               (fun _ g => state_inv w0 g) lines
               (fun pre x => state_line_step w0 pre x) []).
    + intros g ->. split; [apply state_inv_init | reflexivity].
    + intros a g H. exact H.
    + intros e g [Hc _ _ Hn]. split; assumption.
  - intros u. apply triple_modify. simpl. intros g [[Hc Ht Hb Hn] Hp].
    destruct (bool_decide (State.current_batch g <> [])) eqn:Hne.
    + destruct (send_batch_effect (State.current_batch g) g)
        as (_ & Hs1 & Hp1 & _).
      split; [|split].
      * apply state_calls_send; [assumption | left; assumption].
      * lia.
      * lia.
    + apply bool_decide_eq_false in Hne.
      assert (Hnil : State.current_batch g = [])
        by (destruct (State.current_batch g);
            [reflexivity | exfalso; apply Hne; discriminate]).
      rewrite Hnil in Hn. simpl in Hn.
      split; [assumption | split; lia].
Qed.

End StateFacts.


(** ** The accumulator of [us/state/old/batchAddStateCollectionOllamaV2.py] *)

Section StateOldFacts.
Variable sink : sink_t.

Lemma old_rejected_entries bn fs : forall s,
  foldl (fun s' f => StateOld.append_failed_chunk
                       (StateOld.rejected_entry bn f)
                       (StateOld.add_failed 1 s')) s fs
  = StateOld.St
      (World (calls (StateOld.w s))
             (flog (StateOld.w s) ++ (StateOld.rejected_entry bn <$> fs))
             (sleeps (StateOld.w s)))
      (StateOld.processed s) (StateOld.imported s)
      (StateOld.failed s + Z.of_nat (length fs)) (StateOld.batches s)
      (StateOld.objects s) (StateOld.tokens s).
Proof.
  induction fs as [|f fs IH]; intros s.
  - simpl. rewrite app_nil_r, Z.add_0_r. now destruct s as [[]].
  - cbn [foldl]. rewrite IH. simpl. rewrite <- app_assoc. simpl.
    f_equal. lia.
Qed.

Lemma old_failed_entries (f : json -> json) objs : forall s,
  foldl (fun s' o => StateOld.append_failed_chunk (f o) s') s objs
  = StateOld.set_w
      (fun w => World (calls w) (flog w ++ (f <$> objs)) (sleeps w)) s.
Proof.
  induction objs as [|o objs IH]; intros s; simpl.
  - unfold StateOld.set_w. rewrite app_nil_r. now destruct s as [[]].
  - rewrite IH. unfold StateOld.set_w, StateOld.append_failed_chunk,
      StateOld.set_w. simpl. now rewrite <- app_assoc.
Qed.

(** The ways in which [send_batch_to_weaviate] ends on a batch that is
    not empty: one bulk insert, never a second one. *)
Lemma send_batch_to_weaviate_cases objs bn ct s :
  objs <> [] ->
  StateOld.send_batch_to_weaviate sink objs bn ct s =
    let n := Z.of_nat (length objs) in
    let w := StateOld.w s in
    match sink (calls w) objs with
    | Accepted [] =>
        (Ret tt,
         StateOld.St (record_call objs w) (StateOld.processed s)
           (StateOld.imported s + n) (StateOld.failed s)
           (StateOld.batches s) (StateOld.objects s) (StateOld.tokens s))
    | Accepted rejected =>
        (Ret tt,
         StateOld.St
           (World (calls w ++ [objs])
                  (flog w ++ (StateOld.rejected_entry bn <$> rejected))
                  (sleeps w))
           (StateOld.processed s)
           (StateOld.imported s + (n - Z.of_nat (length rejected)))
           (StateOld.failed s + Z.of_nat (length rejected))
           (StateOld.batches s) (StateOld.objects s) (StateOld.tokens s))
    | Raises msg =>
        if StateOld.disk_error msg then
          (Exc (Exception msg),
           StateOld.St (record_call objs w) (StateOld.processed s)
             (StateOld.imported s) (StateOld.failed s + n)
             (StateOld.batches s) (StateOld.objects s) (StateOld.tokens s))
        else
          (Ret tt,
           StateOld.St
             (World (calls w ++ [objs])
                    (flog w ++ (StateOld.failed_entry msg bn <$> objs))
                    (sleeps w))
             (StateOld.processed s) (StateOld.imported s)
             (StateOld.failed s + n)
             (StateOld.batches s) (StateOld.objects s) (StateOld.tokens s))
    end.
Proof.
  intros Hne. destruct objs as [|o objs]; [congruence|].
  unfold StateOld.send_batch_to_weaviate. cbv zeta.
  destruct (sink (calls (StateOld.w s)) (o :: objs)) as [[|f fs]|msg].
  - reflexivity.
  - rewrite old_rejected_entries. reflexivity.
  - destruct (StateOld.disk_error msg); [reflexivity|].
    rewrite (old_failed_entries (StateOld.failed_entry msg bn)).
    reflexivity.
Qed.

Lemma no_disk_error_snoc k c objs :
  no_disk_error sink k c ->
  (forall msg, sink c objs = Raises msg -> StateOld.disk_error msg = false) ->
  no_disk_error sink k (c ++ [objs]).
Proof.
  intros Hsafe Hlast hist o rest msg Heq Hk Hs.
  destruct rest as [|x rest _] using rev_ind.
  - apply app_inj_tail in Heq as [<- <-]. eauto.
  - rewrite app_comm_cons, app_assoc in Heq.
    apply app_inj_tail in Heq as [Heq _].
    eapply Hsafe; eauto.
Qed.

Lemma old_inv_init w0 : old_inv sink w0 0 (StateOld.state0 w0).
Proof.
  split; simpl; try reflexivity.
  - exists []. rewrite app_nil_r. split; [reflexivity | constructor].
  - intros hist objs rest msg Heq Hk _.
    apply (f_equal length) in Heq. rewrite length_app in Heq. simpl in Heq. lia.
Qed.

(** Sending [objs], a part of the chunks that are not yet counted: [k]
    chunks stay uncounted afterwards. *)
Lemma old_send w0 objs bn ct p k ob :
  triple (old_mid sink w0 p (Z.of_nat (length objs) + k) ob)
         (StateOld.send_batch_to_weaviate sink objs bn ct)
         (fun _ => old_mid sink w0 p k ob)
         (old_raised sink w0).
Proof.
  intros s [Hc Hsafe Hn Hp Hob].
  destruct objs as [|o objs].
  - simpl. split; try assumption; simpl in Hn; lia.
  - rewrite send_batch_to_weaviate_cases by discriminate. cbv zeta.
    destruct Hc as (new & Hnew & Hall).
    assert (Hc' : exists new', calls (StateOld.w s) ++ [o :: objs]
                               = calls w0 ++ new'
                               /\ Forall (fun b => b <> []) new').
    { exists (new ++ [o :: objs]). rewrite Hnew, app_assoc.
      split; [reflexivity|]. apply Forall_app. split; [assumption|].
      constructor; [discriminate | constructor]. }
    destruct (sink (calls (StateOld.w s)) (o :: objs)) as [[|f fs]|msg] eqn:Hs.
    + split; simpl; try assumption.
      * apply no_disk_error_snoc; [assumption|]. intros msg Hm. congruence.
      * simpl in Hn. lia.
    + split; simpl; try assumption.
      * apply no_disk_error_snoc; [assumption|]. intros msg Hm. congruence.
      * simpl in Hn. lia.
    + destruct (StateOld.disk_error msg) eqn:Hd.
      * split; [exact Hc'|]. right.
        exists (calls (StateOld.w s)), (o :: objs), msg. simpl.
        repeat split; try assumption.
        rewrite Hnew, length_app. lia.
      * split; simpl; try assumption.
        -- apply no_disk_error_snoc; [assumption|]. intros m Hm. congruence.
        -- simpl in Hn. lia.
Qed.

(** [stats['batches'] += 1] changes none of this. *)
Lemma old_mid_add_batches w0 p k ob s :
  old_mid sink w0 p k ob s ->
  old_mid sink w0 p k ob (StateOld.add_batches 1 s).
Proof. intros [Hc Hsafe Hn Hp Hob]. split; assumption. Qed.

Lemma old_send_current w0 p k :
  triple (fun s => old_mid sink w0 p
                     (Z.of_nat (length (StateOld.objects s)) + k)
                     (StateOld.objects s) s)
         (StateOld.send_current sink)
         (fun _ => old_mid sink w0 p k [])
         (old_raised sink w0).
Proof.
  intros s Hs. unfold StateOld.send_current, bind, modify.
  apply (old_mid_add_batches w0) in Hs.
  pose proof (old_send w0 (StateOld.objects (StateOld.add_batches 1 s))
                (StateOld.batches (StateOld.add_batches 1 s))
                (StateOld.tokens (StateOld.add_batches 1 s))
                p k (StateOld.objects s) _ Hs) as H.
  destruct (StateOld.send_batch_to_weaviate _ _ _ _ _) as [[[]|e] s'];
    [|exact H].
  destruct H as [Hc Hsafe Hn Hp Hob]. split; assumption || reflexivity.
Qed.

Lemma old_handle_oversized w0 props tc p k ob :
  triple (old_mid sink w0 p (1 + k) ob)
         (StateOld.handle_oversized_chunk sink props tc)
         (fun _ => old_mid sink w0 p k ob)
         (old_raised sink w0).
Proof.
  intros s Hs. unfold StateOld.handle_oversized_chunk, bind, modify.
  apply (old_mid_add_batches w0) in Hs.
  exact (old_send w0 [props] _ tc p k ob _ Hs).
Qed.

Lemma old_chunk_step w0 a fa doc max_tokens chunk p :
  triple (old_inv sink w0 p)
         (StateOld.chunk_step sink a fa doc max_tokens chunk)
         (fun _ => old_inv sink w0 (p + 1))
         (old_raised sink w0).
Proof.
  unfold StateOld.chunk_step.
  set (props := StateOld.create_chunk_properties chunk a fa doc).
  set (tc := StateOld.approx_tokens (content_of props)).
  eapply triple_bind with
    (R := fun _ s => old_mid sink w0 (p + 1)
                       (Z.of_nat (length (StateOld.objects s)) + 1)
                       (StateOld.objects s) s).
  { apply triple_modify. intros s [Hc Hsafe Hn Hp Hob].
    split; simpl; try assumption; try reflexivity; lia. }
  intros u. destruct (max_tokens <? tc).
  - eapply triple_bind with (R := fun _ s => old_mid sink w0 (p + 1) (1 + 0) [] s).
    + intros s Hs. destruct (bool_decide (StateOld.objects s <> [])) eqn:Hne.
      * pose proof (old_send_current w0 (p + 1) 1 s Hs) as H.
        destruct (StateOld.send_current sink s) as [[[]|e] s']; exact H.
      * apply bool_decide_eq_false in Hne.
        assert (Hnil : StateOld.objects s = [])
          by (destruct (StateOld.objects s);
              [reflexivity | exfalso; apply Hne; discriminate]).
        rewrite Hnil in Hs. exact Hs.
    + intros u'. eapply triple_conseq;
        [apply (old_handle_oversized w0 props tc (p + 1) 0 []) | auto | | auto].
      intros u'' s [Hc Hsafe Hn Hp Hob]. unfold old_inv. rewrite Hob.
      split; simpl; assumption.
  - eapply triple_bind with
      (R := fun _ s => old_mid sink w0 (p + 1)
                         (Z.of_nat (length (StateOld.objects s)) + 1)
                         (StateOld.objects s) s).
    + intros s Hs.
      destruct (StateOld.should_send_batch (StateOld.tokens s) tc max_tokens).
      * pose proof (old_send_current w0 (p + 1) 1 s Hs) as H.
        destruct (StateOld.send_current sink s) as [[[]|e] s']; [|exact H].
        destruct H as [Hc Hsafe Hn Hp Hob]. rewrite Hob.
        split; simpl; assumption.
      * exact Hs.
    + intros u'. apply triple_modify. intros s [Hc Hsafe Hn Hp Hob].
      split; simpl; try assumption; try reflexivity.
      rewrite length_app. simpl. lia.
Qed.

(** One line: a handled line adds its chunks to the number of processed
    chunks. *)
Lemma old_line_step w0 doc max_tokens (pre : list (option Jsonl.data)) line :
  triple (old_inv sink w0 (chunk_total pre))
         (StateOld.line_step sink doc max_tokens line)
         (fun _ => old_inv sink w0 (chunk_total (pre ++ [line])))
         (old_raised sink w0).
Proof.
  assert (Htot : forall l, chunk_total (pre ++ [l])
                           = chunk_total pre + chunk_total [l]).
  { intros l. induction pre as [|x pre IH]; simpl; [lia|].
    destruct x; simpl in IH; lia. }
  assert (Hraise : forall e p s, old_inv sink w0 p s -> old_raised sink w0 e s).
  { intros e p s [Hc Hsafe _ _ _]. split; [assumption | now left]. }
  unfold StateOld.line_step. destruct line as [d|].
  - unfold StateOld.process_chunks_from_line.
    eapply triple_bind with (R := fun _ => old_inv sink w0 (chunk_total pre)).
    + apply triple_lift. intros s Hs.
      destruct (StateOld.extract_parent_info d); [exact Hs | eauto].
    + intros af. rewrite Htot. simpl.
      set (cs := default [] (Jsonl.chunks d)).
      assert (Hbody : forall done c,
        triple (old_inv sink w0 (chunk_total pre + Z.of_nat (length done)))
               (StateOld.chunk_step sink af.1 af.2 doc max_tokens c)
               (fun _ => old_inv sink w0
                           (chunk_total pre + Z.of_nat (length (done ++ [c]))))
               (old_raised sink w0)).
      { intros done c. eapply triple_conseq;
          [apply (old_chunk_step w0 _ _ _ _ _
                    (chunk_total pre + Z.of_nat (length done)))
          | auto | | auto].
        intros u s Hs. rewrite length_app. simpl.
        replace (chunk_total pre + Z.of_nat (length done + 1))
          with (chunk_total pre + Z.of_nat (length done) + 1) by lia.
        exact Hs. }
      pose proof (triple_for_each
                    (fun done => old_inv sink w0
                                   (chunk_total pre + Z.of_nat (length done)))
                    (StateOld.chunk_step sink af.1 af.2 doc max_tokens)
                    (old_raised sink w0) cs Hbody []) as Hloop.
      eapply triple_conseq; [apply Hloop | | | auto].
      * intros s Hs. simpl. now rewrite Z.add_0_r.
      * intros u s Hs. simpl in Hs.
        now replace (chunk_total pre + (Z.of_nat (length cs) + 0))
          with (chunk_total pre + Z.of_nat (length cs)) by lia.
  - apply triple_ret. intros s Hs. rewrite Htot. simpl.
    now rewrite Z.add_0_r.
Qed.

(** The whole of [process_jsonl_file]. *)
Lemma old_run_summary lines doc max_tokens w0 :
  match StateOld.process_jsonl_file sink lines doc max_tokens w0 with
  | (Ret _, s) =>
      old_mid sink w0 (chunk_total lines) 0 (StateOld.objects s) s
  | (Exc e, s) => old_raised sink w0 e s
  end.
Proof.
  unfold StateOld.process_jsonl_file.
  assert (H : triple (old_inv sink w0 0)
                (for_each lines (StateOld.line_step sink doc max_tokens) ;;;
                 fun s => if bool_decide (StateOld.objects s <> []) then
                   (modify (StateOld.add_batches 1) ;;;
                    fun s' => StateOld.send_batch_to_weaviate sink
                                (StateOld.objects s') (StateOld.batches s')
                                (StateOld.tokens s') s') s
                   else (Ret tt, s))
                (fun _ s => old_mid sink w0 (chunk_total lines) 0
                              (StateOld.objects s) s)
                (old_raised sink w0)).
  { eapply triple_bind.
    - apply (triple_for_each (fun pre => old_inv sink w0 (chunk_total pre))
               (StateOld.line_step sink doc max_tokens)
               (old_raised sink w0) lines
               (fun pre x => old_line_step w0 doc max_tokens pre x) []).
    - intros u s Hs. simpl in Hs.
      destruct (bool_decide (StateOld.objects s <> [])) eqn:Hne.
      + unfold bind, modify.
        assert (Hs' : old_mid sink w0 (chunk_total lines)
                        (Z.of_nat (length (StateOld.objects s)) + 0)
                        (StateOld.objects s) (StateOld.add_batches 1 s)).
        { apply old_mid_add_batches. rewrite Z.add_0_r. exact Hs. }
        pose proof (old_send w0 _ (StateOld.batches (StateOld.add_batches 1 s))
                      (StateOld.tokens (StateOld.add_batches 1 s))
                      _ _ _ _ Hs') as H.
        simpl in H |- *.
        destruct (StateOld.send_batch_to_weaviate _ _ _ _ _) as [[[]|e] s'];
          [|exact H].
        destruct H as [Hc Hsafe Hn Hp Hob]. rewrite Hob.
        split; assumption.
      + apply bool_decide_eq_false in Hne.
        assert (Hnil : StateOld.objects s = [])
          by (destruct (StateOld.objects s);
              [reflexivity | exfalso; apply Hne; discriminate]).
        unfold old_inv in Hs. rewrite Hnil in Hs |- *. exact Hs. }
  specialize (H _ (old_inv_init w0)).
  destruct (bind _ _ (StateOld.state0 w0)) as [[[]|e] s]; exact H.
Qed.

End StateOldFacts.


(** ** The batches handed to the database *)

(** C1. Whatever the paragraphs or lines and whatever the database answers,
    every batch that a run hands to the database has an accumulated weight
    of at most [MAX_BATCH_TOKENS], unless it is a single object that alone
    exceeds the limit. This holds for [process_document] of
    [mx/addToCollection.py] (limit 120000) and for the script
    [us/state/batchAddStateCollection.py] (limit 136000), also when the
    script stops on an exception. *)
Theorem flushed_batches_within_limit (sink : sink_t) :
  (forall file data w0,
     exists new,
       calls (Mx.process_document sink file data w0).2 = calls w0 ++ new
       /\ Forall (fun b => accumulated_weight b <= Mx.MAX_BATCH_TOKENS
                           \/ oversized_singleton Mx.MAX_BATCH_TOKENS b) new)
  /\ (forall lines w0,
        exists new,
          calls (State.w (State.run sink lines (State.globals0 w0)).2)
          = calls w0 ++ new
          /\ Forall (fun b => accumulated_weight b <= State.MAX_BATCH_TOKENS
                              \/ oversized_singleton State.MAX_BATCH_TOKENS b)
                    new).
Proof.
  split.
  - intros file data w0.
    destruct (process_document_summary sink file data w0)
      as (new & Hnew & Hall & _).
    exists new. split; [assumption|].
    eapply Forall_impl; [exact Hall|]. intros b [_ Hb]. exact Hb.
  - intros lines w0.
    pose proof (state_run_summary sink w0 lines _ eq_refl) as H.
    destruct (State.run sink lines (State.globals0 w0)) as [[[]|e] g];
      simpl in *; destruct H as ((new & Hnew & Hall) & _);
      exists new; (split; [assumption|]);
      (eapply Forall_impl; [exact Hall|]); intros b [_ Hb]; exact Hb.
Qed.

(** C9. The database never receives an empty batch: every bulk insert of a
    run of the three loaders carries at least one object, and the two
    flush functions that guard themselves return without a bulk insert on
    the empty list. *)
Theorem sink_never_gets_empty_batch (sink : sink_t) :
  (forall file data w0,
     exists new,
       calls (Mx.process_document sink file data w0).2 = calls w0 ++ new
       /\ Forall (fun b => b <> []) new)
  /\ (forall lines w0,
        exists new,
          calls (State.w (State.run sink lines (State.globals0 w0)).2)
          = calls w0 ++ new
          /\ Forall (fun b => b <> []) new)
  /\ (forall lines doc max_tokens w0,
        exists new,
          calls (StateOld.w
                   (StateOld.process_jsonl_file sink lines doc max_tokens w0).2)
          = calls w0 ++ new
          /\ Forall (fun b => b <> []) new)
  /\ (forall g, State.send_batch sink [] g = g)
  /\ (forall bn ct s,
        StateOld.send_batch_to_weaviate sink [] bn ct s = (Ret tt, s)).
Proof.
  split; [|split; [|split; [|split]]].
  - intros file data w0.
    destruct (process_document_summary sink file data w0)
      as (new & Hnew & Hall & _).
    exists new. split; [assumption|].
    eapply Forall_impl; [exact Hall|]. intros b [Hb _]. exact Hb.
  - intros lines w0.
    pose proof (state_run_summary sink w0 lines _ eq_refl) as H.
    destruct (State.run sink lines (State.globals0 w0)) as [[[]|e] g];
      simpl in *; destruct H as ((new & Hnew & Hall) & _);
      exists new; (split; [assumption|]);
      (eapply Forall_impl; [exact Hall|]); intros b [Hb _]; exact Hb.
  - intros lines doc max_tokens w0.
    pose proof (old_run_summary sink lines doc max_tokens w0) as H.
    destruct (StateOld.process_jsonl_file sink lines doc max_tokens w0)
      as [[[]|e] s]; simpl.
    + destruct H as [Hc _ _ _ _]. exact Hc.
    + destruct H as [Hc _]. exact Hc.
  - reflexivity.
  - reflexivity.
Qed.

(** ** The counts of a run *)




(** ** Runs that reach their end *)

Section Returns.
Context {S : Type}.

Lemma returns_modify (f : S -> S) : returns (modify f).
Proof. intros s. eexists. reflexivity. Qed.

Lemma returns_bind (m : M S unit) (k : unit -> M S unit) :
  returns m -> (forall u, returns (k u)) -> returns (bind m k).
Proof.
  intros Hm Hk s. unfold bind. destruct (Hm s) as [s' ->]. apply Hk.
Qed.

Lemma returns_for_each {A} (l : list A) (body : A -> M S unit) :
  Forall (fun x => returns (body x)) l -> returns (for_each l body).
Proof.
  induction 1 as [|x l Hx Hl IH]; simpl.
  - intros s. eexists. reflexivity.
  - apply returns_bind; auto.
Qed.

End Returns.

(** The script of [us/state/batchAddStateCollection.py] reaches its end
    when the parent keys of every line have a number. *)
Lemma state_run_returns (sink : sink_t) lines :
  Forall numbered lines -> returns (State.run sink lines).
Proof.
  intros Hl. unfold State.run.
  apply returns_bind; [|intros u; apply returns_modify].
  apply returns_for_each. eapply Forall_impl; [exact Hl|].
  intros [d|] Hd s; simpl; [|eexists; reflexivity].
  destruct Hd as [r Hr]. unfold StateOld.extract_parent_info in Hr.
  unfold bind, Jsonl.lift.
  destruct (Jsonl.parent_keys d) as [pk|]; [|discriminate].
  rewrite Hr. rewrite for_each_modify. eexists. reflexivity.
Qed.

(** So does [process_jsonl_file] of the old loader, when moreover the
    database never raises the disk space error. *)
Lemma old_run_returns (sink : sink_t) lines doc max_tokens w0 :
  never_disk_error sink -> Forall numbered lines ->
  exists s,
    StateOld.process_jsonl_file sink lines doc max_tokens w0 = (Ret tt, s).
Proof.
  intros Hsink Hl. unfold StateOld.process_jsonl_file.
  assert (Hsend : forall objs bn ct,
            returns (StateOld.send_batch_to_weaviate sink objs bn ct)).
  { intros objs bn ct s. destruct objs as [|o objs]; [eexists; reflexivity|].
    rewrite send_batch_to_weaviate_cases by discriminate. cbv zeta.
    destruct (sink (calls (StateOld.w s)) (o :: objs)) as [[|f fs]|msg] eqn:Hs;
      try (eexists; reflexivity).
    rewrite (Hsink _ _ _ Hs). eexists. reflexivity. }
  assert (Hcur : returns (StateOld.send_current sink)).
  { unfold StateOld.send_current.
    apply returns_bind; [apply returns_modify|]. intros u.
    apply returns_bind; [|intros u'; apply returns_modify].
    intros s. apply Hsend. }
  assert (Hchunk : forall a fa c,
            returns (StateOld.chunk_step sink a fa doc max_tokens c)).
  { intros a fa c. unfold StateOld.chunk_step.
    apply returns_bind; [apply returns_modify|]. intros u.
    destruct (max_tokens <? _).
    - apply returns_bind.
      + intros s. destruct (bool_decide _); [apply Hcur | eexists; reflexivity].
      + intros u'. unfold StateOld.handle_oversized_chunk.
        apply returns_bind; [apply returns_modify|]. intros u'' s. apply Hsend.
    - apply returns_bind; [|intros u'; apply returns_modify].
      intros s. destruct (StateOld.should_send_batch _ _ _);
        [apply Hcur | eexists; reflexivity]. }
  apply returns_bind.
  - apply returns_for_each. eapply Forall_impl; [exact Hl|].
    intros [d|] Hd; simpl; [|intros s; eexists; reflexivity].
    destruct Hd as [r Hr]. unfold StateOld.process_chunks_from_line.
    intros s. unfold bind at 1. unfold Jsonl.lift. rewrite Hr.
    apply returns_for_each. apply Forall_forall. intros c _. apply Hchunk.
  - intros u s. destruct (bool_decide _); [|eexists; reflexivity].
    apply returns_bind; [apply returns_modify|]. intros u' s'. apply Hsend.
Qed.


(** ** Oversized records *)

Lemma state_oversized_step (sink : sink_t) a fa chunk g :
  State.MAX_BATCH_TOKENS < State.approx_tokens (Py.get chunk "content" "") ->
  calls (State.w (State.chunk_step sink a fa chunk g))
  = calls (State.w g)
    ++ (if State.current_batch g is [] then [] else [State.current_batch g])
    ++ [[State.properties_of chunk a fa]]
  /\ State.current_batch (State.chunk_step sink a fa chunk g) = [].
Proof.
  intros Hbig. unfold State.chunk_step.
  apply Z.ltb_lt in Hbig. rewrite Hbig.
  set (props := State.properties_of chunk a fa).
  set (g0 := State.Globals _ (State.total_chunks_processed g + 1) _ _ _ _ _).
  assert (Hcb0 : State.current_batch g0 = State.current_batch g) by reflexivity.
  assert (Hw0 : State.w g0 = State.w g) by reflexivity.
  destruct (bool_decide (State.current_batch g0 <> [])) eqn:Hne.
  - apply bool_decide_eq_true in Hne.
    set (g1 := State.set_batch [] 0 _).
    destruct (send_batch_effect sink [props] g1) as (Hc & _ & _ & Hcb & _).
    rewrite Hc, Hcb.
    destruct (send_batch_effect sink (State.current_batch g0) g0) as (Hc0 & _).
    assert (Hw1 : State.w g1
                  = State.w (State.send_batch sink (State.current_batch g0) g0))
      by reflexivity.
    rewrite Hw1, Hc0, Hw0, Hcb0. rewrite Hcb0 in Hne.
    destruct (State.current_batch g); [congruence|].
    rewrite <- app_assoc. split; reflexivity.
  - apply bool_decide_eq_false in Hne.
    destruct (send_batch_effect sink [props] g0) as (Hc & _ & _ & Hcb & _).
    rewrite Hc, Hcb, Hw0, Hcb0. rewrite Hcb0 in Hne.
    destruct (State.current_batch g); [|exfalso; apply Hne; discriminate].
    split; reflexivity.
Qed.

(** C2. A record whose weight exceeds the limit is handed to the database
    alone, after the pending batch when there is one, which is handed over
    as it stands.  In [process_document] of [mx/addToCollection.py], for a
    file whose paragraphs are [pre], the oversized [p], then [post]: the
    bulk inserts that follow those made for [pre] are the pending batch (in
    one or two attempts), then the object of [p] alone (in one or two
    attempts).  In the script [us/state/batchAddStateCollection.py], from
    any state: the step of an oversized chunk makes the bulk insert of the
    pending batch, when it is not empty, then the bulk insert of the chunk
    alone, and leaves the batch empty.  In the scenario, under the limit of
    120000, the bulk inserts are one of weight 30000, then one of weight
    130000. *)
Theorem oversized_record_flushed_alone (sink : sink_t) :
  (forall file data w0 pre p post,
     default [] (Mx.paragraphs_by_bold data) = pre ++ p :: post ->
     Mx.MAX_BATCH_TOKENS < Mx.approx_tokens (Py.get p "content" "") ->
     let dn := default "" (Mx.name data) in
     let dt := default "" (Mx.Tipo data) in
     let oc := default false (Mx.onlyContent data) in
     let st := foldl (Mx.step sink dn dt oc file) (Mx.Locals 0 0 [] 0, w0) pre in
     let pending := Mx.obj <$> Mx.current_batch st.1 in
     let o := (Mx.create_chunk_object p dn dt oc).1.1 in
     exists n1 n2 rest,
       (n1 = 1 \/ n1 = 2)%nat /\ (n2 = 1 \/ n2 = 2)%nat
       /\ calls (Mx.process_document sink file data w0).2
          = calls st.2
            ++ (if pending is [] then [] else replicate n1 pending)
            ++ replicate n2 [o] ++ rest)
  /\ (forall a fa chunk g,
        State.MAX_BATCH_TOKENS < State.approx_tokens (Py.get chunk "content" "") ->
        calls (State.w (State.chunk_step sink a fa chunk g))
        = calls (State.w g)
          ++ (if State.current_batch g is [] then [] else [State.current_batch g])
          ++ [[State.properties_of chunk a fa]]
        /\ State.current_batch (State.chunk_step sink a fa chunk g) = [])
  /\ Mx.MAX_BATCH_TOKENS = 120000
  /\ shape (calls (Mx.process_document sink_accepts "ley.json" doc_oversized
                                       world0).2)
     = [(1%nat, 30000); (1%nat, 130000)].
Proof.
  split; [|split; [|split]].
  - intros file data w0 pre p post Hps Hbig dn dt oc st pending o.
    pose proof (mx_inv_loop sink w0 dn dt oc file pre 0 _ (mx_inv_init w0))
      as Hinv.
    destruct (mx_oversized_step sink dn dt oc file w0 _ st p post Hinv Hbig)
      as (n1 & n2 & rest & Hn1 & Hn2 & Hcalls).
    exists n1, n2, rest. split; [assumption|]. split; [assumption|].
    etransitivity; [|exact Hcalls].
    unfold Mx.process_document, mx_finish.
    rewrite Hps, foldl_app. reflexivity.
  - intros a fa chunk g. apply state_oversized_step.
  - reflexivity.
  - vm_compute. reflexivity.
Qed.

Lemma oversized_record_flushed_alone_witness :
  Mx.MAX_BATCH_TOKENS
    < Mx.approx_tokens (Py.get (chunk_of_size 520000) "content" "")
  /\ let sink := sink_raises "timeout" in
     let dn := default "" (Mx.name doc_oversized) in
     let dt := default "" (Mx.Tipo doc_oversized) in
     let oc := default false (Mx.onlyContent doc_oversized) in
     let st := foldl (Mx.step sink dn dt oc "ley.json")
                     (Mx.Locals 0 0 [] 0, world0) [chunk_of_size 120000] in
     let pending := Mx.obj <$> Mx.current_batch st.1 in
     let o := (Mx.create_chunk_object (chunk_of_size 520000) dn dt oc).1.1 in
     exists n1 n2 rest,
       (n1 = 1 \/ n1 = 2)%nat /\ (n2 = 1 \/ n2 = 2)%nat
       /\ calls (Mx.process_document sink "ley.json" doc_oversized world0).2
          = calls st.2
            ++ (if pending is [] then [] else replicate n1 pending)
            ++ replicate n2 [o] ++ rest.
Proof.
  assert (Hbig : Mx.MAX_BATCH_TOKENS
                 < Mx.approx_tokens (Py.get (chunk_of_size 520000) "content" ""))
    by (vm_compute; reflexivity).
  split; [exact Hbig|].
  exact (proj1 (oversized_record_flushed_alone (sink_raises "timeout"))
           "ley.json" doc_oversized world0
           [chunk_of_size 120000] (chunk_of_size 520000) []
           eq_refl Hbig).
Defined.


(** ** Failures of the bulk insert *)

Lemma error_info_fields msg item :
  jfield "error" (Mx.error_info msg item) = Some (JStr msg)
  /\ jfield "chunk" (Mx.error_info msg item)
     = Some (json_of_dict (Mx.paragraph item))
  /\ jfield "file" (Mx.error_info msg item) = Some (JStr (Mx.file_name item))
  /\ jfield "batch_number" (Mx.error_info msg item) = None.
Proof. repeat split. Qed.

Lemma failed_entry_fields msg bn o :
  jfield "error" (State.failed_entry msg bn o) = Some (JStr msg)
  /\ jfield "properties" (State.failed_entry msg bn o) = Some o
  /\ jfield "batch_number" (State.failed_entry msg bn o) = Some (JInt bn).
Proof. repeat split. Qed.





(** ** The disk space error *)

(** The test looks for the two patterns in the lower-cased message. *)
Lemma disk_error_examples :
  StateOld.disk_error "Disk usage too HIGH on node-1" = true
  /\ StateOld.disk_error "store is read-only" = true
  /\ StateOld.disk_error "connection timed out" = false.
Proof. repeat split. Qed.

(** The claim C5 fails on [us/state/batchAddStateCollection.py]: with a
    database in which every insert raises the disk space error, the script
    hands over the first batch, logs it, hands over the second batch, logs
    it, and ends normally. *)
Lemma disk_error_not_fatal_counterexample :
  StateOld.disk_error "disk usage too high" = true
  /\ (let r := State.run (sink_raises "disk usage too high")
                         lines_two_batches (State.globals0 world0) in
      r.1 = Ret tt
      /\ shape (calls (State.w r.2)) = [(1%nat, 70000); (1%nat, 70000)]
      /\ length (flog (State.w r.2)) = 2%nat
      /\ State.total_failed r.2 = 2).
Proof. vm_compute. repeat split. Qed.

(** C5, amended.  In [old/batchAddStateCollectionOllamaV2.py] an exception
    of the bulk insert whose lower-cased message contains
    ["disk usage too high"] or ["read-only"] ends the run at once:
    [send_batch_to_weaviate] adds the size of the batch to the failed
    count, writes nothing to the failure log and raises the exception
    again; [process_jsonl_file] lets it through, so that in every run a
    bulk insert that raised such a message is the last bulk insert of the
    run and the run ends with that exception.  The script
    [us/state/batchAddStateCollection.py] has no such test: whatever the
    message, [send_batch] logs the objects of the batch and returns. *)
Theorem disk_error_aborts_old_loader (sink : sink_t) :
  (forall objs bn ct s msg,
     objs <> [] ->
     sink (calls (StateOld.w s)) objs = Raises msg ->
     StateOld.disk_error msg = true ->
     StateOld.send_batch_to_weaviate sink objs bn ct s
     = (Exc (Exception msg),
        StateOld.St (World (calls (StateOld.w s) ++ [objs])
                           (flog (StateOld.w s)) (sleeps (StateOld.w s)))
                    (StateOld.processed s) (StateOld.imported s)
                    (StateOld.failed s + Z.of_nat (length objs))
                    (StateOld.batches s) (StateOld.objects s)
                    (StateOld.tokens s)))
  /\ (forall lines doc max_tokens w0 hist objs rest msg,
        calls (StateOld.w
                 (StateOld.process_jsonl_file sink lines doc max_tokens w0).2)
        = hist ++ objs :: rest ->
        (length (calls w0) <= length hist)%nat ->
        sink hist objs = Raises msg ->
        StateOld.disk_error msg = true ->
        rest = []
        /\ (StateOld.process_jsonl_file sink lines doc max_tokens w0).1
           = Exc (Exception msg))
  /\ (forall objs g msg,
        objs <> [] ->
        sink (calls (State.w g)) objs = Raises msg ->
        flog (State.w (State.send_batch sink objs g))
        = flog (State.w g)
          ++ (State.failed_entry msg (State.total_batches g + 1) <$> objs)).
Proof.
  split; [|split].
  - intros objs bn ct s msg Hne Hs Hd.
    rewrite send_batch_to_weaviate_cases by assumption. cbv zeta.
    rewrite Hs, Hd. reflexivity.
  - intros lines doc max_tokens w0 hist objs rest msg Hcalls Hk Hs Hd.
    pose proof (old_run_summary sink lines doc max_tokens w0) as H.
    destruct (StateOld.process_jsonl_file sink lines doc max_tokens w0)
      as [[[]|e] s]; simpl in *.
    + destruct H as [_ Hsafe _ _ _].
      specialize (Hsafe hist objs rest msg Hcalls Hk Hs). congruence.
    + destruct H as [_ [Hsafe | (h' & o' & m' & Hc' & Hk' & Hsafe' & Hs' & Hd' & ->)]].
      * specialize (Hsafe hist objs rest msg Hcalls Hk Hs). congruence.
      * rewrite Hc' in Hcalls.
        destruct rest as [|x rest _] using rev_ind.
        -- apply app_inj_tail in Hcalls as [-> ->].
           split; [reflexivity|]. congruence.
        -- rewrite app_comm_cons, app_assoc in Hcalls.
           apply app_inj_tail in Hcalls as [Hh _].
           specialize (Hsafe' hist objs rest msg Hh Hk Hs). congruence.
  - intros objs g msg Hne Hs.
    rewrite send_batch_cases by assumption. cbv zeta. rewrite Hs. reflexivity.
Qed.

Lemma disk_error_aborts_old_loader_witness :
  (five_objects <> []
   /\ StateOld.disk_error "store is read-only" = true
   /\ StateOld.send_batch_to_weaviate (sink_raises "store is read-only")
        five_objects 1 14 (StateOld.state0 world0)
      = (Exc (Exception "store is read-only"),
         StateOld.St (World [five_objects] [] []) 0 0 5 0 [] 0))
  /\ (exists objs,
        calls (StateOld.w
                 (StateOld.process_jsonl_file (sink_raises "store is read-only")
                    lines_ok "doc" 136000 world0).2)
        = [] ++ objs :: []
        /\ (StateOld.process_jsonl_file (sink_raises "store is read-only")
              lines_ok "doc" 136000 world0).1
           = Exc (Exception "store is read-only")).
Proof.
  split.
  - split; [discriminate|]. split; [reflexivity|].
    exact (proj1 (disk_error_aborts_old_loader (sink_raises "store is read-only"))
             five_objects 1 14 (StateOld.state0 world0) "store is read-only"
             ltac:(discriminate) eq_refl eq_refl).
  - eexists. split; [vm_compute; reflexivity|].
    eapply (proj1 (proj2 (disk_error_aborts_old_loader
                            (sink_raises "store is read-only")))
              lines_ok "doc" 136000 world0 []).
    + vm_compute. reflexivity.
    + simpl. lia.
    + reflexivity.
    + reflexivity.
Defined.


(** ** Partial failures *)

Lemma rejected_entry_fields bn f :
  jfield "error" (StateOld.rejected_entry bn f) = Some (JStr (message f))
  /\ jfield "properties" (StateOld.rejected_entry bn f)
     = Some (default JNone (object_ f))
  /\ jfield "batch_number" (StateOld.rejected_entry bn f) = Some (JInt bn).
Proof. repeat split. Qed.

(** The claim C6 fails on [us/state/batchAddStateCollection.py]: when the
    database accepts a batch of five objects and reports the first one as
    failed, the script counts five imported objects and no failed one, and
    writes nothing to the failure log. *)
Lemma partial_failure_ignored_counterexample :
  sink_rejects_first "vectorizer error" [] five_objects
  = Accepted [FailedObject "vectorizer error" (head five_objects)]
  /\ (let g := State.send_batch (sink_rejects_first "vectorizer error")
                                five_objects (State.globals0 world0) in
      State.total_chunks_imported g = 5
      /\ State.total_failed g = 0
      /\ flog (State.w g) = []).
Proof. vm_compute. repeat split. Qed.

(** C6, amended.  In [old/batchAddStateCollectionOllamaV2.py], when the bulk
    insert of a batch of [n] objects returns and [failed_objects] holds
    [k > 0] entries, [send_batch_to_weaviate] makes no second bulk insert;
    it writes one entry per failed object to the failure log, with the
    message of that object, its properties and the number of the batch;
    the failed count grows by [k] and the imported count by [n - k].  The
    script [us/state/batchAddStateCollection.py] does not read
    [failed_objects]: when the bulk insert returns, all [n] objects count
    as imported and nothing is logged. *)
Theorem partial_failure_logged_per_record (sink : sink_t) :
  (forall objs bn ct s f fs,
     objs <> [] ->
     sink (calls (StateOld.w s)) objs = Accepted (f :: fs) ->
     let n := Z.of_nat (length objs) in
     let k := Z.of_nat (length (f :: fs)) in
     StateOld.send_batch_to_weaviate sink objs bn ct s
     = (Ret tt,
        StateOld.St
          (World (calls (StateOld.w s) ++ [objs])
                 (flog (StateOld.w s)
                    ++ (StateOld.rejected_entry bn <$> f :: fs))
                 (sleeps (StateOld.w s)))
          (StateOld.processed s) (StateOld.imported s + (n - k))
          (StateOld.failed s + k)
          (StateOld.batches s) (StateOld.objects s) (StateOld.tokens s)))
  /\ (forall bn f,
        jfield "error" (StateOld.rejected_entry bn f) = Some (JStr (message f))
        /\ jfield "batch_number" (StateOld.rejected_entry bn f)
           = Some (JInt bn))
  /\ (forall objs g rejected,
        objs <> [] ->
        sink (calls (State.w g)) objs = Accepted rejected ->
        State.send_batch sink objs g
        = State.Globals
            (World (calls (State.w g) ++ [objs]) (flog (State.w g))
                   (sleeps (State.w g)))
            (State.total_chunks_processed g)
            (State.total_chunks_imported g + Z.of_nat (length objs))
            (State.total_failed g) (State.total_batches g + 1)
            (State.current_batch g) (State.current_batch_tokens g)).
Proof.
  split; [|split].
  - intros objs bn ct s f fs Hne Hs n k.
    rewrite send_batch_to_weaviate_cases by assumption. cbv zeta.
    rewrite Hs. reflexivity.
  - intros bn f. split; reflexivity.
  - intros objs g rejected Hne Hs.
    rewrite send_batch_cases by assumption. cbv zeta. rewrite Hs. reflexivity.
Qed.

Lemma partial_failure_logged_per_record_witness :
  five_objects <> []
  /\ StateOld.send_batch_to_weaviate (sink_rejects_first "vectorizer error")
       five_objects 3 14 (StateOld.state0 world0)
     = (Ret tt,
        StateOld.St
          (World [five_objects]
                 [StateOld.rejected_entry 3
                    (FailedObject "vectorizer error" (head five_objects))]
                 [])
          0 4 1 0 [] 0)
  /\ State.send_batch (sink_rejects_first "vectorizer error") five_objects
                      (State.globals0 world0)
     = State.Globals (World [five_objects] [] []) 0 5 0 1 [] 0.
Proof.
  split; [discriminate|]. split.
  - exact (proj1 (partial_failure_logged_per_record
                    (sink_rejects_first "vectorizer error"))
             five_objects 3 14 (StateOld.state0 world0)
             (FailedObject "vectorizer error" (head five_objects)) []
             ltac:(discriminate) eq_refl).
  - exact (proj2 (proj2 (partial_failure_logged_per_record
                           (sink_rejects_first "vectorizer error")))
             five_objects (State.globals0 world0)
             [FailedObject "vectorizer error" (head five_objects)]
             ltac:(discriminate) eq_refl).
Defined.


(** ** The two-phase loaders *)

Lemma enumerate_snoc {A} (l : list A) (a : A) :
  enumerate (l ++ [a]) = enumerate l ++ [(length l, a)].
Proof.
  unfold enumerate. rewrite length_app. simpl.
  rewrite seq_app. simpl.
  rewrite zip_with_app by now rewrite length_seq.
  reflexivity.
Qed.

Section MxPopulateFacts.
Variable uuid : Type.
Variable new_uuid : nat -> uuid.
Variables (tipo doc : string).

(** Step 1, after the articles [l]. *)
Lemma step1_summary (l : list MxPopulate.article_data) :
  let s := foldl (MxPopulate.article_step uuid new_uuid doc)
                 (MxPopulate.Step1 uuid [] ∅ 0 0) (enumerate l) in
  ((fun b => jfield "content" (properties b)) <$> MxPopulate.article_batch uuid s)
  = ((fun a => Some (JStr (default "" (MxPopulate.full_content a))))
       <$> kept l)
  /\ Forall (fun b => source_article b = None) (MxPopulate.article_batch uuid s)
  /\ (forall i a, l !! i = Some a ->
        MxPopulate.article_uuids uuid s !! i = Some (parent_uuid new_uuid l i a))
  /\ MxPopulate.inserted_articles uuid s = Z.of_nat (length (kept l))
  /\ MxPopulate.skipped_articles uuid s
     = Z.of_nat (length l) - Z.of_nat (length (kept l)).
Proof.
  induction l as [|a l IH] using rev_ind.
  - simpl. repeat split; try constructor. intros i a Hi. discriminate.
  - rewrite enumerate_snoc, foldl_app. cbn [foldl].
    cbv zeta in IH. set (s := foldl _ _ (enumerate l)) in *.
    destruct IH as (Hb & Hr & Hu & Hi & Hs).
    assert (Hlen : length (MxPopulate.article_batch uuid s) = length (kept l)).
    { apply (f_equal length) in Hb. now rewrite !length_fmap in Hb. }
    assert (Hold : forall i b, l !! i = Some b ->
              parent_uuid new_uuid (l ++ [a]) i b = parent_uuid new_uuid l i b).
    { intros i b Hb'. unfold parent_uuid.
      apply lookup_lt_Some in Hb'.
      rewrite take_app_le by lia. reflexivity. }
    unfold kept in *. rewrite filter_app, length_app, length_app.
    unfold MxPopulate.article_step. fold (blank a).
    assert (Hblank : Py.truthy (Py.strip (default "" (MxPopulate.full_content a)))
                     = negb (blank a))
      by (unfold blank; now rewrite negb_involutive).
    rewrite Hblank.
    destruct (blank a) eqn:Ha; cbv zeta; simpl negb; cbv iota.
    + (* a blank article: skipped, [None] under its index *)
      rewrite filter_cons_False by (rewrite Ha; discriminate).
      rewrite filter_nil, app_nil_r. simpl.
      repeat split; try assumption; try lia.
      intros i b Hib. destruct (decide (i = length l)) as [->|Hne].
      * rewrite lookup_insert_eq.
        rewrite list_lookup_middle in Hib by reflexivity.
        injection Hib as <-. unfold parent_uuid. now rewrite Ha.
      * rewrite lookup_insert_ne by congruence.
        assert (Hlt : (i < length l)%nat).
        { apply lookup_lt_Some in Hib. rewrite length_app in Hib.
          simpl in Hib. lia. }
        rewrite lookup_app_l in Hib by assumption.
        rewrite Hold by assumption. auto.
    + (* an article with content: added, its identifier under its index *)
      rewrite filter_cons_True by assumption.
      rewrite filter_nil. simpl.
      repeat split; try lia.
      * rewrite !fmap_app, Hb. reflexivity.
      * apply Forall_app. split; [assumption | repeat constructor].
      * intros i b Hib. destruct (decide (i = length l)) as [->|Hne].
        -- rewrite lookup_insert_eq.
           rewrite list_lookup_middle in Hib by reflexivity.
           injection Hib as <-. unfold parent_uuid, kept.
           rewrite Ha, take_app_length, Hlen. reflexivity.
        -- rewrite lookup_insert_ne by congruence.
           assert (Hlt : (i < length l)%nat).
           { apply lookup_lt_Some in Hib. rewrite length_app in Hib.
             simpl in Hib. lia. }
           rewrite lookup_app_l in Hib by assumption.
           rewrite Hold by assumption. auto.
Qed.

Lemma chunk_steps u cs : forall s,
  let s' := foldl (MxPopulate.chunk_step uuid tipo doc u) s cs in
  MxPopulate.chunk_batch uuid s'
  = MxPopulate.chunk_batch uuid s
    ++ ((fun c => BatchObject (MxPopulate.chunk_properties tipo doc c) u) <$> cs)
  /\ MxPopulate.chunk_count uuid s'
     = MxPopulate.chunk_count uuid s + Z.of_nat (length cs).
Proof.
  induction cs as [|c cs IH]; intros s; simpl.
  - rewrite app_nil_r. split; [reflexivity | lia].
  - destruct (IH (MxPopulate.chunk_step uuid tipo doc u s c)) as [Hb Hc].
    cbv zeta in Hb, Hc. rewrite Hb, Hc.
    unfold MxPopulate.chunk_step. destruct u; simpl;
      rewrite <- app_assoc; split; (reflexivity || lia).
Qed.

(** Step 2, after the articles [l], with the identifiers of step 1. *)
Lemma step2_summary (uuids : gmap nat (option uuid))
    (expected : nat -> MxPopulate.article_data -> option uuid)
    (l : list MxPopulate.article_data) :
  (forall i a, l !! i = Some a -> uuids !! i = Some (expected i a)) ->
  let s := foldl (MxPopulate.chunks_of_article uuid tipo doc uuids)
                 (MxPopulate.Step2 uuid [] 0 0 0) (enumerate l) in
  MxPopulate.chunk_batch uuid s
  = flat_map (fun ia =>
                (fun c => BatchObject (MxPopulate.chunk_properties tipo doc c)
                                      (expected ia.1 ia.2))
                  <$> default [] (MxPopulate.sub_chunks ia.2))
             (enumerate l)
  /\ MxPopulate.chunk_count uuid s
     = Z.of_nat (length (flat_map (fun a => default [] (MxPopulate.sub_chunks a)) l)).
Proof.
  induction l as [|a l IH] using rev_ind; intros Hu.
  - simpl. split; reflexivity.
  - rewrite enumerate_snoc, foldl_app. cbn [foldl].
    assert (Hu' : forall i b, l !! i = Some b -> uuids !! i = Some (expected i b)).
    { intros i b Hib. apply Hu. rewrite lookup_app_l; [assumption|].
      now apply lookup_lt_Some in Hib. }
    specialize (IH Hu'). cbv zeta in IH.
    set (s := foldl _ _ (enumerate l)) in *. destruct IH as [Hb Hc].
    rewrite !flat_map_app, length_app. simpl. rewrite !app_nil_r.
    unfold MxPopulate.chunks_of_article.
    rewrite (Hu (length l) a) by (apply list_lookup_middle; reflexivity).
    simpl mjoin.
    destruct (chunk_steps (expected (length l) a)
                (default [] (MxPopulate.sub_chunks a)) s) as [Hb' Hc'].
    cbv zeta in Hb', Hc'.
    destruct (default [] (MxPopulate.sub_chunks a)) as [|c cs] eqn:Hcs.
    + simpl. rewrite app_nil_r. split; [assumption | lia].
    + cbv beta iota. cbn [foldl] in Hb', Hc'.
      rewrite Hb', Hc', Hb, Hc. split; [reflexivity | lia].
Qed.

End MxPopulateFacts.

Section FederalFacts.
Variable uuid : Type.
Variable new_uuid : nat -> uuid.
Variable doc : string.

Lemma federal_article_step a k :
  triple (fun s => length (Federal.article_batch uuid s) = k
                   /\ Federal.chunk_batch uuid s = [])
         (Federal.article_step uuid new_uuid doc a)
         (fun _ s => length (Federal.article_batch uuid s) = S k
                     /\ Federal.chunk_batch uuid s = [])
         (fun _ s => Forall has_reference (Federal.chunk_batch uuid s)).
Proof.
  intros s [Hl Hc]. unfold Federal.article_step, Federal.field, bind.
  destruct (Federal.full_content a); simpl; [|rewrite Hc; constructor].
  destruct (Federal.article_name a); simpl; [|rewrite Hc; constructor].
  rewrite length_app. simpl. split; [lia | assumption].
Qed.

Lemma federal_chunk_step name u c k :
  triple (fun s => length (Federal.article_batch uuid s) = k
                   /\ Forall has_reference (Federal.chunk_batch uuid s))
         (Federal.chunk_step uuid doc name u c)
         (fun _ s => length (Federal.article_batch uuid s) = k
                     /\ Forall has_reference (Federal.chunk_batch uuid s))
         (fun _ s => Forall has_reference (Federal.chunk_batch uuid s)).
Proof.
  intros s [Hl Hc]. unfold Federal.chunk_step, Federal.item, bind.
  destruct (Py.lookup "content" c); simpl; [|assumption].
  destruct (Py.lookup "start_offset" c); simpl; [|assumption].
  split; [assumption|]. apply Forall_app. split; [assumption|].
  constructor; [|constructor]. unfold has_reference. simpl. eauto.
Qed.

Lemma federal_chunks_of_article a k :
  triple (fun s => length (Federal.article_batch uuid s) = k
                   /\ Forall has_reference (Federal.chunk_batch uuid s))
         (Federal.chunks_of_article uuid doc a)
         (fun _ s => length (Federal.article_batch uuid s) = k
                     /\ Forall has_reference (Federal.chunk_batch uuid s))
         (fun _ s => Forall has_reference (Federal.chunk_batch uuid s)).
Proof.
  unfold Federal.chunks_of_article.
  eapply triple_bind with
    (R := fun _ s => length (Federal.article_batch uuid s) = k
                     /\ Forall has_reference (Federal.chunk_batch uuid s)).
  { intros s [Hl Hc]. unfold Federal.field.
    destruct (Federal.article_name a); simpl; auto. }
  intros name.
  eapply triple_bind with
    (R := fun _ s => length (Federal.article_batch uuid s) = k
                     /\ Forall has_reference (Federal.chunk_batch uuid s)).
  { intros s [Hl Hc].
    destruct (Federal.article_uuids uuid s !! name); simpl; auto. }
  intros u.
  eapply triple_conseq;
    [apply (triple_for_each
              (fun _ s => length (Federal.article_batch uuid s) = k
                          /\ Forall has_reference (Federal.chunk_batch uuid s))
              (Federal.chunk_step uuid doc name u)
              (fun _ s => Forall has_reference (Federal.chunk_batch uuid s))
              (default [] (Federal.sub_chunks a))
              (fun _ c => federal_chunk_step name u c k) [])
    | auto | auto | auto].
Qed.

(** The federal loader adds every article and gives every chunk a
    reference. *)
Lemma federal_summary (articles_data : list Federal.article_data) :
  match Federal.populate_collections_batch uuid new_uuid doc articles_data with
  | (Ret _, s) =>
      length (Federal.article_batch uuid s) = length articles_data
      /\ Forall has_reference (Federal.chunk_batch uuid s)
  | (Exc _, s) => Forall has_reference (Federal.chunk_batch uuid s)
  end.
Proof.
  unfold Federal.populate_collections_batch.
  assert (H : triple
                (fun s => length (Federal.article_batch uuid s) = 0%nat
                          /\ Federal.chunk_batch uuid s = [])
                (for_each articles_data (Federal.article_step uuid new_uuid doc) ;;;
                 for_each articles_data (Federal.chunks_of_article uuid doc))
                (fun _ s =>
                   length (Federal.article_batch uuid s) = length articles_data
                   /\ Forall has_reference (Federal.chunk_batch uuid s))
                (fun _ s => Forall has_reference (Federal.chunk_batch uuid s))).
  { eapply triple_bind.
    - assert (Hbody : forall pre a,
        triple (fun s => length (Federal.article_batch uuid s) = length pre
                         /\ Federal.chunk_batch uuid s = [])
               (Federal.article_step uuid new_uuid doc a)
               (fun _ s => length (Federal.article_batch uuid s)
                           = length (pre ++ [a])
                           /\ Federal.chunk_batch uuid s = [])
               (fun _ s => Forall has_reference (Federal.chunk_batch uuid s))).
      { intros pre a. eapply triple_conseq;
          [apply (federal_article_step a (length pre)) | auto | | auto].
        intros u s [Hl Hc]. rewrite length_app. simpl.
        split; [lia | assumption]. }
      apply (triple_for_each
               (fun pre s => length (Federal.article_batch uuid s) = length pre
                             /\ Federal.chunk_batch uuid s = [])
               (Federal.article_step uuid new_uuid doc)
               (fun _ s => Forall has_reference (Federal.chunk_batch uuid s))
               articles_data Hbody []).
    - intros u. simpl.
      eapply triple_conseq;
        [apply (triple_for_each
                  (fun _ s => length (Federal.article_batch uuid s)
                              = length articles_data
                              /\ Forall has_reference (Federal.chunk_batch uuid s))
                  (Federal.chunks_of_article uuid doc)
                  (fun _ s => Forall has_reference (Federal.chunk_batch uuid s))
                  articles_data
                  (fun _ a => federal_chunks_of_article a (length articles_data))
                  [])
        | | auto | auto].
      intros s [Hl Hc]. split; [assumption|]. rewrite Hc. constructor. }
  specialize (H (Federal.St uuid [] ∅ [] 0) (conj eq_refl eq_refl)).
  destruct (bind _ _ (Federal.St uuid [] ∅ [] 0)) as [[[]|e] s]; exact H.
Qed.

End FederalFacts.


(** ** The extraction of the parents *)

Lemma insert_by_perm {A} (x : Z * A) l : Py.insert_by x l ≡ₚ x :: l.
Proof.
  induction l as [|y l IH]; simpl; [reflexivity|].
  destruct (x.1 <=? y.1); [reflexivity|].
  rewrite IH. apply Permutation_swap.
Qed.

(** The sort puts the same elements in another order. *)
Lemma sort_by_perm {A} (l : list (Z * A)) : Py.sort_by l ≡ₚ l.
Proof.
  induction l as [|x l IH]; simpl; [reflexivity|].
  rewrite insert_by_perm. now rewrite IH.
Qed.

Lemma insert_by_sorted {A} (x : Z * A) l :
  StronglySorted key_le l -> StronglySorted key_le (Py.insert_by x l).
Proof.
  induction l as [|y l IH]; intros Hs; simpl.
  - repeat constructor.
  - inversion Hs as [|? ? Hs' Hall]; subst.
    destruct (x.1 <=? y.1) eqn:Hxy.
    + apply Z.leb_le in Hxy. constructor; [assumption|].
      constructor; [exact Hxy|].
      eapply Forall_impl; [exact Hall|]. unfold key_le. intros z Hz. lia.
    + apply Z.leb_gt in Hxy. constructor; [auto|].
      rewrite insert_by_perm. constructor; [unfold key_le; lia | assumption].
Qed.

(** The sort puts the sort keys in increasing order. *)
Lemma sort_by_sorted {A} (l : list (Z * A)) : StronglySorted key_le (Py.sort_by l).
Proof.
  induction l as [|x l IH]; simpl; [constructor|].
  now apply insert_by_sorted.
Qed.

(** Elements with the same sort key keep their order: an element stays in
    front of the later elements whose key is not smaller. *)
Lemma insert_by_stable {A} (x : Z * A) l :
  Forall (fun y => x.1 <= y.1) l -> Py.insert_by x l = x :: l.
Proof.
  destruct l as [|y l]; intros H; simpl; [reflexivity|].
  inversion H; subst.
  destruct (x.1 <=? y.1) eqn:Hxy; [reflexivity|].
  apply Z.leb_gt in Hxy. lia.
Qed.

Lemma with_keys_names l kl :
  Jsonl.with_keys l = Ret kl -> kl.*2 = l.
Proof.
  revert kl. induction l as [|x l IH]; intros kl H; simpl in H.
  - now inversion H.
  - destruct (Jsonl.sort_key x); [|discriminate].
    destruct (Jsonl.with_keys l) as [t|]; [|discriminate].
    inversion H; subst. simpl. f_equal. now apply IH.
Qed.

Lemma lookup_member {V} k (d : list (string * V)) :
  k ∈ Py.keys d -> exists v, Py.lookup k d = Some v.
Proof.
  induction d as [|[k' v'] d IH]; intros Hin; simpl.
  - inversion Hin.
  - destruct (String.eqb k k') eqn:Hk; [eauto|].
    apply IH. unfold Py.keys in Hin. simpl in Hin.
    apply elem_of_cons in Hin as [->|Hin]; [|assumption].
    rewrite String.eqb_refl in Hk. discriminate.
Qed.

(** [data[k]] for keys of the line never raises. *)
Lemma items_of_members d ks :
  Forall (fun k => k ∈ Py.keys (Jsonl.members d)) ks ->
  Jsonl.items d ks
  = Ret ((fun k => Py.get (Jsonl.members d) k "") <$> ks).
Proof.
  induction ks as [|k ks IH]; intros H; simpl; [reflexivity|].
  inversion H as [|? ? Hk Hks]; subst.
  destruct (lookup_member k _ Hk) as [v Hv].
  unfold Py.get. rewrite Hv, (IH Hks). reflexivity.
Qed.

(** What the extraction returns when every parent key has a number: with
    the parent keys sorted by their number, the article is the value of the
    last key and [fromArticle] holds the values of all the keys but the
    first. *)
Lemma extract_parent_info_sorted d kl :
  Jsonl.with_keys (parent_candidates d) = Ret kl ->
  let sorted := (Py.sort_by kl).*2 in
  StronglySorted key_le (Py.sort_by kl)
  /\ sorted ≡ₚ parent_candidates d
  /\ StateOld.extract_parent_info d
     = Ret (match last sorted with
            | Some k => Py.get (Jsonl.members d) k ""
            | None => ""
            end,
            (fun k => Py.get (Jsonl.members d) k "") <$> tail sorted).
Proof.
  intros Hkl sorted.
  assert (Hperm : sorted ≡ₚ parent_candidates d).
  { unfold sorted. rewrite sort_by_perm. now rewrite (with_keys_names _ _ Hkl). }
  split; [apply sort_by_sorted|]. split; [exact Hperm|].
  unfold StateOld.extract_parent_info, Jsonl.parent_keys.
  fold (parent_candidates d). rewrite Hkl. fold sorted.
  unfold Jsonl.article_and_from.
  assert (Hin : Forall (fun k => k ∈ Py.keys (Jsonl.members d)) (tail sorted)).
  { apply Forall_forall. intros k Hk.
    assert (Hk' : k ∈ sorted).
    { destruct sorted; [inversion Hk | now apply elem_of_cons; right]. }
    rewrite Hperm in Hk'. unfold parent_candidates in Hk'.
    apply list_elem_of_filter in Hk' as [_ Hk']. exact Hk'. }
  rewrite (items_of_members d _ Hin).
  destruct (1 <? length sorted)%nat eqn:Hlen; [reflexivity|].
  apply Nat.ltb_ge in Hlen.
  destruct sorted as [|k [|k' r]]; simpl in *; try reflexivity; lia.
Qed.

(** A line without parent keys gives an empty article and an empty
    [fromArticle], and nothing is raised. *)
Lemma extract_parent_info_no_parent d :
  parent_candidates d = [] -> StateOld.extract_parent_info d = Ret ("", []).
Proof.
  intros H. unfold StateOld.extract_parent_info, Jsonl.parent_keys.
  fold (parent_candidates d). rewrite H. reflexivity.
Qed.

(** The order is that of the numbers: [parent_10] comes after [parent_9],
    and, when [parent_0] is there, [fromArticle] holds the values of
    [parent_1] to [parent_10]. *)
Lemma extract_parent_info_eleven :
  Jsonl.parent_keys line_eleven_parents
  = Ret ["parent_0"; "parent_1"; "parent_2"; "parent_3"; "parent_4";
         "parent_5"; "parent_6"; "parent_7"; "parent_8"; "parent_9";
         "parent_10"]
  /\ StateOld.extract_parent_info line_eleven_parents
     = Ret ("v10", ["v1"; "v2"; "v3"; "v4"; "v5"; "v6"; "v7"; "v8"; "v9"; "v10"]).
Proof. vm_compute. split; reflexivity. Qed.

(** A parent key without a number stops the extraction with [ValueError]. *)
Lemma extract_parent_info_bad_key :
  StateOld.extract_parent_info line_bad_parent = Exc ValueError.
Proof. reflexivity. Qed.

(** C10, at an input where the code departs from it.  The line has the
    parents [parent_1] and [parent_2] and no [parent_0].  The keys are
    sorted by their number and the article is the value of [parent_2], as
    claimed; but [fromArticle], claimed to hold the values of [parent_1]
    to [parent_2], holds the value of [parent_2] only: the code drops the
    first key of the sorted list, which its comment takes to be
    [parent_0].  The same holds in the two loaders, up to the objects that
    they hand over. *)
Theorem parent_extraction_drops_lowest_parent :
  Jsonl.parent_keys line_without_parent_0 = Ret ["parent_1"; "parent_2"]
  /\ StateOld.extract_parent_info line_without_parent_0
     = Ret ("Chapter 1", ["Chapter 1"])
  /\ Jsonl.article_and_from line_without_parent_0 ["parent_1"; "parent_2"]
     = Ret ("Chapter 1", ["Chapter 1"])
  /\ (jfield "fromArticle"
        <$> concat (calls (State.w
              (State.run sink_accepts [Some line_without_parent_0]
                         (State.globals0 world0)).2)))
     = [Some (JList [JStr "Chapter 1"])]
  /\ (jfield "fromArticle"
        <$> concat (calls (StateOld.w
              (StateOld.main sink_accepts [Some line_without_parent_0]
                             world0).2)))
     = [Some (JList [JStr "Chapter 1"])].
Proof. vm_compute. repeat split. Qed.


(** * Further properties *)

(** ** The errors of the parent extraction *)

Lemma split_not_nil sep s : Py.split sep s <> [].
Proof.
  destruct s as [|c s]; simpl; [discriminate|].
  destruct (Ascii.eqb c sep); [discriminate|].
  destruct (Py.split sep s); discriminate.
Qed.

Lemma split_cons_other sep c s :
  Ascii.eqb c sep = false ->
  exists h t, Py.split sep s = h :: t /\ Py.split sep (String c s) = String c h :: t.
Proof.
  intros Hc. simpl. rewrite Hc.
  destruct (Py.split sep s) as [|h t] eqn:Hs; [now apply split_not_nil in Hs|].
  eauto.
Qed.

Lemma prefix_cons_inv a s1 s2 :
  String.prefix (String a s1) s2 = true ->
  exists s2', s2 = String a s2' /\ String.prefix s1 s2' = true.
Proof.
  destruct s2 as [|b s2]; simpl; [discriminate|].
  destruct (ascii_dec a b) as [<-|]; [eauto | discriminate].
Qed.

(** A key that starts with [parent_] has a second field. *)
Lemma split_parent_key k :
  Py.startswith k "parent_" = true ->
  exists rest, k = "parent_" +:+ rest
    /\ Py.split "_" k = "parent" :: Py.split "_" rest.
Proof.
  unfold Py.startswith. intros H.
  do 7 (apply prefix_cons_inv in H as (? & -> & H)).
  eexists. split; reflexivity.
Qed.

Lemma sort_key_parent k :
  Py.startswith k "parent_" = true ->
  Jsonl.sort_key k = Exc ValueError \/ exists n, Jsonl.sort_key k = Ret n.
Proof.
  intros H. destruct (split_parent_key k H) as (rest & _ & Hs).
  unfold Jsonl.sort_key. rewrite Hs.
  destruct (Py.split "_" rest) as [|t ts] eqn:Hr; [now apply split_not_nil in Hr|].
  simpl. destruct (Py.int t); eauto.
Qed.

Lemma with_keys_outcome l :
  Forall (fun k => Py.startswith k "parent_" = true) l ->
  (exists kl, Jsonl.with_keys l = Ret kl
              /\ Forall (fun k => exists n, Jsonl.sort_key k = Ret n) l)
  \/ (Jsonl.with_keys l = Exc ValueError
      /\ Exists (fun k => Jsonl.sort_key k = Exc ValueError) l).
Proof.
  induction 1 as [|k l Hk Hl IH]; simpl.
  - left. eexists. split; [reflexivity | constructor].
  - destruct (sort_key_parent k Hk) as [He | [n Hn]].
    + right. rewrite He. split; [reflexivity | now constructor].
    + rewrite Hn. destruct IH as [(kl & -> & Hall) | [-> Hex]].
      * left. eexists. split; [reflexivity|]. constructor; eauto.
      * right. split; [reflexivity | now constructor 2].
Qed.

Lemma parent_candidates_start d :
  Forall (fun k => Py.startswith k "parent_" = true) (parent_candidates d).
Proof.
  apply Forall_forall. intros k Hk. unfold parent_candidates in Hk.
  apply list_elem_of_filter in Hk as [Hk _]. now apply Is_true_true.
Qed.

(** What the extraction of the parents does on a line. *)
Lemma extract_parent_info_outcome (d : Jsonl.data) :
  (forall e, StateOld.extract_parent_info d = Exc e ->
     e = ValueError
     /\ Exists (fun k => Jsonl.sort_key k = Exc ValueError) (parent_candidates d))
  /\ (Forall (fun k => exists n, Jsonl.sort_key k = Ret n) (parent_candidates d) ->
      exists r, StateOld.extract_parent_info d = Ret r).
Proof.
  destruct (with_keys_outcome _ (parent_candidates_start d))
    as [(kl & Hkl & Hall) | [Hexc Hex]].
  - destruct (extract_parent_info_sorted d kl Hkl) as (_ & _ & Hr).
    split; [intros e He; congruence | eauto].
  - assert (Hr : StateOld.extract_parent_info d = Exc ValueError).
    { unfold StateOld.extract_parent_info, Jsonl.parent_keys.
      fold (parent_candidates d). now rewrite Hexc. }
    split.
    + intros e He. rewrite Hr in He. injection He as <-. auto.
    + intros Hall. exfalso.
      apply Exists_exists in Hex as (k & Hin & Hk).
      rewrite Forall_forall in Hall. destruct (Hall k Hin) as [n Hn]. congruence.
Qed.





(** X23.  When every parent key has a number, the article is the value of a
    key whose number is the greatest, and [fromArticle] has one value for
    every parent key but one. *)
Theorem article_is_highest_parent (d : Jsonl.data) kl article from_article :
  Jsonl.with_keys (parent_candidates d) = Ret kl ->
  kl <> [] ->
  StateOld.extract_parent_info d = Ret (article, from_article) ->
  (exists n k, (n, k) ∈ kl
     /\ article = Py.get (Jsonl.members d) k ""
     /\ Forall (fun mk => mk.1 <= n) kl)
  /\ S (length from_article) = length (parent_candidates d).
Proof.
  intros Hkl Hne Hr.
  destruct (extract_parent_info_sorted d kl Hkl) as (Hs & Hp & Hr').
  rewrite Hr in Hr'. injection Hr' as Ha Hf.
  pose proof (sort_by_perm kl) as Hperm.
  destruct (Py.sort_by kl) as [|x l] eqn:Hsort using rev_ind.
  { apply Permutation_nil_l in Hperm. congruence. }
  clear IHl. rewrite fmap_app in Ha, Hf, Hp. simpl in Ha, Hf, Hp.
  rewrite last_snoc in Ha.
  split.
  - exists x.1, x.2. split; [|split].
    + rewrite <- Hperm. apply elem_of_app. right. destruct x. now left.
    + exact Ha.
    + rewrite <- Hperm. apply Forall_app. split; [|repeat constructor; lia].
      clear - Hs. induction l as [|y l IH]; [constructor|].
      simpl in Hs. inversion Hs as [|? ? Hs' Hall]; subst.
      constructor; [|auto].
      apply Forall_app in Hall as [_ Hx]. inversion Hx; subst. assumption.
  - rewrite <- Hp, Hf, length_fmap.
    destruct (l.*2) as [|k ks] eqn:Hl; simpl; rewrite ?length_app; simpl; lia.
Qed.

Lemma article_is_highest_parent_witness :
  exists kl,
    Jsonl.with_keys (parent_candidates line_eleven_parents) = Ret kl
    /\ kl <> []
    /\ (exists n k, (n, k) ∈ kl
          /\ "v10" = Py.get (Jsonl.members line_eleven_parents) k ""
          /\ Forall (fun mk => mk.1 <= n) kl).
Proof.
  eexists. split; [vm_compute; reflexivity|]. split; [discriminate|].
  eapply (proj1 (article_is_highest_parent line_eleven_parents _ "v10" _
                   eq_refl ltac:(discriminate) eq_refl)).
Defined.


(** ** What the script of [us/state/batchAddStateCollection.py] delivers *)

(** A loop, with an invariant on the elements already handled and the
    knowledge of where the element stands in the list. *)
Lemma triple_for_each_in {S A} (I : list A -> S -> Prop)
    (body : A -> M S unit) E (l : list A) :
  (forall pre x post, l = pre ++ x :: post ->
     triple (I pre) (body x) (fun _ => I (pre ++ [x])) E) ->
  triple (I []) (for_each l body) (fun _ => I l) E.
Proof.
  intros Hbody.
  assert (H : forall todo pre, l = pre ++ todo ->
            triple (I pre) (for_each todo body) (fun _ => I l) E).
  { induction todo as [|x todo IH]; intros pre Hl.
    - apply triple_ret. intros s Hs. now rewrite Hl, app_nil_r.
    - simpl. eapply triple_bind; [apply (Hbody pre x todo Hl)|].
      intros u. apply IH. now rewrite <- app_assoc. }
  apply (H l []). reflexivity.
Qed.

Lemma entry_of_batch_snoc new b e :
  entry_of_batch new e -> entry_of_batch (new ++ [b]) e.
Proof.
  intros (msg & i & b' & o & -> & Hi & Ho).
  exists msg, i, b', o. split; [reflexivity|]. split; [|assumption].
  rewrite lookup_app_l; [assumption|]. now apply lookup_lt_Some in Hi.
Qed.

Lemma state_trace_init w0 : state_trace w0 [] (State.globals0 w0).
Proof.
  split; [|reflexivity]. exists []. simpl. rewrite app_nil_r.
  repeat split. exists []. rewrite app_nil_r. repeat split. constructor.
Qed.

Section StateTrace.
Variable sink : sink_t.
Variable w0 : world.

(** Handing over a batch that is not empty. *)
Lemma state_send_trace objs g new entries :
  objs <> [] ->
  calls (State.w g) = calls w0 ++ new ->
  State.total_batches g = Z.of_nat (length new) ->
  flog (State.w g) = flog w0 ++ entries ->
  State.total_failed g = Z.of_nat (length entries) ->
  Forall (entry_of_batch new) entries ->
  let g' := State.send_batch sink objs g in
  calls (State.w g') = calls w0 ++ (new ++ [objs])
  /\ State.total_batches g' = Z.of_nat (length (new ++ [objs]))
  /\ (exists entries',
        flog (State.w g') = flog w0 ++ entries'
        /\ State.total_failed g' = Z.of_nat (length entries')
        /\ Forall (entry_of_batch (new ++ [objs])) entries')
  /\ sleeps (State.w g') = sleeps (State.w g)
  /\ State.current_batch g' = State.current_batch g
  /\ State.current_batch_tokens g' = State.current_batch_tokens g.
Proof.
  intros Hne Hc Hb Hf Hn He g'. subst g'.
  rewrite send_batch_cases by assumption. cbv zeta.
  assert (He' : Forall (entry_of_batch (new ++ [objs])) entries)
    by (eapply Forall_impl; [exact He | intros e; apply entry_of_batch_snoc]).
  destruct (sink (calls (State.w g)) objs) as [rejected|msg]; simpl.
  - rewrite Hc, <- app_assoc, length_app. simpl.
    repeat split; try lia. exists entries. auto.
  - rewrite Hc, <- app_assoc, length_app. simpl.
    repeat split; try lia.
    exists (entries ++ (State.failed_entry msg (State.total_batches g + 1)
                          <$> objs)).
    rewrite Hf, <- app_assoc, length_app, length_fmap.
    split; [reflexivity|]. split; [lia|].
    apply Forall_app. split; [assumption|].
    apply Forall_fmap, Forall_forall. intros o Ho.
    exists msg, (length new), objs, o.
    split; [simpl; f_equal; lia|].
    split; [|assumption]. apply list_lookup_middle. reflexivity.
Qed.

Lemma state_trace_chunk_step a fa chunk expected g :
  state_trace w0 expected g ->
  state_trace w0 (expected ++ [State.properties_of chunk a fa])
              (State.chunk_step sink a fa chunk g).
Proof.
  intros [(new & Hc & Hx & Hb & entries & Hf & Hn & He) Hs].
  unfold State.chunk_step.
  set (props := State.properties_of chunk a fa).
  set (tc := State.approx_tokens (Py.get chunk "content" "")).
  set (g0 := State.Globals _ (State.total_chunks_processed g + 1) _ _ _ _ _).
  assert (Hsingle : forall g1 new1 entries1,
    calls (State.w g1) = calls w0 ++ new1 ->
    State.total_batches g1 = Z.of_nat (length new1) ->
    flog (State.w g1) = flog w0 ++ entries1 ->
    State.total_failed g1 = Z.of_nat (length entries1) ->
    Forall (entry_of_batch new1) entries1 ->
    sleeps (State.w g1) = sleeps w0 ->
    concat new1 ++ State.current_batch g1 ++ [props] = expected ++ [props] ->
    State.current_batch g1 = [] ->
    state_trace w0 (expected ++ [props]) (State.send_batch sink [props] g1)).
  { intros g1 new1 entries1 Hc1 Hb1 Hf1 Hn1 He1 Hs1 Hx1 Hnil.
    destruct (state_send_trace [props] g1 new1 entries1 ltac:(discriminate)
                Hc1 Hb1 Hf1 Hn1 He1) as (Hc2 & Hb2 & Hl2 & Hs2 & Hcb2 & _).
    split; [|congruence].
    exists (new1 ++ [[props]]). split; [assumption|].
    split; [|split; assumption].
    rewrite Hcb2, Hnil, app_nil_r, concat_app. simpl.
    rewrite ?app_nil_r. rewrite Hnil in Hx1. exact Hx1. }
  destruct (State.MAX_BATCH_TOKENS <? tc).
  - destruct (bool_decide (State.current_batch g0 <> [])) eqn:Hne.
    + apply bool_decide_eq_true in Hne.
      destruct (state_send_trace (State.current_batch g0) g0 new entries
                  Hne Hc Hb Hf Hn He)
        as (Hc1 & Hb1 & (entries1 & Hf1 & Hn1 & He1) & Hs1 & _).
      apply (Hsingle _ (new ++ [State.current_batch g0]) entries1);
        try assumption; try reflexivity.
      * simpl in *. congruence.
      * simpl. rewrite concat_app. simpl. rewrite ?app_nil_r.
        change (State.current_batch g0) with (State.current_batch g).
        now rewrite Hx.
    + apply bool_decide_eq_false in Hne.
      assert (Hnil : State.current_batch g = [])
        by (simpl in Hne; destruct (State.current_batch g);
            [reflexivity | exfalso; apply Hne; discriminate]).
      apply (Hsingle g0 new entries); try assumption.
      simpl. rewrite app_assoc, Hx. reflexivity.
  - destruct (State.MAX_BATCH_TOKENS <? State.current_batch_tokens g0 + tc).
    + assert (Hcb0 : State.current_batch g0 = State.current_batch g)
        by reflexivity.
      destruct (decide (State.current_batch g = [])) as [Hcb|Hcb].
      * (* nothing to hand over: [send_batch] returns at once *)
        assert (Hsend : State.send_batch sink (State.current_batch g0) g0 = g0)
          by (rewrite Hcb0, Hcb; reflexivity).
        rewrite Hsend. split; [|assumption].
        exists new. simpl. rewrite Hcb, app_nil_r in Hx. rewrite Hx.
        split; [assumption|]. split; [reflexivity|].
        split; [assumption|]. exists entries. auto.
      * assert (Hne : State.current_batch g0 <> []) by now rewrite Hcb0.
        destruct (state_send_trace (State.current_batch g0) g0 new entries
                    Hne Hc Hb Hf Hn He)
          as (Hc1 & Hb1 & Hl1 & Hs1 & _).
        split; [|simpl in *; congruence].
        exists (new ++ [State.current_batch g0]). simpl.
        split; [assumption|]. split; [|split; assumption].
        rewrite concat_app. simpl. rewrite ?app_nil_r.
        rewrite Hx. reflexivity.
    + split; [|assumption]. exists new. simpl.
      split; [assumption|]. split; [now rewrite app_assoc, Hx|].
      split; [assumption|]. exists entries. auto.
Qed.

Lemma state_trace_chunks a fa chunks : forall expected g,
  state_trace w0 expected g ->
  state_trace w0
    (expected ++ ((fun c => State.properties_of c a fa) <$> chunks))
    (foldl (fun g' c => State.chunk_step sink a fa c g') g chunks).
Proof.
  induction chunks as [|c chunks IH]; intros expected g Hg; simpl.
  - now rewrite app_nil_r.
  - rewrite cons_middle, app_assoc.
    apply IH, state_trace_chunk_step, Hg.
Qed.

(** One line of the file [lines]. *)
Lemma state_trace_line lines pre line post :
  lines = pre ++ line :: post ->
  triple (state_trace w0 (flat_map line_objects pre))
         (State.line_step sink line)
         (fun _ => state_trace w0 (flat_map line_objects (pre ++ [line])))
         (fun e g =>
            e = ValueError
            /\ exists pre' d post',
                 lines = pre' ++ Some d :: post'
                 /\ StateOld.extract_parent_info d = Exc ValueError
                 /\ state_trace w0 (flat_map line_objects pre') g).
Proof.
  intros Hl g Hg. rewrite flat_map_app. simpl. rewrite app_nil_r.
  destruct line as [d|]; simpl; [|now rewrite app_nil_r].
  unfold bind, Jsonl.lift.
  destruct (StateOld.extract_parent_info d) as [af|e] eqn:Hx.
  - unfold StateOld.extract_parent_info in Hx.
    destruct (Jsonl.parent_keys d) as [pk|]; [|discriminate].
    rewrite Hx, for_each_modify. now apply state_trace_chunks.
  - destruct (extract_parent_info_outcome d) as [He _].
    destruct (He e Hx) as [-> _]. pose proof Hx as Hx'.
    unfold StateOld.extract_parent_info in Hx.
    destruct (Jsonl.parent_keys d) as [pk|e'].
    + rewrite Hx. split; [reflexivity|]. exists pre, d, post. auto.
    + injection Hx as ->. split; [reflexivity|].
      exists pre, d, post. auto.
Qed.

(** The whole script. *)
Lemma state_trace_run lines :
  match State.run sink lines (State.globals0 w0) with
  | (Ret _, g) => state_trace_end w0 (flat_map line_objects lines) g
  | (Exc e, g) =>
      e = ValueError
      /\ exists pre d post,
           lines = pre ++ Some d :: post
           /\ StateOld.extract_parent_info d = Exc ValueError
           /\ state_trace w0 (flat_map line_objects pre) g
  end.
Proof.
  assert (H : triple (state_trace w0 [])
                (State.run sink lines)
                (fun _ => state_trace_end w0 (flat_map line_objects lines))
                (fun e g =>
                   e = ValueError
                   /\ exists pre d post,
                        lines = pre ++ Some d :: post
                        /\ StateOld.extract_parent_info d = Exc ValueError
                        /\ state_trace w0 (flat_map line_objects pre) g)).
  { unfold State.run. eapply triple_bind.
    - apply (triple_for_each_in
               (fun pre => state_trace w0 (flat_map line_objects pre))
               (State.line_step sink) _ lines).
      intros pre x post Hl. now apply (state_trace_line lines pre x post).
    - intros u. apply triple_modify.
      intros g [(new & Hc & Hx & Hb & entries & Hf & Hn & He) Hs].
      destruct (bool_decide (State.current_batch g <> [])) eqn:Hne.
      + apply bool_decide_eq_true in Hne.
        destruct (state_send_trace (State.current_batch g) g new entries
                    Hne Hc Hb Hf Hn He)
          as (Hc1 & Hb1 & Hl1 & Hs1 & _).
        split; [|congruence].
        exists (new ++ [State.current_batch g]).
        split; [assumption|]. split; [|split; assumption].
        rewrite concat_app. simpl. now rewrite ?app_nil_r.
      + apply bool_decide_eq_false in Hne.
        assert (Hnil : State.current_batch g = [])
          by (destruct (State.current_batch g);
              [reflexivity | exfalso; apply Hne; discriminate]).
        split; [|assumption]. exists new.
        rewrite Hnil, app_nil_r in Hx.
        split; [assumption|]. split; [assumption|].
        split; [assumption|]. exists entries. auto. }
  assert (H0 : state_trace w0 [] (State.globals0 w0)).
  { split; [|reflexivity]. exists []. simpl. rewrite app_nil_r.
    repeat split. exists []. rewrite app_nil_r. repeat split. constructor. }
  specialize (H _ H0).
  destruct (State.run sink lines (State.globals0 w0)) as [[[]|e] g]; exact H.
Qed.

End StateTrace.


(** ** What the old loader delivers *)

Section OldTrace.
Variable sink : sink_t.
Variable w0 : world.
Variable max_tokens : Z.

(** What [send_batch_to_weaviate] changes on a batch that is not empty. *)
Lemma old_send_effect objs bn ct s :
  objs <> [] ->
  match StateOld.send_batch_to_weaviate sink objs bn ct s with
  | (r, s') =>
      calls (StateOld.w s') = calls (StateOld.w s) ++ [objs]
      /\ StateOld.batches s' = StateOld.batches s
      /\ StateOld.objects s' = StateOld.objects s
      /\ StateOld.tokens s' = StateOld.tokens s
      /\ sleeps (StateOld.w s') = sleeps (StateOld.w s)
      /\ (r = Ret tt ->
          exists entries,
            flog (StateOld.w s') = flog (StateOld.w s) ++ entries
            /\ StateOld.failed s'
               = StateOld.failed s + Z.of_nat (length entries))
  end.
Proof.
  intros Hne. rewrite send_batch_to_weaviate_cases by assumption. cbv zeta.
  destruct (sink (calls (StateOld.w s)) objs) as [[|f fs]|msg].
  - simpl. repeat split. intros _. exists []. rewrite app_nil_r. simpl.
    split; [reflexivity | lia].
  - simpl. repeat split. intros _.
    exists (StateOld.rejected_entry bn <$> f :: fs).
    rewrite length_fmap. split; reflexivity.
  - destruct (StateOld.disk_error msg); simpl; repeat split;
      try discriminate.
    intros _. exists (StateOld.failed_entry msg bn <$> objs).
    rewrite length_fmap. split; reflexivity.
Qed.

Lemma old_trace_sent expected s :
  old_trace w0 max_tokens expected s -> old_sent w0 max_tokens s.
Proof.
  intros [(new & Hc & Hb & Ha & _) _ _ _ Hs]. split; [|assumption].
  exists new. auto.
Qed.

(** Handing over the current batch, which is not empty. *)
Lemma old_trace_send_current expected :
  triple (fun s => old_trace w0 max_tokens expected s
                   /\ StateOld.objects s <> [])
         (StateOld.send_current sink)
         (fun _ s => old_trace w0 max_tokens expected s
                     /\ StateOld.objects s = [])
         (fun _ => old_sent w0 max_tokens).
Proof.
  intros s [[(new & Hc & Hb & Ha & Hx) Ht Hw (entries & Hf & Hn) Hs] Hne].
  unfold StateOld.send_current, bind, modify.
  set (s1 := StateOld.add_batches 1 s).
  pose proof (old_send_effect (StateOld.objects s1) (StateOld.batches s1)
                (StateOld.tokens s1) s1 Hne) as He.
  assert (Hadm : Forall (admissible max_tokens) (new ++ [StateOld.objects s])).
  { apply Forall_app. split; [assumption|].
    constructor; [|constructor]. left. auto. }
  destruct (StateOld.send_batch_to_weaviate sink _ _ _ s1) as [[[]|e] s2].
  - destruct He as (Hc2 & Hb2 & Ho2 & Ht2 & Hs2 & Hl2).
    destruct (Hl2 eq_refl) as (entries2 & Hf2 & Hn2).
    split; [|reflexivity]. split; simpl.
    + exists (new ++ [StateOld.objects s]).
      rewrite Hc2. simpl. rewrite Hc, <- app_assoc, Hb2, length_app. simpl.
      split; [reflexivity|]. split; [lia|]. split; [assumption|].
      rewrite concat_app. simpl. now rewrite ?app_nil_r.
    + reflexivity.
    + congruence.
    + exists (entries ++ entries2). rewrite Hf2. simpl.
      rewrite Hf, <- app_assoc, Hn2, length_app. simpl.
      split; [reflexivity | lia].
    + rewrite Hs2. exact Hs.
  - destruct He as (Hc2 & Hb2 & _ & _ & Hs2 & _).
    split; [|rewrite Hs2; exact Hs].
    exists (new ++ [StateOld.objects s]).
    rewrite Hc2. simpl. rewrite Hc, <- app_assoc, Hb2, length_app. simpl.
    split; [reflexivity|]. split; [lia | assumption].
Qed.

(** Handing over an oversized object alone, the batch being empty. *)
Lemma old_trace_oversized expected props tc :
  max_tokens < weight props ->
  triple (fun s => old_trace w0 max_tokens expected s
                   /\ StateOld.objects s = [])
         (StateOld.handle_oversized_chunk sink props tc)
         (fun _ => old_trace w0 max_tokens (expected ++ [props]))
         (fun _ => old_sent w0 max_tokens).
Proof.
  intros Hbig s [[(new & Hc & Hb & Ha & Hx) Ht Hw (entries & Hf & Hn) Hs] Hnil].
  unfold StateOld.handle_oversized_chunk, bind, modify.
  set (s1 := StateOld.add_batches 1 s).
  pose proof (old_send_effect [props] (StateOld.batches s1) tc s1
                ltac:(discriminate)) as He.
  assert (Hadm : Forall (admissible max_tokens) (new ++ [[props]])).
  { apply Forall_app. split; [assumption|].
    constructor; [|constructor]. right. exists props. auto. }
  destruct (StateOld.send_batch_to_weaviate sink _ _ _ s1) as [[[]|e] s2].
  - destruct He as (Hc2 & Hb2 & Ho2 & Ht2 & Hs2 & Hl2).
    destruct (Hl2 eq_refl) as (entries2 & Hf2 & Hn2).
    split.
    + exists (new ++ [[props]]).
      rewrite Hc2. simpl. rewrite Hc, <- app_assoc, Hb2, length_app. simpl.
      split; [reflexivity|]. split; [lia|]. split; [assumption|].
      rewrite Ho2. simpl. rewrite Hnil, app_nil_r in *.
      rewrite concat_app. simpl. now rewrite ?app_nil_r, Hx.
    + rewrite Ht2, Ho2. exact Ht.
    + rewrite Ho2. exact Hw.
    + exists (entries ++ entries2). rewrite Hf2. simpl.
      rewrite Hf, <- app_assoc, Hn2, length_app. simpl.
      split; [reflexivity | lia].
    + rewrite Hs2. exact Hs.
  - destruct He as (Hc2 & Hb2 & _ & _ & Hs2 & _).
    split; [|rewrite Hs2; exact Hs].
    exists (new ++ [[props]]).
    rewrite Hc2. simpl. rewrite Hc, <- app_assoc, Hb2, length_app. simpl.
    split; [reflexivity|]. split; [lia | assumption].
Qed.

Lemma old_trace_add_processed expected s :
  old_trace w0 max_tokens expected s ->
  old_trace w0 max_tokens expected (StateOld.add_processed 1 s).
Proof. intros [Hc Ht Hw Hl Hs]. split; assumption. Qed.

Lemma old_trace_chunk_step a fa doc chunk expected :
  triple (old_trace w0 max_tokens expected)
         (StateOld.chunk_step sink a fa doc max_tokens chunk)
         (fun _ => old_trace w0 max_tokens
                     (expected
                      ++ [StateOld.create_chunk_properties chunk a fa doc]))
         (fun _ => old_sent w0 max_tokens).
Proof.
  unfold StateOld.chunk_step.
  set (props := StateOld.create_chunk_properties chunk a fa doc).
  set (tc := StateOld.approx_tokens (content_of props)).
  assert (Htc : tc = weight props) by reflexivity.
  eapply triple_bind with (R := fun _ => old_trace w0 max_tokens expected).
  { apply triple_modify. intros s. apply old_trace_add_processed. }
  intros u. destruct (max_tokens <? tc) eqn:Hbig.
  - apply Z.ltb_lt in Hbig.
    eapply triple_bind with
      (R := fun _ s => old_trace w0 max_tokens expected s
                       /\ StateOld.objects s = []).
    + intros s Hs. destruct (bool_decide (StateOld.objects s <> [])) eqn:Hne.
      * apply bool_decide_eq_true in Hne.
        exact (old_trace_send_current expected s (conj Hs Hne)).
      * apply bool_decide_eq_false in Hne. split; [assumption|].
        destruct (StateOld.objects s);
          [reflexivity | exfalso; apply Hne; discriminate].
    + intros u'. apply old_trace_oversized. lia.
  - apply Z.ltb_ge in Hbig.
    eapply triple_bind with
      (R := fun _ s => old_trace w0 max_tokens expected s
                       /\ StateOld.tokens s + tc <= max_tokens).
    + intros s Hs. unfold StateOld.should_send_batch.
      destruct (max_tokens <? StateOld.tokens s + tc) eqn:Hover.
      * apply Z.ltb_lt in Hover.
        assert (Hne : StateOld.objects s <> []).
        { intros Hnil. destruct Hs as [_ Ht _ _ _].
          rewrite Hnil in Ht. simpl in Ht. lia. }
        pose proof (old_trace_send_current expected s (conj Hs Hne)) as H.
        destruct (StateOld.send_current sink s) as [[[]|e] s']; [|exact H].
        destruct H as [H Hnil]. split; [assumption|].
        destruct H as [_ Ht _ _ _]. rewrite Hnil in Ht. simpl in Ht. lia.
      * apply Z.ltb_ge in Hover. split; assumption.
    + intros u'. apply triple_modify.
      intros s [[(new & Hc & Hb & Ha & Hx) Ht Hw Hl Hs] Hfit].
      split; simpl; try assumption.
      * exists new. split; [assumption|]. split; [assumption|].
        split; [assumption|]. now rewrite app_assoc, Hx.
      * rewrite accumulated_weight_app, Ht. simpl. lia.
      * intros _. rewrite accumulated_weight_app, <- Ht. simpl. lia.
Qed.

(** One line of the file. *)
Lemma old_trace_line doc pre line :
  triple (old_trace w0 max_tokens (flat_map (old_line_objects doc) pre))
         (StateOld.line_step sink doc max_tokens line)
         (fun _ => old_trace w0 max_tokens
                     (flat_map (old_line_objects doc) (pre ++ [line])))
         (fun _ => old_sent w0 max_tokens).
Proof.
  rewrite flat_map_app. simpl. rewrite app_nil_r.
  destruct line as [d|]; simpl.
  - unfold StateOld.process_chunks_from_line.
    eapply triple_bind with
      (R := fun af s =>
              StateOld.extract_parent_info d = Ret af
              /\ old_trace w0 max_tokens
                   (flat_map (old_line_objects doc) pre) s).
    + apply triple_lift. intros s Hs.
      destruct (StateOld.extract_parent_info d);
        [auto | eapply old_trace_sent; eauto].
    + intros af.
      set (cs := default [] (Jsonl.chunks d)).
      assert (Hbody : forall done c,
        triple (fun s => StateOld.extract_parent_info d = Ret af
                 /\ old_trace w0 max_tokens
                      (flat_map (old_line_objects doc) pre
                       ++ ((fun c => StateOld.create_chunk_properties
                                       c af.1 af.2 doc) <$> done)) s)
               (StateOld.chunk_step sink af.1 af.2 doc max_tokens c)
               (fun _ s => StateOld.extract_parent_info d = Ret af
                 /\ old_trace w0 max_tokens
                      (flat_map (old_line_objects doc) pre
                       ++ ((fun c => StateOld.create_chunk_properties
                                       c af.1 af.2 doc) <$> done ++ [c])) s)
               (fun _ => old_sent w0 max_tokens)).
      { intros done c s [Hx Hs].
        pose proof (old_trace_chunk_step af.1 af.2 doc c _ s Hs) as H.
        destruct (StateOld.chunk_step sink _ _ _ _ _ s) as [[[]|e] s'];
          [|exact H].
        split; [assumption|]. now rewrite fmap_app, app_assoc. }
      pose proof (triple_for_each _ _ _ cs Hbody []) as Hloop.
      intros s [Hx Hs].
      specialize (Hloop s). simpl in Hloop. rewrite app_nil_r in Hloop.
      specialize (Hloop (conj Hx Hs)).
      destruct (for_each cs _ s) as [[[]|e] s']; [|exact Hloop].
      destruct Hloop as [_ Hloop]. rewrite Hx. exact Hloop.
  - apply triple_ret. intros s Hs. now rewrite app_nil_r.
Qed.

(** The whole of [process_jsonl_file]. *)
Lemma old_trace_run lines doc :
  match StateOld.process_jsonl_file sink lines doc max_tokens w0 with
  | (Ret _, s) =>
      old_trace_end w0 max_tokens (flat_map (old_line_objects doc) lines) s
  | (Exc _, s) => old_sent w0 max_tokens s
  end.
Proof.
  unfold StateOld.process_jsonl_file.
  assert (H0 : old_trace w0 max_tokens [] (StateOld.state0 w0)).
  { split; simpl; try reflexivity; try congruence.
    - exists []. rewrite app_nil_r. repeat split. constructor.
    - exists []. rewrite app_nil_r. split; reflexivity. }
  pose proof (triple_for_each
                (fun pre => old_trace w0 max_tokens
                              (flat_map (old_line_objects doc) pre))
                (StateOld.line_step sink doc max_tokens)
                (fun _ => old_sent w0 max_tokens) lines
                (fun pre x => old_trace_line doc pre x) []
                (StateOld.state0 w0) H0) as Hloop.
  unfold bind at 1.
  destruct (for_each lines _ (StateOld.state0 w0)) as [[[]|e] s];
    [|exact Hloop].
  simpl in Hloop.
  destruct Hloop as [(new & Hc & Hb & Ha & Hx) Ht Hw (entries & Hf & Hn) Hs].
  destruct (bool_decide (StateOld.objects s <> [])) eqn:Hne.
  - apply bool_decide_eq_true in Hne. unfold bind, modify.
    set (s1 := StateOld.add_batches 1 s).
    pose proof (old_send_effect (StateOld.objects s1) (StateOld.batches s1)
                  (StateOld.tokens s1) s1 Hne) as He.
    assert (Hadm : Forall (admissible max_tokens) (new ++ [StateOld.objects s])).
    { apply Forall_app. split; [assumption|].
      constructor; [|constructor]. left. auto. }
    destruct (StateOld.send_batch_to_weaviate sink _ _ _ s1) as [[[]|e] s2].
    + destruct He as (Hc2 & Hb2 & Ho2 & Ht2 & Hs2 & Hl2).
      destruct (Hl2 eq_refl) as (entries2 & Hf2 & Hn2).
      split.
      * exists (new ++ [StateOld.objects s]).
        rewrite Hc2. simpl. rewrite Hc, <- app_assoc, Hb2, length_app. simpl.
        split; [reflexivity|]. split; [lia|]. split; [assumption|].
        rewrite concat_app. simpl. now rewrite ?app_nil_r.
      * exists (entries ++ entries2). rewrite Hf2. simpl.
        rewrite Hf, <- app_assoc, Hn2, length_app. simpl.
        split; [reflexivity | lia].
      * rewrite Hs2. exact Hs.
    + destruct He as (Hc2 & Hb2 & _ & _ & Hs2 & _).
      split; [|rewrite Hs2; exact Hs].
      exists (new ++ [StateOld.objects s]).
      rewrite Hc2. simpl. rewrite Hc, <- app_assoc, Hb2, length_app. simpl.
      split; [reflexivity|]. split; [lia | assumption].
  - apply bool_decide_eq_false in Hne.
    assert (Hnil : StateOld.objects s = [])
      by (destruct (StateOld.objects s);
          [reflexivity | exfalso; apply Hne; discriminate]).
    rewrite Hnil, app_nil_r in Hx.
    split; [|eauto|assumption]. exists new. auto.
Qed.

End OldTrace.


(** ** What [process_document] delivers *)

Lemma attempts_snoc batches n b :
  attempts (batches ++ [(n, b)]) = attempts batches ++ replicate n b.
Proof. unfold attempts. rewrite flat_map_app. simpl. now rewrite app_nil_r. Qed.

Lemma retries_snoc batches n b :
  retries (batches ++ [(n, b)])
  = (retries batches + (if decide (n = 2%nat) then 1 else 0))%nat.
Proof.
  unfold retries. rewrite filter_app, length_app. f_equal.
  destruct (decide (n = 2%nat)) as [->|Hn].
  - reflexivity.
  - rewrite filter_cons_False by (simpl; assumption). reflexivity.
Qed.

Section MxTrace.
Variable sink : sink_t.
Variable w0 : world.

(** A flush, in full. *)
Lemma flush_trace items st next nt :
  items <> [] ->
  exists n entries,
    (n = 1%nat \/ (n = 2%nat /\ can_raise sink))
    /\ calls (Mx.flush sink items st next nt).2
       = calls st.2 ++ replicate n (Mx.obj <$> items)
    /\ sleeps (Mx.flush sink items st next nt).2
       = sleeps st.2 ++ replicate (if decide (n = 2%nat) then 1 else 0)%nat 60
    /\ flog (Mx.flush sink items st next nt).2 = flog st.2 ++ entries
    /\ Mx.chunks_failed (Mx.flush sink items st next nt).1
       = Mx.chunks_failed st.1 + Z.of_nat (length entries)
    /\ (entries <> [] -> can_raise sink)
    /\ Mx.current_batch (Mx.flush sink items st next nt).1 = next.
Proof.
  intros Hne. destruct st as [l w]. unfold Mx.flush.
  rewrite insert_batch_with_retry_cases.
  destruct (sink (calls w) (Mx.obj <$> items)) as [f1|m1] eqn:H1.
  - exists 1%nat, []. simpl. rewrite !app_nil_r.
    repeat split; try (now left); try lia. congruence.
  - assert (Hraise : can_raise sink) by (eexists _, _, _; exact H1).
    destruct (sink (calls w ++ _) _) as [f2|m2].
    + exists 2%nat, []. simpl. rewrite app_nil_r, <- app_assoc.
      repeat split; try (now right); try lia. congruence.
    + exists 2%nat, (Mx.error_info m2 <$> items). simpl.
      rewrite <- app_assoc, length_fmap.
      repeat split; try (now right); auto.
Qed.

Lemma mx_trace_flush expected st next nt :
  mx_trace sink w0 expected st ->
  Mx.current_batch st.1 <> [] ->
  mx_trace sink w0 (expected ++ (Mx.obj <$> next))
           (Mx.flush sink (Mx.current_batch st.1) st next nt).
Proof.
  intros [(batches & Hc & Hn & Hne' & Hx & Hs) (entries & Hf & Hl & Hr)] Hne.
  destruct (flush_trace (Mx.current_batch st.1) st next nt Hne)
    as (n & entries2 & Hn2 & Hc2 & Hs2 & Hf2 & Hl2 & Hr2 & Hb2).
  split.
  - exists (batches ++ [(n, Mx.obj <$> Mx.current_batch st.1)]).
    split; [rewrite attempts_snoc, Hc2, Hc, app_assoc; reflexivity|].
    split; [apply Forall_app; split;
              [assumption | constructor; [exact Hn2 | constructor]]|].
    split.
    { apply Forall_app. split; [assumption|]. constructor; [|constructor].
      simpl. destruct (Mx.current_batch st.1); [congruence | discriminate]. }
    split.
    + rewrite Hb2, fmap_app, concat_app. simpl.
      rewrite app_nil_r, <- Hx. reflexivity.
    + rewrite retries_snoc, replicate_add, Hs2, Hs, app_assoc. reflexivity.
  - exists (entries ++ entries2).
    rewrite Hf2, Hl2, Hf, Hl, <- app_assoc, length_app.
    split; [reflexivity|]. split; [lia|].
    intros Hne2. destruct entries as [|e es]; [apply Hr2 | apply Hr];
      [intros ->; now apply Hne2 | discriminate].
Qed.

(** The oversized paragraph that finds the batch empty. *)
Lemma mx_trace_single expected st item :
  mx_trace sink w0 expected st ->
  Mx.current_batch st.1 = [] ->
  mx_trace sink w0 (expected ++ [Mx.obj item])
           (Mx.flush sink [item] st (Mx.current_batch st.1)
                     (Mx.current_batch_tokens st.1)).
Proof.
  intros [(batches & Hc & Hn & Hne' & Hx & Hs) (entries & Hf & Hl & Hr)] Hnil.
  destruct (flush_trace [item] st (Mx.current_batch st.1)
              (Mx.current_batch_tokens st.1) ltac:(discriminate))
    as (n & entries2 & Hn2 & Hc2 & Hs2 & Hf2 & Hl2 & Hr2 & Hb2).
  split.
  - exists (batches ++ [(n, [Mx.obj item])]).
    split; [rewrite attempts_snoc, Hc2, Hc, app_assoc; reflexivity|].
    split; [apply Forall_app; split;
              [assumption | constructor; [exact Hn2 | constructor]]|].
    split.
    { apply Forall_app. split; [assumption|]. constructor; [|constructor].
      discriminate. }
    split.
    + rewrite Hb2, fmap_app, concat_app. simpl.
      rewrite Hnil in *. simpl in *. rewrite app_nil_r in *.
      rewrite <- Hx. reflexivity.
    + rewrite retries_snoc, replicate_add, Hs2, Hs, app_assoc. reflexivity.
  - exists (entries ++ entries2).
    rewrite Hf2, Hl2, Hf, Hl, <- app_assoc, length_app.
    split; [reflexivity|]. split; [lia|].
    intros Hne2. destruct entries as [|e es]; [apply Hr2 | apply Hr];
      [intros ->; now apply Hne2 | discriminate].
Qed.

Lemma mx_trace_step dn dt oc file expected st p :
  mx_trace sink w0 expected st ->
  mx_trace sink w0 (expected ++ mx_objects dn dt oc [p])
           (Mx.step sink dn dt oc file st p).
Proof.
  intros Ht. unfold Mx.step, mx_objects.
  change ((fun p0 => (Mx.create_chunk_object p0 dn dt oc).1.1) <$> [p])
    with [(Mx.create_chunk_object p dn dt oc).1.1].
  destruct (Mx.create_chunk_object p dn dt oc) as [[o a] tc]. cbn [fst snd].
  set (item := Mx.BatchItem o a tc p dn dt file).
  destruct (bool_decide (Mx.current_batch st.1 <> [])) eqn:Hne.
  - apply bool_decide_eq_true in Hne.
    destruct (Mx.MAX_BATCH_TOKENS <? Mx.current_batch_tokens st.1 + tc); simpl.
    + exact (mx_trace_flush expected st [item] tc Ht Hne).
    + destruct (Mx.MAX_BATCH_TOKENS <? tc).
      * pose proof (mx_trace_flush expected st [] 0 Ht Hne) as H1.
        simpl in H1. rewrite app_nil_r in H1.
        set (st1 := Mx.flush sink (Mx.current_batch st.1) st [] 0) in *.
        apply (mx_trace_single expected st1 item H1).
        apply (proj1 (flush_current_batch sink _ _ _ _)).
      * destruct Ht as [(batches & Hc & Hn & Hne' & Hx & Hs) Hl].
        split; [|exact Hl]. exists batches. simpl.
        rewrite fmap_app, app_assoc, Hx. auto.
  - apply bool_decide_eq_false in Hne.
    assert (Hnil : Mx.current_batch st.1 = [])
      by (destruct (Mx.current_batch st.1);
          [reflexivity | exfalso; apply Hne; discriminate]).
    simpl. destruct (Mx.MAX_BATCH_TOKENS <? tc).
    + exact (mx_trace_single expected st item Ht Hnil).
    + destruct Ht as [(batches & Hc & Hn & Hne' & Hx & Hs) Hl].
      split; [|exact Hl]. exists batches. simpl.
      rewrite fmap_app, app_assoc, Hx. auto.
Qed.

Lemma mx_trace_loop dn dt oc file ps : forall expected st,
  mx_trace sink w0 expected st ->
  mx_trace sink w0 (expected ++ mx_objects dn dt oc ps)
           (foldl (Mx.step sink dn dt oc file) st ps).
Proof.
  induction ps as [|p ps IH]; intros expected st Ht; cbn [foldl].
  - unfold mx_objects. simpl. now rewrite app_nil_r.
  - replace (expected ++ mx_objects dn dt oc (p :: ps))
      with ((expected ++ mx_objects dn dt oc [p]) ++ mx_objects dn dt oc ps)
      by (rewrite <- app_assoc; reflexivity).
    apply IH, mx_trace_step, Ht.
Qed.

(** The whole of [process_document]. *)
Lemma mx_trace_document file data :
  mx_trace_end sink w0
    (mx_objects (default "" (Mx.name data)) (default "" (Mx.Tipo data))
                (default false (Mx.onlyContent data))
                (default [] (Mx.paragraphs_by_bold data)))
    (Mx.process_document sink file data w0).1.2
    (Mx.process_document sink file data w0).2.
Proof.
  unfold Mx.process_document.
  set (dn := default "" (Mx.name data)).
  set (dt := default "" (Mx.Tipo data)).
  set (oc := default false (Mx.onlyContent data)).
  set (ps := default [] (Mx.paragraphs_by_bold data)).
  assert (H0 : mx_trace sink w0 [] (Mx.Locals 0 0 [] 0, w0)).
  { split.
    - exists []. simpl. rewrite !app_nil_r. repeat split; constructor.
    - exists []. simpl. rewrite app_nil_r. repeat split. congruence. }
  pose proof (mx_trace_loop dn dt oc file ps [] _ H0) as Hloop.
  simpl in Hloop. set (st1 := foldl _ _ ps) in *. cbn [fst snd].
  destruct (bool_decide (Mx.current_batch st1.1 <> [])) eqn:Hne.
  - apply bool_decide_eq_true in Hne.
    pose proof (mx_trace_flush _ st1 [] 0 Hloop Hne) as H1.
    simpl in H1. rewrite app_nil_r in H1.
    (* the batch variables after the last flush do not matter *)
    destruct H1 as [(batches & Hc & Hn & Hne' & Hx & Hs) (entries & Hf & Hl & Hr)].
    assert (Hsame : forall nb nt,
              (Mx.flush sink (Mx.current_batch st1.1) st1 nb nt).2
              = (Mx.flush sink (Mx.current_batch st1.1) st1 [] 0).2
              /\ Mx.chunks_failed
                   (Mx.flush sink (Mx.current_batch st1.1) st1 nb nt).1
                 = Mx.chunks_failed
                     (Mx.flush sink (Mx.current_batch st1.1) st1 [] 0).1).
    { intros nb nt. unfold Mx.flush. destruct st1 as [l w].
      destruct (Mx.insert_batch_with_retry _ _ _ _) as [[i f] w'].
      split; reflexivity. }
    destruct (Hsame (Mx.current_batch st1.1) (Mx.current_batch_tokens st1.1))
      as [-> ->].
    rewrite (proj1 (flush_current_batch sink _ _ _ _)) in Hx.
    simpl in Hx. rewrite app_nil_r in Hx.
    split; [exists batches | exists entries]; auto.
  - apply bool_decide_eq_false in Hne.
    assert (Hnil : Mx.current_batch st1.1 = [])
      by (destruct (Mx.current_batch st1.1);
          [reflexivity | exfalso; apply Hne; discriminate]).
    destruct Hloop as [(batches & Hc & Hn & Hne' & Hx & Hs) (entries & Hf & Hl & Hr)].
    rewrite Hnil in Hx. simpl in Hx. rewrite app_nil_r in Hx.
    split; [exists batches | exists entries]; auto.
Qed.

End MxTrace.


(** ** The counts of a run and the batches handed over *)

Section Keeps.
Context {S : Type}.
Variable f : S -> Z.







End Keeps.


Section StateCounts.
Variable sink : sink_t.




End StateCounts.

Section OldCounts.
Variable sink : sink_t.








End OldCounts.




(** ** The three loaders as a whole *)

(** X1.  When the script [us/state/batchAddStateCollection.py] reaches its
    end, the objects of its bulk inserts, read in order, are exactly the
    objects built from the chunks of the lines that parse, in the order of
    the file: no chunk is lost, sent twice or moved, whatever the database
    answers. *)
Theorem state_script_delivers_every_object_once (sink : sink_t) lines w g :
  StateScript.script sink lines w = (Ret tt, g) ->
  exists new,
    calls (State.w g) = calls w ++ new
    /\ concat new = flat_map line_objects lines.
Proof.
  unfold StateScript.script. intros Hrun.
  pose proof (state_trace_run sink (clear_log w) lines) as H.
  rewrite Hrun in H. destruct H as [(new & Hc & Hx & _) _].
  exists new. split; assumption.
Qed.

Lemma state_script_delivers_every_object_once_witness :
  exists g new,
    StateScript.script (sink_raises "timeout") lines_ok world0 = (Ret tt, g)
    /\ calls (State.w g) = calls world0 ++ new
    /\ concat new = flat_map line_objects lines_ok.
Proof.
  eexists.
  assert (Hrun : StateScript.script (sink_raises "timeout") lines_ok world0
                 = (Ret tt, (StateScript.script (sink_raises "timeout")
                               lines_ok world0).2))
    by (vm_compute; reflexivity).
  destruct (state_script_delivers_every_object_once _ _ _ _ Hrun)
    as (new & Hc & Hx).
  exists new. split; [exact Hrun | split; assumption].
Defined.

Lemma for_each_app {S A} (l1 l2 : list A) (body : A -> M S unit) (s : S) :
  for_each (l1 ++ l2) body s
  = match for_each l1 body s with
    | (Ret _, s') => for_each l2 body s'
    | (Exc e, s') => (Exc e, s')
    end.
Proof.
  revert s. induction l1 as [|x l1 IH]; intros s; [reflexivity|].
  cbn [app for_each]. unfold bind.
  destruct (body x s) as [[[]|e] s1]; [apply IH | reflexivity].
Qed.

(** A line whose extraction raises leaves the loop where it stands. *)
Lemma state_line_raises (sink : sink_t) d e g :
  StateOld.extract_parent_info d = Exc e ->
  State.line_step sink (Some d) g = (Exc e, g).
Proof.
  unfold StateOld.extract_parent_info, State.line_step, bind, Jsonl.lift.
  destruct (Jsonl.parent_keys d) as [pk|e']; [|now intros [= ->]].
  now intros ->.
Qed.

(** The lines before the first one whose extraction raises are all read. *)
Lemma state_lines_return (sink : sink_t) pre :
  Forall numbered pre -> returns (for_each pre (State.line_step sink)).
Proof.
  intros Hl. apply returns_for_each. eapply Forall_impl; [exact Hl|].
  intros [d|] Hd s; simpl; [|eexists; reflexivity].
  destruct Hd as [r Hr]. unfold StateOld.extract_parent_info in Hr.
  unfold bind, Jsonl.lift.
  destruct (Jsonl.parent_keys d) as [pk|]; [|discriminate].
  rewrite Hr. rewrite for_each_modify. eexists. reflexivity.
Qed.

(** X2.  In the script [us/state/batchAddStateCollection.py], a line with a
    parent key that has no number, after lines that are read without
    error, stops the script with the [ValueError] of [int] (only
    [JSONDecodeError] is caught).  The lines after it are never read: the
    script ends in the same state whatever follows.  The chunks of the
    lines before it are in the bulk inserts made or in the batch that was
    being filled, and that batch is not handed over: its chunks are
    counted as processed, neither as imported nor as failed. *)
Theorem state_script_stops_at_unnumbered_parent
    (sink : sink_t) pre d post w :
  Forall numbered pre ->
  StateOld.extract_parent_info d = Exc ValueError ->
  exists g,
    StateScript.script sink (pre ++ Some d :: post) w = (Exc ValueError, g)
    /\ StateScript.script sink (pre ++ [Some d]) w = (Exc ValueError, g)
    /\ (exists new,
          calls (State.w g) = calls w ++ new
          /\ concat new ++ State.current_batch g = flat_map line_objects pre)
    /\ State.total_chunks_imported g + State.total_failed g
       + Z.of_nat (length (State.current_batch g))
       = State.total_chunks_processed g
    /\ State.total_chunks_processed g = chunk_total pre.
Proof.
  intros Hpre Hd. unfold StateScript.script, State.run, bind.
  destruct (state_lines_return sink pre Hpre (State.globals0 (clear_log w)))
    as [g Hg].
  exists g. rewrite !for_each_app, Hg. cbn [for_each]. unfold bind.
  rewrite (state_line_raises sink d ValueError g Hd).
  split; [reflexivity|]. split; [reflexivity|].
  pose proof (triple_for_each_in
                (fun l => state_trace (clear_log w) (flat_map line_objects l))
                (State.line_step sink)
                (fun _ _ => True) pre
                (fun l x post' Hl =>
                   triple_conseq _ _ _ _ _ _ _
                     (state_trace_line sink (clear_log w) pre l x post' Hl)
                     (fun _ H => H) (fun _ _ H => H) (fun _ _ _ => I))
                (State.globals0 (clear_log w))) as Ht.
  pose proof (triple_for_each
                (fun l g => state_inv (clear_log w) g
                            /\ State.total_chunks_processed g = chunk_total l)
                (State.line_step sink)
                (fun _ g => state_inv (clear_log w) g) pre
                (fun l x => state_line_step sink (clear_log w) l x) []
                (State.globals0 (clear_log w))) as Hi.
  rewrite Hg in Ht, Hi. cbn [app] in Hi.
  destruct Ht as [(new & Hc & Hx & _) _]; [apply state_trace_init|].
  destruct Hi as [[_ _ _ Hn] Hp].
  { split; [apply state_inv_init | reflexivity]. }
  split; [exists new; split; assumption|]. split; assumption.
Qed.

Lemma state_script_stops_at_unnumbered_parent_witness :
  exists g,
    StateScript.script sink_accepts
      ([Some line_one] ++ Some line_bad_parent :: [Some line_one]) world0
    = (Exc ValueError, g)
    /\ StateScript.script sink_accepts
         ([Some line_one] ++ [Some line_bad_parent]) world0
       = (Exc ValueError, g)
    /\ (exists new,
          calls (State.w g) = calls world0 ++ new
          /\ concat new ++ State.current_batch g
             = flat_map line_objects [Some line_one])
    /\ State.total_chunks_imported g + State.total_failed g
       + Z.of_nat (length (State.current_batch g))
       = State.total_chunks_processed g
    /\ State.total_chunks_processed g = chunk_total [Some line_one].
Proof.
  apply (state_script_stops_at_unnumbered_parent sink_accepts
           [Some line_one] line_bad_parent [Some line_one] world0).
  - repeat constructor. eexists. vm_compute. reflexivity.
  - vm_compute. reflexivity.
Defined.

(** X3.  However the script [us/state/batchAddStateCollection.py] ends,
    normally or on an exception: [total_batches] is the number of bulk
    inserts it made, the failure file (emptied at the start) holds exactly
    [total_failed] entries, each made of an object of the bulk insert
    whose number it carries, and the script never sleeps. *)
Theorem state_script_counts_batches_and_failures (sink : sink_t) lines w :
  let g := (StateScript.script sink lines w).2 in
  exists new,
    calls (State.w g) = calls w ++ new
    /\ State.total_batches g = Z.of_nat (length new)
    /\ State.total_failed g = Z.of_nat (length (flog (State.w g)))
    /\ Forall (entry_of_batch new) (flog (State.w g))
    /\ sleeps (State.w g) = sleeps w.
Proof.
  unfold StateScript.script.
  pose proof (state_trace_run sink (clear_log w) lines) as H.
  destruct (State.run sink lines (State.globals0 (clear_log w)))
    as [[[]|e] g]; cbn [snd].
  - destruct H as [(new & Hc & _ & Hb & entries & Hl & Hf & He) Hs].
    exists new. rewrite Hl. cbn in *. repeat split; assumption.
  - destruct H as (_ & pre & d & post & _ & _
                   & [(new & Hc & _ & Hb & entries & Hl & Hf & He) Hs]).
    exists new. rewrite Hl. cbn in *. repeat split; assumption.
Qed.

(** X4.  When a run of the old loader (any document name, any limit)
    reaches its end, the objects of its bulk inserts, read in order, are
    exactly the objects built from the chunks of the lines that parse, in
    the order of the file. *)
Theorem old_loader_delivers_every_object_once
    (sink : sink_t) lines doc max_tokens w s :
  StateOld.process_jsonl_file sink lines doc max_tokens w = (Ret tt, s) ->
  exists new,
    calls (StateOld.w s) = calls w ++ new
    /\ concat new = flat_map (old_line_objects doc) lines.
Proof.
  intros Hrun.
  pose proof (old_trace_run sink w max_tokens lines doc) as H.
  rewrite Hrun in H. destruct H as [(new & Hc & _ & _ & Hx) _ _].
  exists new. split; assumption.
Qed.

Lemma old_loader_delivers_every_object_once_witness :
  let s := (StateOld.process_jsonl_file (sink_rejects_first "bad vector") lines_ok
              "Code" 136000 world0).2 in
  exists new,
    calls (StateOld.w s) = calls world0 ++ new
    /\ concat new = flat_map (old_line_objects "Code") lines_ok.
Proof.
  intros s.
  apply (old_loader_delivers_every_object_once (sink_rejects_first "bad vector") lines_ok
           "Code" 136000 world0 s).
  vm_compute. reflexivity.
Defined.

(** X5.  For every limit given to the old loader, and however the run
    ends: every bulk insert is within that limit or is one object that
    alone exceeds it, the counter of batches is the number of bulk
    inserts, and the loader never sleeps. *)
Theorem old_loader_batches_within_any_limit
    (sink : sink_t) lines doc max_tokens w :
  let s := (StateOld.process_jsonl_file sink lines doc max_tokens w).2 in
  exists new,
    calls (StateOld.w s) = calls w ++ new
    /\ Forall (admissible max_tokens) new
    /\ StateOld.batches s = Z.of_nat (length new)
    /\ sleeps (StateOld.w s) = sleeps w.
Proof.
  pose proof (old_trace_run sink w max_tokens lines doc) as H.
  destruct (StateOld.process_jsonl_file sink lines doc max_tokens w)
    as [[[]|e] s]; cbn [snd].
  - destruct H as [(new & Hc & Hb & Ha & _) _ Hs].
    exists new. repeat split; assumption.
  - destruct H as [(new & Hc & Hb & Ha) Hs].
    exists new. repeat split; assumption.
Qed.

(** X6.  When [main] of the old loader reaches its end, the failure file
    (emptied by [setup_output_file]) holds exactly as many entries as the
    failed counter says. *)
Theorem old_main_log_has_failed_entries (sink : sink_t) lines w s :
  StateOldMain.main sink lines w = (Ret tt, s) ->
  StateOld.failed s = Z.of_nat (length (flog (StateOld.w s))).
Proof.
  unfold StateOldMain.main, StateOld.main. intros Hrun.
  pose proof (old_trace_run sink (StateOldMain.setup_output_file w)
                StateOld.MAX_BATCH_TOKENS lines StateOld.fileName) as H.
  rewrite Hrun in H. destruct H as [_ (entries & Hl & Hf) _].
  rewrite Hl. exact Hf.
Qed.

Lemma old_main_log_has_failed_entries_witness :
  let s := (StateOldMain.main (sink_rejects_first "bad vector") lines_ok world0).2 in
  StateOld.failed s = Z.of_nat (length (flog (StateOld.w s))).
Proof.
  intros s.
  apply (old_main_log_has_failed_entries (sink_rejects_first "bad vector") lines_ok world0 s).
  vm_compute. reflexivity.
Defined.


(** ** [process_document] and [main] of [mx/addToCollection.py] *)

Lemma attempts_once batches :
  Forall (fun nb : nat * list json => nb.1 = 1%nat) batches ->
  attempts batches = batches.*2 /\ retries batches = 0%nat.
Proof.
  unfold attempts, retries.
  induction 1 as [|[n b] batches Hn _ [IHa IHr]]; [split; reflexivity|].
  cbn [fst] in Hn. subst n. cbn [flat_map fmap list_fmap fst snd replicate].
  rewrite IHa. split; [reflexivity|].
  rewrite filter_cons_False by (cbn; lia). exact IHr.
Qed.

Lemma never_raises_cannot_raise sink : never_raises sink -> ~ can_raise sink.
Proof.
  intros Hn (hist & objs & msg & Hr).
  destruct (Hn hist objs) as (rej & Ha). congruence.
Qed.

(** X7.  For every database, [process_document] hands the objects of the
    paragraphs over in batches that, read in order, are exactly those
    objects in the order of the file; every batch is inserted once or
    twice, never more, and the function sleeps 60 seconds once for every
    second insert and at no other time. *)
Theorem process_document_tries_each_batch_at_most_twice
    (sink : sink_t) file data w0 :
  exists batches,
    calls (Mx.process_document sink file data w0).2
    = calls w0 ++ attempts batches
    /\ Forall (fun nb => nb.1 = 1%nat \/ nb.1 = 2%nat) batches
    /\ concat batches.*2
       = mx_objects (default "" (Mx.name data)) (default "" (Mx.Tipo data))
                    (default false (Mx.onlyContent data))
                    (default [] (Mx.paragraphs_by_bold data))
    /\ sleeps (Mx.process_document sink file data w0).2
       = sleeps w0 ++ replicate (retries batches) 60.
Proof.
  destruct (mx_trace_document sink w0 file data)
    as [(batches & Hc & Hn & _ & Hx & Hs) _].
  exists batches. split; [exact Hc|]. split; [|split; assumption].
  eapply Forall_impl; [exact Hn|]. cbn. intros nb [H|[H _]]; auto.
Qed.

Lemma process_document_log_growth
    (sink : sink_t) file data w0 :
  exists entries,
    flog (Mx.process_document sink file data w0).2 = flog w0 ++ entries
    /\ (Mx.process_document sink file data w0).1.2 = Z.of_nat (length entries)
    /\ (Mx.process_document sink file data w0).1.1
       = Z.of_nat (length (default [] (Mx.paragraphs_by_bold data)))
         - Z.of_nat (length entries).
Proof.
  destruct (mx_trace_document sink w0 file data)
    as [_ (entries & Hl & Hf & _)].
  destruct (process_document_summary sink file data w0) as (_ & _ & _ & Hn).
  exists entries. split; [exact Hl|]. split; [exact Hf|]. lia.
Qed.

(** X8.  [process_document] only appends to the failure file, and the
    number of entries it appends is the failed count it returns; the
    inserted count is what is left of the paragraphs. *)
Theorem process_document_logs_each_failed_item (sink : sink_t) file data w0 :
  exists entries,
    flog (Mx.process_document sink file data w0).2 = flog w0 ++ entries
    /\ (Mx.process_document sink file data w0).1.2 = Z.of_nat (length entries)
    /\ (Mx.process_document sink file data w0).1.1
       = Z.of_nat (length (default [] (Mx.paragraphs_by_bold data)))
         - Z.of_nat (length entries).
Proof.
  apply process_document_log_growth.
Qed.

(** X9.  With a database whose bulk insert never raises, [process_document]
    inserts every batch exactly once, never sleeps, writes nothing to the
    failure file and counts every paragraph as inserted, also when the
    database reports rejected objects: the function does not read them. *)
Theorem process_document_without_exception (sink : sink_t) file data w0 :
  never_raises sink ->
  let r := Mx.process_document sink file data w0 in
  r.1 = (Z.of_nat (length (default [] (Mx.paragraphs_by_bold data))), 0)
  /\ flog r.2 = flog w0
  /\ sleeps r.2 = sleeps w0
  /\ exists new,
       calls r.2 = calls w0 ++ new
       /\ concat new
          = mx_objects (default "" (Mx.name data)) (default "" (Mx.Tipo data))
                       (default false (Mx.onlyContent data))
                       (default [] (Mx.paragraphs_by_bold data)).
Proof.
  intros Hnr r. apply never_raises_cannot_raise in Hnr.
  destruct (mx_trace_document sink w0 file data)
    as [(batches & Hc & Hn & _ & Hx & Hs) (entries & Hl & Hf & He)].
  destruct (process_document_summary sink file data w0) as (_ & _ & _ & Hsum).
  subst r.
  assert (entries = []) as ->
    by (destruct entries; [reflexivity | exfalso; apply Hnr, He; discriminate]).
  destruct (attempts_once batches) as [Ha Hr].
  { eapply Forall_impl; [exact Hn|]. cbn. intros nb [H|[_ H]]; tauto. }
  rewrite Ha in Hc. rewrite Hr in Hs. cbn [replicate] in Hs.
  change (Z.of_nat (length (@nil json))) with 0 in Hf.
  rewrite app_nil_r in Hs, Hl.
  split; [|split; [exact Hl | split; [exact Hs | exists batches.*2; auto]]].
  destruct (Mx.process_document sink file data w0) as [[ci cf] w1].
  cbn [fst snd] in *. f_equal; lia.
Qed.

Lemma process_document_without_exception_witness :
  let r := Mx.process_document (sink_rejects_first "bad vector")
             "ley.json" doc_small world0 in
  r.1 = (Z.of_nat (length (default [] (Mx.paragraphs_by_bold doc_small))), 0)
  /\ flog r.2 = flog world0
  /\ sleeps r.2 = sleeps world0
  /\ exists new,
       calls r.2 = calls world0 ++ new
       /\ concat new
          = mx_objects (default "" (Mx.name doc_small))
                       (default "" (Mx.Tipo doc_small))
                       (default false (Mx.onlyContent doc_small))
                       (default [] (Mx.paragraphs_by_bold doc_small)).
Proof.
  apply (process_document_without_exception (sink_rejects_first "bad vector")
           "ley.json" doc_small world0).
  intros hist [|o objs]; eexists; reflexivity.
Defined.

Lemma files_loop_loaded (sink : sink_t) files : forall ti tf w,
  exists ti' entries w',
    MxMain.files_loop sink (loaded files) ti tf w
    = (Ret (ti', tf + Z.of_nat (length entries)), w')
    /\ ti' + Z.of_nat (length entries) = ti + paragraph_total files
    /\ flog w' = flog w ++ entries.
Proof.
  induction files as [|[file data] files IH]; intros ti tf w.
  - exists ti, [], w. rewrite app_nil_r.
    change (Z.of_nat (length (@nil json))) with 0. rewrite !Z.add_0_r.
    split; [reflexivity | split; reflexivity].
  - cbn [loaded fmap list_fmap MxMain.files_loop fst snd
         paragraph_total foldr].
    destruct (process_document_log_growth sink file data w)
      as (entries & Hl & Hf & Hi).
    destruct (Mx.process_document sink file data w) as [[ci cf] w1].
    cbn [fst snd] in Hl, Hf, Hi.
    destruct (IH (ti + ci) (tf + cf) w1) as (ti' & entries' & w' & Hr & Hs & Hl').
    exists ti', (entries ++ entries'), w'.
    fold (loaded files). rewrite Hr, Hl', Hl, length_app, app_assoc.
    fold (paragraph_total files).
    replace (tf + Z.of_nat (length entries + length entries'))
      with (tf + cf + Z.of_nat (length entries')) by lia.
    split; [reflexivity | split; [lia | reflexivity]].
Qed.

Lemma files_loop_stops (sink : sink_t) pre file post : forall ti tf w,
  MxMain.files_loop sink (loaded pre ++ (file, None) :: post) ti tf w
  = (Exc (Exception "load_document"),
     (MxMain.files_loop sink (loaded pre) ti tf w).2).
Proof.
  induction pre as [|[f data] pre IH]; intros ti tf w; [reflexivity|].
  cbn [loaded fmap list_fmap MxMain.files_loop fst snd app].
  destruct (Mx.process_document sink f data w) as [[ci cf] w1].
  apply IH.
Qed.

(** X10.  [main] of [mx/addToCollection.py] stops at the first file that
    cannot be loaded: the files before it are processed as if they were
    the whole directory, the files after it are never read, whatever they
    hold, and no summary is printed. *)
Theorem main_stops_at_first_unreadable_file (sink : sink_t) pre file post w :
  MxMain.main sink (loaded pre ++ (file, None) :: post) w
  = (None, (MxMain.main sink (loaded pre) w).2).
Proof.
  unfold MxMain.main. rewrite files_loop_stops.
  destruct (MxMain.files_loop sink (loaded pre) 0 0
              (MxMain.initialize_output_file w)) as [[t|e] w']; reflexivity.
Qed.

(** X11.  When every file loads, [main] prints its summary: the two totals
    add up to the number of paragraphs of all the files, and the failure
    file, emptied at the start and shared by the files, holds exactly as
    many entries as the total of failed chunks. *)
Theorem main_summary_matches_failure_file (sink : sink_t) files w :
  exists total_chunks total_failed w',
    MxMain.main sink (loaded files) w = (Some (total_chunks, total_failed), w')
    /\ total_chunks + total_failed = paragraph_total files
    /\ total_failed = Z.of_nat (length (flog w')).
Proof.
  unfold MxMain.main.
  destruct (files_loop_loaded sink files 0 0 (MxMain.initialize_output_file w))
    as (ti & entries & w' & Hr & Hs & Hl).
  rewrite Hr. exists ti, (0 + Z.of_nat (length entries)), w'.
  split; [reflexivity|]. rewrite Hl. cbn. split; lia.
Qed.


(** ** The names of the files of the federal loader *)

Lemma list_ascii_of_string_app (s1 s2 : string) :
  list_ascii_of_string (s1 +:+ s2)
  = list_ascii_of_string s1 ++ list_ascii_of_string s2.
Proof. induction s1 as [|c s1 IH]; simpl; [reflexivity | now rewrite IH]. Qed.

Lemma string_of_list_ascii_app (l1 l2 : list ascii) :
  string_of_list_ascii (l1 ++ l2)
  = string_of_list_ascii l1 +:+ string_of_list_ascii l2.
Proof. induction l1 as [|c l1 IH]; simpl; [reflexivity | now rewrite IH]. Qed.

Lemma span_digits_app ds rest :
  Forall (fun c => FederalFiles.isdigit c = true) ds ->
  match rest with c :: _ => FederalFiles.isdigit c = false | [] => True end ->
  FederalFiles.span_digits (ds ++ rest) = (ds, rest).
Proof.
  intros Hds Hrest. induction Hds as [|d ds Hd _ IH]; simpl.
  - destruct rest as [|c rest]; [reflexivity|]. simpl. now rewrite Hrest.
  - rewrite Hd, IH. reflexivity.
Qed.

Lemma span_digits_spec l :
  l = (FederalFiles.span_digits l).1 ++ (FederalFiles.span_digits l).2
  /\ Forall (fun c => FederalFiles.isdigit c = true) (FederalFiles.span_digits l).1.
Proof.
  induction l as [|c l [IH1 IH2]]; simpl; [split; [reflexivity | constructor]|].
  destruct (FederalFiles.isdigit c) eqn:Hc.
  - destruct (FederalFiles.span_digits l) as [ds rest]. simpl in *.
    split; [now f_equal | now constructor].
  - simpl. split; [reflexivity | constructor].
Qed.

Lemma match_volume_suffix ds before :
  ds <> [] ->
  Forall (fun c => FederalFiles.isdigit c = true) ds ->
  FederalFiles.match_volume (ds ++ "l" :: "o" :: "v" :: "-" :: before)%char
  = Some before.
Proof.
  intros Hne Hds. unfold FederalFiles.match_volume.
  rewrite span_digits_app by (assumption || reflexivity).
  destruct ds; [contradiction | reflexivity].
Qed.

Lemma match_volume_inv l before :
  FederalFiles.match_volume l = Some before ->
  exists ds, ds <> []
    /\ Forall (fun c => FederalFiles.isdigit c = true) ds
    /\ l = (ds ++ "l" :: "o" :: "v" :: "-" :: before)%char.
Proof.
  unfold FederalFiles.match_volume. intros H.
  destruct (span_digits_spec l) as [Hl Hds].
  destruct (FederalFiles.span_digits l) as [[|d ds] rest];
    [discriminate|]. cbn [fst snd] in Hl, Hds.
  exists (d :: ds). split; [discriminate|]. split; [assumption|].
  rewrite Hl. f_equal.
  destruct rest as [|c1 [|c2 [|c3 [|c4 rest]]]]; [discriminate| | | |].
  - destruct c1 as [[] [] [] [] [] [] [] []]; discriminate.
  - destruct c1 as [[] [] [] [] [] [] [] []]; try discriminate;
      destruct c2 as [[] [] [] [] [] [] [] []]; discriminate.
  - destruct c1 as [[] [] [] [] [] [] [] []]; try discriminate;
      destruct c2 as [[] [] [] [] [] [] [] []]; try discriminate;
      destruct c3 as [[] [] [] [] [] [] [] []]; discriminate.
  - destruct c1 as [[] [] [] [] [] [] [] []]; try discriminate;
      destruct c2 as [[] [] [] [] [] [] [] []]; try discriminate;
      destruct c3 as [[] [] [] [] [] [] [] []]; try discriminate;
      destruct c4 as [[] [] [] [] [] [] [] []]; try discriminate.
    injection H as ->. reflexivity.
Qed.

Lemma sanitize_document_name_unfold filename :
  FederalFiles.sanitize_document_name filename
  = match reverse (list_ascii_of_string filename) with
    | c :: r =>
        if Ascii.eqb c "010" then
          match FederalFiles.match_volume r with
          | Some before => string_of_list_ascii (reverse before ++ ["010"%char])
          | None => filename
          end
        else
          match FederalFiles.match_volume (c :: r) with
          | Some before => string_of_list_ascii (reverse before)
          | None => filename
          end
    | [] => filename
    end.
Proof.
  unfold FederalFiles.sanitize_document_name.
  destruct (reverse (list_ascii_of_string filename)) as [|c r];
    [reflexivity|].
  destruct c as [[] [] [] [] [] [] [] []]; reflexivity.
Qed.

Lemma digit_not_line_feed c :
  FederalFiles.isdigit c = true -> Ascii.eqb c "010" = false.
Proof. destruct c as [[] [] [] [] [] [] [] []]; vm_compute; congruence. Qed.

(** X12.  [sanitize_document_name] removes one volume suffix: [-vol]
    followed by one or more digits at the end of the name, whatever stands
    before it, also another volume suffix.  Because [$] also matches
    before a line feed that ends the name, the suffix is removed there too
    and the line feed is kept. *)
Theorem sanitize_document_name_removes_volume (stem ds : string) :
  ds <> EmptyString ->
  all_digits ds ->
  FederalFiles.sanitize_document_name (stem +:+ "-vol" +:+ ds) = stem
  /\ FederalFiles.sanitize_document_name (stem +:+ "-vol" +:+ ds +:+ line_feed)
     = stem +:+ line_feed.
Proof.
  intros Hne Hds. unfold all_digits in Hds.
  assert (Hrev : Forall (fun c => FederalFiles.isdigit c = true)
                        (reverse (list_ascii_of_string ds)))
    by (rewrite Forall_reverse; exact Hds).
  assert (Hnil : reverse (list_ascii_of_string ds) <> []).
  { intros H. apply (f_equal reverse) in H. rewrite reverse_involutive in H.
    destruct ds; [contradiction | discriminate]. }
  split; rewrite sanitize_document_name_unfold, !list_ascii_of_string_app,
           !reverse_app.
  - change (reverse (list_ascii_of_string "-vol"))
      with ["l"; "o"; "v"; "-"]%char.
    rewrite <- app_assoc. cbn [app].
    pose proof (match_volume_suffix _ (reverse (list_ascii_of_string stem))
                  Hnil Hrev) as Hm.
    destruct (reverse (list_ascii_of_string ds)) as [|d r] eqn:Hd;
      [contradiction|]. cbn [app] in *.
    rewrite (digit_not_line_feed d) by (inversion Hrev; assumption).
    rewrite Hm, reverse_involutive. apply string_of_list_ascii_of_string.
  - change (reverse (list_ascii_of_string line_feed)) with ["010"%char].
    change (reverse (list_ascii_of_string "-vol"))
      with ["l"; "o"; "v"; "-"]%char.
    rewrite <- !app_assoc. cbn [app].
    change (Ascii.eqb "010" "010") with true. cbv iota.
    rewrite (match_volume_suffix _ (reverse (list_ascii_of_string stem))
               Hnil Hrev).
    rewrite reverse_involutive, string_of_list_ascii_app,
      string_of_list_ascii_of_string. reflexivity.
Qed.

Lemma sanitize_document_name_removes_volume_witness :
  FederalFiles.sanitize_document_name ("CFR-2024-title48" +:+ "-vol" +:+ "1")
  = "CFR-2024-title48"
  /\ FederalFiles.sanitize_document_name
       ("CFR-2024-title48" +:+ "-vol" +:+ "1" +:+ line_feed)
     = "CFR-2024-title48" +:+ line_feed.
Proof.
  apply (sanitize_document_name_removes_volume "CFR-2024-title48" "1").
  - discriminate.
  - repeat constructor.
Defined.

(** X13.  [sanitize_document_name] changes nothing else: it returns the
    name as it is unless the name ends with [-vol] and one or more digits,
    or with that and one line feed. *)
Theorem sanitize_document_name_changes_only_volume (filename : string) :
  FederalFiles.sanitize_document_name filename = filename
  \/ exists stem ds nl,
       ds <> EmptyString /\ all_digits ds
       /\ (nl = EmptyString \/ nl = line_feed)
       /\ filename = stem +:+ "-vol" +:+ ds +:+ nl
       /\ FederalFiles.sanitize_document_name filename = stem +:+ nl.
Proof.
  rewrite sanitize_document_name_unfold.
  assert (Hf : filename
               = string_of_list_ascii
                   (reverse (reverse (list_ascii_of_string filename))))
    by (now rewrite reverse_involutive, string_of_list_ascii_of_string).
  assert (Hshape : forall ds before nl,
            ds <> [] ->
            Forall (fun c => FederalFiles.isdigit c = true) ds ->
            (nl = [] \/ nl = ["010"%char]) ->
            reverse (list_ascii_of_string filename)
            = (nl ++ ds ++ "l" :: "o" :: "v" :: "-" :: before)%char ->
            exists stem ds' nl',
              ds' <> EmptyString /\ all_digits ds'
              /\ (nl' = EmptyString \/ nl' = line_feed)
              /\ filename = stem +:+ "-vol" +:+ ds' +:+ nl'
              /\ string_of_list_ascii (reverse before ++ nl) = stem +:+ nl').
  { intros ds before nl Hne Hds Hnl Hrev.
    exists (string_of_list_ascii (reverse before)),
           (string_of_list_ascii (reverse ds)), (string_of_list_ascii nl).
    split.
    { intros H. apply (f_equal list_ascii_of_string) in H.
      rewrite list_ascii_of_string_of_list_ascii in H.
      apply (f_equal reverse) in H. rewrite reverse_involutive in H.
      contradiction. }
    split.
    { unfold all_digits. rewrite list_ascii_of_string_of_list_ascii.
      now rewrite Forall_reverse. }
    split; [destruct Hnl as [->| ->]; [left | right]; reflexivity|].
    split; [|apply string_of_list_ascii_app].
    assert (Hnl' : reverse nl = nl) by (destruct Hnl as [->| ->]; reflexivity).
    rewrite Hf at 1. rewrite Hrev.
    change ("l" :: "o" :: "v" :: "-" :: before)%char
      with (["l"; "o"; "v"; "-"]%char ++ before).
    rewrite !reverse_app, Hnl', <- !app_assoc, !string_of_list_ascii_app.
    reflexivity. }
  destruct (reverse (list_ascii_of_string filename)) as [|c r] eqn:Hrev;
    [left; reflexivity|].
  destruct (Ascii.eqb c "010") eqn:Hc.
  - apply Ascii.eqb_eq in Hc. subst c.
    destruct (FederalFiles.match_volume r) as [before|] eqn:Hm;
      [right | left; reflexivity].
    apply match_volume_inv in Hm as (ds & Hne & Hds & ->).
    apply (Hshape ds before ["010"%char] Hne Hds); [right|]; reflexivity.
  - destruct (FederalFiles.match_volume (c :: r)) as [before|] eqn:Hm;
      [right | left; reflexivity].
    apply match_volume_inv in Hm as (ds & Hne & Hds & Heq).
    destruct (Hshape ds before [] Hne Hds (or_introl eq_refl) Heq)
      as (stem & ds' & nl' & H1 & H2 & H3 & H4 & H5).
    rewrite app_nil_r in H5. exists stem, ds', nl'. auto.
Qed.


(** ** The federal loader: names, references and missing keys *)

Lemma zsum_app l1 l2 : zsum (l1 ++ l2) = zsum l1 + zsum l2.
Proof.
  unfold zsum. induction l1 as [|x l1 IH]; cbn [app foldr]; [lia|].
  rewrite IH. lia.
Qed.

Lemma zsum_snoc l x : zsum (l ++ [x]) = zsum l + x.
Proof. rewrite zsum_app. unfold zsum. cbn [foldr]. lia. Qed.

Lemma length_filter_complement {A} (P : A -> Prop)
    `{forall x, Decision (P x)} (l : list A) :
  (length (filter P l) + length (filter (fun x => ~ P x) l))%nat = length l.
Proof.
  induction l as [|x l IH]; [reflexivity|].
  destruct (decide (P x)) as [Hx|Hx].
  - rewrite filter_cons_True, (filter_cons_False (fun x => ~ P x)) by tauto.
    simpl. lia.
  - rewrite filter_cons_False, (filter_cons_True (fun x => ~ P x)) by tauto.
    simpl. lia.
Qed.

Lemma last_index_from_snoc name l a : forall i,
  last_index_from name i (l ++ [a])
  = if named name a then Some (i + length l)%nat else last_index_from name i l.
Proof.
  induction l as [|b l IH]; intros i; cbn [app last_index_from length].
  - rewrite Nat.add_0_r. reflexivity.
  - rewrite IH. destruct (named name a); [|reflexivity].
    f_equal. lia.
Qed.

Lemma last_index_from_in name l : forall i a,
  a ∈ l -> named name a = true -> is_Some (last_index_from name i l).
Proof.
  induction l as [|b l IH]; intros i a Hin Hn; [inversion Hin|].
  cbn [last_index_from]. apply elem_of_cons in Hin as [<-|Hin].
  - destruct (last_index_from name (S i) l); [eauto|]. rewrite Hn. eauto.
  - destruct (IH (S i) a Hin Hn) as [j ->]. eauto.
Qed.

Lemma last_index_from_named name l : forall i j,
  last_index_from name i l = Some j ->
  exists a, a ∈ l /\ named name a = true.
Proof.
  induction l as [|b l IH]; intros i j; cbn [last_index_from]; [discriminate|].
  destruct (last_index_from name (S i) l) as [k|] eqn:Hk.
  - intros _. destruct (IH _ _ Hk) as (a & Ha & Hn).
    exists a. split; [now apply elem_of_cons; right | exact Hn].
  - destruct (named name b) eqn:Hb; [|discriminate]. intros _.
    exists b. split; [now apply elem_of_cons; left | exact Hb].
Qed.

Lemma incomplete_chunk articles a c :
  a ∈ articles -> c ∈ default [] (Federal.sub_chunks a) ->
  ~ complete_chunk c ->
  ~ Forall complete_chunk (federal_chunks articles).
Proof.
  intros Ha Hc Hn HF. apply Hn.
  rewrite Forall_forall in HF. apply HF.
  unfold federal_chunks. apply list_elem_of_In, in_flat_map.
  exists a. split; apply list_elem_of_In; assumption.
Qed.

Section FederalRun.
Variable uuid : Type.
Variable new_uuid : nat -> uuid.
Variable doc : string.
Variable articles : list Federal.article_data.

Lemma federal_step1_body pre a post :
  articles = pre ++ a :: post ->
  triple (federal_step1 new_uuid pre)
         (Federal.article_step uuid new_uuid doc a)
         (fun _ => federal_step1 new_uuid (pre ++ [a]))
         (federal_error articles).
Proof.
  intros Hl s [Hu Ha Hc Hb Hn].
  assert (Hbad : ~ complete_article a -> ~ Forall complete_article articles).
  { intros Hi HF. apply Hi. rewrite Hl in HF.
    apply Forall_app in HF as [_ HF]. now inversion HF. }
  unfold Federal.article_step, Federal.field, bind.
  destruct (Federal.full_content a) as [content|] eqn:Hcontent; simpl.
  2: { left. split; [left; reflexivity|]. split; [assumption|].
       apply Hbad. intros [[x Hx] _]. congruence. }
  destruct (Federal.article_name a) as [name|] eqn:Hname; simpl.
  2: { left. split; [right; reflexivity|]. split; [assumption|].
       apply Hbad. intros [_ [x Hx]]. congruence. }
  constructor; simpl; try assumption.
  - intros name'. rewrite last_index_from_snoc, Ha. unfold named.
    rewrite Hname. destruct (decide (name' = name)) as [->|Hne].
    + rewrite lookup_insert_eq, bool_decide_eq_true_2 by reflexivity.
      reflexivity.
    + rewrite lookup_insert_ne by congruence.
      rewrite bool_decide_eq_false_2 by congruence. apply Hu.
  - rewrite !length_app. simpl. lia.
  - apply Forall_app. split; [assumption|].
    constructor; [|constructor]. split; [rewrite Hcontent | rewrite Hname]; eauto.
Qed.

Lemma federal_chunk_body name u base a cs c post :
  a ∈ articles ->
  default [] (Federal.sub_chunks a) = cs ++ c :: post ->
  triple (chunks_inv new_uuid articles name u base cs)
         (Federal.chunk_step uuid doc name u c)
         (fun _ => chunks_inv new_uuid articles name u base (cs ++ [c]))
         (federal_error articles).
Proof.
  intros Ha Hl s (Hu & Hn & Hb & Hc & Hcs).
  assert (Hbad : ~ complete_chunk c ->
                 ~ Forall complete_chunk (federal_chunks articles)).
  { apply (incomplete_chunk articles a c Ha). rewrite Hl.
    apply elem_of_app. right. now left. }
  unfold Federal.chunk_step, Federal.item, bind.
  destruct (Py.lookup "content" c) as [content|] eqn:Hcontent; simpl.
  2: { right. split; [left; reflexivity|]. split; [assumption|].
       apply Hbad. intros [[x Hx] _]. congruence. }
  destruct (Py.lookup "start_offset" c) as [offset|] eqn:Hoffset; simpl.
  2: { right. split; [right; reflexivity|]. split; [assumption|].
       apply Hbad. intros [_ [x Hx]]. congruence. }
  unfold chunks_inv.
  cbn [Federal.chunk_batch Federal.article_batch Federal.article_uuids
       Federal.chunk_count].
  split; [assumption|]. split; [assumption|].
  split; [|split].
  - rewrite !fmap_app, Hb, <- app_assoc. reflexivity.
  - rewrite length_app, Hc. simpl. lia.
  - apply Forall_app. split; [assumption|].
    constructor; [|constructor].
    split; [rewrite Hcontent | rewrite Hoffset]; eauto.
Qed.

Lemma federal_step2_body pre a post :
  articles = pre ++ a :: post ->
  Forall complete_article articles ->
  triple (fun s => federal_step2 new_uuid articles pre s
                   /\ Forall complete_chunk (federal_chunks pre))
         (Federal.chunks_of_article uuid doc a)
         (fun _ s => federal_step2 new_uuid articles (pre ++ [a]) s
                     /\ Forall complete_chunk (federal_chunks (pre ++ [a])))
         (federal_error articles).
Proof.
  intros Hl Hall s [[Hu Hn Hb Hc] Hcs].
  assert (Ha : a ∈ articles)
    by (rewrite Hl; apply elem_of_app; right; now left).
  destruct (proj1 (Forall_forall _ _) Hall a Ha) as [_ [name Hname]].
  destruct (last_index_from_in name articles 0 a Ha) as [j Hj].
  { unfold named. now rewrite Hname, bool_decide_eq_true_2. }
  unfold Federal.chunks_of_article, Federal.field, bind.
  rewrite Hname. cbn [ret]. rewrite Hu, Hj. cbn [fmap option_fmap option_map].
  pose proof (triple_for_each_in
                (chunks_inv new_uuid articles name (new_uuid j)
                   (name_and_reference <$> Federal.chunk_batch uuid s))
                (Federal.chunk_step uuid doc name (new_uuid j))
                (federal_error articles)
                (default [] (Federal.sub_chunks a))
                (fun cs c post' Hcs' =>
                   federal_chunk_body name (new_uuid j) _ a cs c post' Ha Hcs')
                s) as Hloop.
  assert (H0 : chunks_inv new_uuid articles name (new_uuid j)
                 (name_and_reference <$> Federal.chunk_batch uuid s) [] s).
  { split; [assumption|]. split; [assumption|].
    split; [cbn; now rewrite app_nil_r|]. split; [assumption | constructor]. }
  specialize (Hloop H0).
  destruct (for_each (default [] (Federal.sub_chunks a)) _ s)
    as [[[]|e] s'].
  - destruct Hloop as (Hu' & Hn' & Hb' & Hc' & Hcs').
    split; [constructor; try assumption|].
    + rewrite Hb', Hb, flat_map_app. cbn [flat_map].
      rewrite app_nil_r. unfold federal_parent.
      rewrite Hname, Hj. reflexivity.
    + unfold federal_chunks. rewrite flat_map_app. cbn [flat_map].
      rewrite app_nil_r. apply Forall_app. split; assumption.
  - exact Hloop.
Qed.

(** The whole of [populate_collections_batch]. *)
Lemma federal_run :
  match Federal.populate_collections_batch uuid new_uuid doc articles with
  | (Ret _, s) =>
      federal_step2 new_uuid articles articles s
      /\ Forall complete_article articles
      /\ Forall complete_chunk (federal_chunks articles)
  | (Exc e, s) => federal_error articles e s
  end.
Proof.
  unfold Federal.populate_collections_batch, bind.
  pose proof (triple_for_each_in (federal_step1 new_uuid)
                (Federal.article_step uuid new_uuid doc)
                (federal_error articles) articles
                federal_step1_body (Federal.St uuid [] ∅ [] 0)) as H1.
  assert (H0 : federal_step1 new_uuid [] (Federal.St uuid [] ∅ [] 0))
    by (constructor;
        first [reflexivity | constructor | intros name; apply lookup_empty]).
  specialize (H1 H0).
  destruct (for_each articles (Federal.article_step uuid new_uuid doc)
              (Federal.St uuid [] ∅ [] 0)) as [[[]|e] s1]; [|exact H1].
  destruct H1 as [Hu Ha Hc Hb Hn].
  pose proof (triple_for_each_in
                (fun pre s => federal_step2 new_uuid articles pre s
                              /\ Forall complete_chunk (federal_chunks pre))
                (Federal.chunks_of_article uuid doc)
                (federal_error articles) articles
                (fun pre a post Hl => federal_step2_body pre a post Hl Hc)
                s1) as H2.
  assert (H0' : federal_step2 new_uuid articles [] s1
                /\ Forall complete_chunk (federal_chunks [])).
  { split; [constructor; try assumption | constructor].
    - rewrite Hb. reflexivity.
    - rewrite Hn, Hb. reflexivity. }
  specialize (H2 H0').
  destruct (for_each articles (Federal.chunks_of_article uuid doc) s1)
    as [[[]|e] s2]; [|exact H2].
  destruct H2 as [H2 Hcs]. split; [assumption|]. split; assumption.
Qed.

End FederalRun.

Lemma length_chunk_descriptions {B} (f : Federal.article_data -> B) l :
  length (flat_map (fun a => (fun _ : Federal.chunk => f a)
                               <$> default [] (Federal.sub_chunks a)) l)
  = length (federal_chunks l).
Proof.
  unfold federal_chunks. induction l as [|a l IH]; [reflexivity|].
  cbn [flat_map]. rewrite !length_app, length_fmap, IH. reflexivity.
Qed.

(** X14.  When the federal loader returns, the chunk objects are, in the
    order of the file, one for every sub-chunk of every article; each
    carries the name of its article and a reference to the identifier
    returned for the LAST article of the file that has this name.  So when
    a name occurs twice, the chunks of the earlier article point to the
    later one. *)
Theorem federal_chunks_reference_last_article_of_name
    (uuid : Type) (new_uuid : nat -> uuid) doc articles s :
  Federal.populate_collections_batch uuid new_uuid doc articles = (Ret tt, s) ->
  name_and_reference <$> Federal.chunk_batch uuid s
  = flat_map (fun a =>
                (fun _ => (JStr <$> Federal.article_name a,
                           federal_parent new_uuid articles a))
                  <$> default [] (Federal.sub_chunks a)) articles.
Proof.
  intros Hrun. pose proof (federal_run uuid new_uuid doc articles) as H.
  rewrite Hrun in H. destruct H as [[_ _ Hb _] _]. exact Hb.
Qed.

Lemma federal_chunks_reference_last_article_of_name_witness :
  let s := (Federal.populate_collections_batch nat id "CFR-2024-title48"
              federal_same_name).2 in
  name_and_reference <$> Federal.chunk_batch nat s
  = flat_map (fun a =>
                (fun _ => (JStr <$> Federal.article_name a,
                           federal_parent id federal_same_name a))
                  <$> default [] (Federal.sub_chunks a)) federal_same_name.
Proof.
  intros s.
  apply (federal_chunks_reference_last_article_of_name nat id
           "CFR-2024-title48" federal_same_name s).
  vm_compute. reflexivity.
Defined.

Lemma federal_counts {uuid : Type} (new_uuid : nat -> uuid) articles s :
  federal_step2 new_uuid articles articles s ->
  size (Federal.article_uuids uuid s)
  = length (remove_dups (article_names articles))
  /\ length (Federal.article_batch uuid s) = length articles
  /\ Federal.chunk_count uuid s = Z.of_nat (length (federal_chunks articles)).
Proof.
  intros [Hu Ha Hb Hc].
  split; [|split; [exact Ha|]].
  - rewrite <- (size_dom (D := gset string)).
    rewrite <- (size_list_to_set (C := gset string))
      by apply NoDup_remove_dups.
    f_equal. apply set_eq. intros name.
    rewrite elem_of_dom, elem_of_list_to_set, elem_of_remove_dups, Hu.
    unfold article_names. rewrite list_elem_of_omap. split.
    + intros [u Hj].
      destruct (last_index_from name 0 articles) as [j|] eqn:Hl;
        [|discriminate].
      destruct (last_index_from_named _ _ _ _ Hl) as (a & Hin & Hn).
      exists a. split; [assumption|].
      unfold named in Hn. now apply bool_decide_eq_true in Hn.
    + intros (a & Hin & Hn).
      destruct (last_index_from_in name articles 0 a Hin) as [j ->];
        [|eauto].
      unfold named. now apply bool_decide_eq_true.
  - rewrite Hc. f_equal.
    apply (f_equal length) in Hb.
    rewrite length_fmap, length_chunk_descriptions in Hb. exact Hb.
Qed.

(** X15.  When the federal loader returns, it has added one article object
    for every article of the file, but the number of articles it returns
    is the number of distinct article names; the number of chunks it
    returns is the number of sub-chunks of the file. *)
Theorem federal_returns_number_of_distinct_names
    (uuid : Type) (new_uuid : nat -> uuid) doc articles s :
  Federal.populate_collections_batch uuid new_uuid doc articles = (Ret tt, s) ->
  size (Federal.article_uuids uuid s)
  = length (remove_dups (article_names articles))
  /\ length (Federal.article_batch uuid s) = length articles
  /\ Federal.chunk_count uuid s = Z.of_nat (length (federal_chunks articles)).
Proof.
  intros Hrun. pose proof (federal_run uuid new_uuid doc articles) as H.
  rewrite Hrun in H. destruct H as [H _].
  exact (federal_counts new_uuid articles s H).
Qed.

Lemma federal_returns_number_of_distinct_names_witness :
  let s := (Federal.populate_collections_batch nat id "CFR-2024-title48"
              federal_same_name).2 in
  size (Federal.article_uuids nat s)
  = length (remove_dups (article_names federal_same_name))
  /\ length (Federal.article_batch nat s) = length federal_same_name
  /\ Federal.chunk_count nat s
     = Z.of_nat (length (federal_chunks federal_same_name)).
Proof.
  intros s.
  apply (federal_returns_number_of_distinct_names nat id
           "CFR-2024-title48" federal_same_name s).
  vm_compute. reflexivity.
Defined.

(** X16.  The federal loader returns only when every article of the file
    has the keys [full_content] and [article_name] and every sub-chunk has
    the keys [content] and [start_offset]: the four values are read with
    [[]], no default stands for a missing one. *)
Theorem federal_returns_only_with_all_keys
    (uuid : Type) (new_uuid : nat -> uuid) doc articles s :
  Federal.populate_collections_batch uuid new_uuid doc articles = (Ret tt, s) ->
  Forall complete_article articles
  /\ Forall complete_chunk (federal_chunks articles).
Proof.
  intros Hrun. pose proof (federal_run uuid new_uuid doc articles) as H.
  rewrite Hrun in H. destruct H as (_ & Ha & Hc). split; assumption.
Qed.

Lemma federal_returns_only_with_all_keys_witness :
  Forall complete_article federal_same_name
  /\ Forall complete_chunk (federal_chunks federal_same_name).
Proof.
  apply (federal_returns_only_with_all_keys nat id "CFR-2024-title48"
           federal_same_name
           (Federal.populate_collections_batch nat id "CFR-2024-title48"
              federal_same_name).2).
  vm_compute. reflexivity.
Defined.

(** X17.  When the federal loader stops on the [KeyError] of a key of an
    article ([full_content] or [article_name]), the key is missing in an
    article and the exception comes from step 1: no chunk object has been
    added.  When it stops on the [KeyError] of a key of a sub-chunk
    ([content] or [start_offset]), the key is missing in a sub-chunk and
    the exception comes from step 2: every article object has been
    added. *)
Theorem federal_key_error_tells_the_step
    (uuid : Type) (new_uuid : nat -> uuid) doc articles s :
  ((Federal.populate_collections_batch uuid new_uuid doc articles
    = (Exc (KeyError "full_content"), s)
    \/ Federal.populate_collections_batch uuid new_uuid doc articles
       = (Exc (KeyError "article_name"), s)) ->
   Federal.chunk_batch uuid s = []
   /\ ~ Forall complete_article articles)
  /\ ((Federal.populate_collections_batch uuid new_uuid doc articles
       = (Exc (KeyError "content"), s)
       \/ Federal.populate_collections_batch uuid new_uuid doc articles
          = (Exc (KeyError "start_offset"), s)) ->
      length (Federal.article_batch uuid s) = length articles
      /\ ~ Forall complete_chunk (federal_chunks articles)).
Proof.
  pose proof (federal_run uuid new_uuid doc articles) as H.
  split; intros [Hrun|Hrun]; rewrite Hrun in H;
    destruct H as [([He|He] & H1 & H2)|([He|He] & H1 & H2)];
    try discriminate He; split; assumption.
Qed.

Lemma federal_key_error_tells_the_step_witness :
  let s := (Federal.populate_collections_batch nat id "CFR-2024-title48"
              federal_missing_name).2 in
  Federal.chunk_batch nat s = []
  /\ ~ Forall complete_article federal_missing_name.
Proof.
  intros s.
  apply (proj1 (federal_key_error_tells_the_step nat id "CFR-2024-title48"
                  federal_missing_name s)).
  right. vm_compute. reflexivity.
Defined.


(** What a file of the federal loader gives. *)
Lemma federal_outcome (uuid : Type) (new_uuid : nat -> uuid) doc articles :
  match Federal.populate_collections_batch uuid new_uuid doc articles with
  | (Ret _, s) =>
      federal_file_ok (Some articles)
      /\ (Z.of_nat (size (Federal.article_uuids uuid s)),
          Federal.chunk_count uuid s)
         = federal_file_counts (Some articles)
  | (Exc _, _) => ~ federal_file_ok (Some articles)
  end.
Proof.
  pose proof (federal_run uuid new_uuid doc articles) as H.
  destruct (Federal.populate_collections_batch uuid new_uuid doc articles)
    as [[[]|e] s].
  - destruct H as (H2 & Ha & Hc).
    destruct (federal_counts new_uuid articles s H2) as (Hn & _ & Hk).
    split; [split; assumption|].
    unfold federal_file_counts.
    rewrite decide_True by (split; assumption). now rewrite Hn, Hk.
  - intros [Ha Hc]. destruct H as [(_ & _ & Hn)|(_ & _ & Hn)]; contradiction.
Qed.

Section FederalFilesFacts.
Variable uuid : Type.
Variable new_uuid : nat -> nat -> uuid.

Lemma federal_files_fold files :
  let t := foldl (FederalFiles.file_step uuid new_uuid)
                 (FederalFiles.Totals 0 0 0 []) (enumerate files) in
  FederalFiles.total_articles t
  = zsum ((fun f => (federal_file_counts f.2).1) <$> files)
  /\ FederalFiles.total_chunks t
     = zsum ((fun f => (federal_file_counts f.2).2) <$> files)
  /\ FederalFiles.processed_files t
     = Z.of_nat (length (filter (fun f => federal_file_ok f.2) files))
  /\ FederalFiles.failed_files t
     = (filter (fun f => ~ federal_file_ok f.2) files).*1.
Proof.
  induction files as [|[name content] files IH] using rev_ind;
    [repeat split|].
  rewrite enumerate_snoc, foldl_app. cbn [foldl]. cbv zeta in IH.
  set (t := foldl _ _ (enumerate files)) in *.
  destruct IH as (Ha & Hc & Hp & Hf).
  rewrite !fmap_app, !filter_app, fmap_app, !length_app.
  cbn [fmap list_fmap]. rewrite !zsum_snoc.
  unfold FederalFiles.file_step.
  destruct content as [articles|].
  - pose proof (federal_outcome uuid (new_uuid (length files))
                  (FederalFiles.sanitize_document_name (FederalFiles.stem name)) articles) as Hd.
    destruct (Federal.populate_collections_batch uuid
                (new_uuid (length files))
                (FederalFiles.sanitize_document_name (FederalFiles.stem name)) articles)
      as [[[]|e] s].
    + destruct Hd as [Hok Hcounts].
      rewrite filter_cons_True by exact Hok.
      rewrite (filter_cons_False (fun f => ~ federal_file_ok f.2))
        by (cbn; tauto).
      rewrite !filter_nil. cbn [fst snd] in *.
      rewrite <- Hcounts.
      cbn -[Z.of_nat Z.add zsum]. rewrite ?app_nil_r.
      rewrite Ha, Hc, Hp. repeat split; try lia. exact Hf.
    + rewrite filter_cons_False by exact Hd.
      rewrite (filter_cons_True (fun f => ~ federal_file_ok f.2))
        by exact Hd.
      rewrite !filter_nil. cbn [fst snd].
      assert (federal_file_counts (Some articles) = (0, 0)) as ->
        by (unfold federal_file_counts; now rewrite decide_False).
      cbn -[Z.of_nat Z.add zsum]. rewrite ?app_nil_r.
      rewrite Ha, Hc, Hp, Hf. repeat split; lia.
  - rewrite filter_cons_False by (cbn; tauto).
    rewrite (filter_cons_True (fun f => ~ federal_file_ok f.2))
      by (cbn; tauto).
    rewrite !filter_nil.
    cbn -[Z.of_nat Z.add zsum]. rewrite ?app_nil_r.
    rewrite Ha, Hc, Hp, Hf. repeat split; lia.
Qed.

End FederalFilesFacts.

(** X20.  [process_all_json_files] of the federal loader prints nothing
    but a warning when the directory has no file.  Otherwise it never
    stops on a file: when [populate_collections_batch] raises on a file,
    for a missing key or for any other cause, the name of the file
    ([json_file.name]) is listed as failed and the loop goes on.  Every
    file is counted as processed or listed as failed, in the order of the
    directory, and the totals are the sums, over the files on which the
    call returns, of the distinct article names and of the sub-chunks:
    what a failed file had added before its exception is not counted. *)
Theorem federal_process_all_json_files_totals
    (uuid : Type) (new_uuid : nat -> nat -> uuid)
    (files : list (string * option (list Federal.article_data))) :
  match FederalFiles.process_all_json_files uuid new_uuid files with
  | None => files = []
  | Some t =>
      files <> []
      /\ FederalFiles.processed_files t
         + Z.of_nat (length (FederalFiles.failed_files t))
         = Z.of_nat (length files)
      /\ FederalFiles.failed_files t
         = (filter (fun f => ~ federal_file_ok f.2) files).*1
      /\ FederalFiles.total_articles t
         = zsum ((fun f => (federal_file_counts f.2).1) <$> files)
      /\ FederalFiles.total_chunks t
         = zsum ((fun f => (federal_file_counts f.2).2) <$> files)
  end.
Proof.
  destruct files as [|f files]; [reflexivity|].
  pose proof (federal_files_fold uuid new_uuid (f :: files)) as H.
  cbv zeta in H. destruct H as (Ha & Hc & Hp & Hf).
  unfold FederalFiles.process_all_json_files.
  split; [discriminate|]. split; [|repeat split; assumption].
  rewrite Hp, Hf, length_fmap.
  pose proof (length_filter_complement
                (fun f : string * option (list Federal.article_data) =>
                   federal_file_ok f.2) (f :: files)).
  lia.
Qed.

Section FederalObjects.
Variable uuid : Type.
Variable new_uuid : nat -> uuid.
Variable doc : string.

Lemma federal_article_objects pre a :
  triple (fun s => Federal.article_batch uuid s
                   = federal_article_object doc <$> pre
                   /\ Federal.chunk_batch uuid s = [])
         (Federal.article_step uuid new_uuid doc a)
         (fun _ s => Federal.article_batch uuid s
                     = federal_article_object doc <$> (pre ++ [a])
                     /\ Federal.chunk_batch uuid s = [])
         (fun _ _ => True).
Proof.
  intros s [Ha Hc]. unfold Federal.article_step, Federal.field, bind.
  destruct (Federal.full_content a) as [content|] eqn:Hcontent;
    simpl; [|exact I].
  destruct (Federal.article_name a) as [name|] eqn:Hname; simpl; [|exact I].
  split; [|assumption]. rewrite Ha, fmap_app. f_equal.
  unfold federal_article_object. cbn [fmap list_fmap].
  rewrite Hcontent, Hname. reflexivity.
Qed.

Lemma federal_chunk_objects (l : list Federal.article_data) a :
  triple (fun s => Federal.article_batch uuid s
                   = federal_article_object doc <$> l
                   /\ Forall (fun b => jfield "document" (properties b)
                                       = Some (JStr doc))
                             (Federal.chunk_batch uuid s))
         (Federal.chunks_of_article uuid doc a)
         (fun _ s => Federal.article_batch uuid s
                     = federal_article_object doc <$> l
                     /\ Forall (fun b => jfield "document" (properties b)
                                         = Some (JStr doc))
                               (Federal.chunk_batch uuid s))
         (fun _ _ => True).
Proof.
  unfold Federal.chunks_of_article.
  eapply triple_bind with
    (R := fun _ s => Federal.article_batch uuid s
                     = federal_article_object doc <$> l
                     /\ Forall (fun b => jfield "document" (properties b)
                                         = Some (JStr doc))
                               (Federal.chunk_batch uuid s)).
  { intros s Hs. unfold Federal.field.
    destruct (Federal.article_name a); simpl; auto. }
  intros name.
  eapply triple_bind with
    (R := fun _ s => Federal.article_batch uuid s
                     = federal_article_object doc <$> l
                     /\ Forall (fun b => jfield "document" (properties b)
                                         = Some (JStr doc))
                               (Federal.chunk_batch uuid s)).
  { intros s Hs.
    destruct (Federal.article_uuids uuid s !! name); simpl; auto. }
  intros u.
  assert (Hbody : forall (pre : list Federal.chunk) c,
    triple (fun s => Federal.article_batch uuid s
                     = federal_article_object doc <$> l
                     /\ Forall (fun b => jfield "document" (properties b)
                                         = Some (JStr doc))
                               (Federal.chunk_batch uuid s))
           (Federal.chunk_step uuid doc name u c)
           (fun _ s => Federal.article_batch uuid s
                       = federal_article_object doc <$> l
                       /\ Forall (fun b => jfield "document" (properties b)
                                           = Some (JStr doc))
                                 (Federal.chunk_batch uuid s))
           (fun _ _ => True)).
  { intros _ c s [Ha Hc]. unfold Federal.chunk_step, Federal.item, bind.
    destruct (Py.lookup "content" c); simpl; [|exact I].
    destruct (Py.lookup "start_offset" c); simpl; [|exact I].
    split; [assumption|]. apply Forall_app. split; [assumption|].
    constructor; [reflexivity | constructor]. }
  apply (triple_for_each
           (fun _ s => Federal.article_batch uuid s
                       = federal_article_object doc <$> l
                       /\ Forall (fun b => jfield "document" (properties b)
                                           = Some (JStr doc))
                                 (Federal.chunk_batch uuid s))
           (Federal.chunk_step uuid doc name u) (fun _ _ => True)
           (default [] (Federal.sub_chunks a)) Hbody []).
Qed.

End FederalObjects.

(** The objects of a run of the federal loader that returns. *)
Lemma federal_objects
    (uuid : Type) (new_uuid : nat -> uuid) doc articles s :
  Federal.populate_collections_batch uuid new_uuid doc articles = (Ret tt, s) ->
  Federal.article_batch uuid s = federal_article_object doc <$> articles
  /\ Forall (fun b => jfield "document" (properties b) = Some (JStr doc))
            (Federal.chunk_batch uuid s).
Proof.
  intros Hrun. unfold Federal.populate_collections_batch in Hrun.
  assert (H : triple
                (fun s => Federal.article_batch uuid s
                          = federal_article_object doc <$> []
                          /\ Federal.chunk_batch uuid s = [])
                (for_each articles (Federal.article_step uuid new_uuid doc) ;;;
                 for_each articles (Federal.chunks_of_article uuid doc))
                (fun _ s =>
                   Federal.article_batch uuid s
                   = federal_article_object doc <$> articles
                   /\ Forall (fun b => jfield "document" (properties b)
                                       = Some (JStr doc))
                             (Federal.chunk_batch uuid s))
                (fun _ _ => True)).
  { eapply triple_bind.
    - apply (triple_for_each
               (fun pre s => Federal.article_batch uuid s
                             = federal_article_object doc <$> pre
                             /\ Federal.chunk_batch uuid s = [])
               (Federal.article_step uuid new_uuid doc) (fun _ _ => True)
               articles (federal_article_objects uuid new_uuid doc) []).
    - intros u. cbn [app].
      eapply triple_conseq;
        [apply (triple_for_each
                  (fun _ s => Federal.article_batch uuid s
                              = federal_article_object doc <$> articles
                              /\ Forall (fun b => jfield "document" (properties b)
                                                  = Some (JStr doc))
                                        (Federal.chunk_batch uuid s))
                  (Federal.chunks_of_article uuid doc) (fun _ _ => True)
                  articles
                  (fun _ a => federal_chunk_objects uuid doc articles a) [])
        | | auto | auto].
      intros s' [Ha Hc]. split; [assumption|]. rewrite Hc. constructor. }
  specialize (H (Federal.St uuid [] ∅ [] 0) (conj eq_refl eq_refl)).
  rewrite Hrun in H. exact H.
Qed.


(** X24.  When the federal loader returns, the article objects are, in the
    order of the file, one for every article, with its content, its name
    and the document name, and without a reference; every chunk object
    carries the same document name.  The document name is the one the
    function is given: the stem of the file name without its volume
    suffix. *)
Theorem federal_objects_carry_document_name
    (uuid : Type) (new_uuid : nat -> uuid) doc articles s :
  Federal.populate_collections_batch uuid new_uuid doc articles = (Ret tt, s) ->
  Federal.article_batch uuid s = federal_article_object doc <$> articles
  /\ Forall (fun b => jfield "document" (properties b) = Some (JStr doc))
            (Federal.chunk_batch uuid s).
Proof. apply federal_objects. Qed.

Lemma federal_objects_carry_document_name_witness :
  let doc := FederalFiles.sanitize_document_name "CFR-2024-title48-vol1" in
  let s := (Federal.populate_collections_batch nat id doc
              federal_same_name).2 in
  Federal.article_batch nat s = federal_article_object doc <$> federal_same_name
  /\ Forall (fun b => jfield "document" (properties b) = Some (JStr doc))
            (Federal.chunk_batch nat s).
Proof.
  intros doc s.
  apply (federal_objects_carry_document_name nat id doc federal_same_name s).
  vm_compute. reflexivity.
Defined.


(** ** The loops over the files *)

Section MxFiles.
Variable uuid : Type.

Lemma mx_populate_counts (new_uuid : nat -> uuid) data :
  (MxPopulate.populate_collections_batch uuid new_uuid data).1.1
  = mx_file_counts (Some data).
Proof.
  set (articles := default [] (MxPopulate.articles data)).
  destruct (step1_summary uuid new_uuid
              (default "" (MxPopulate.document_name data)) articles)
    as (_ & _ & Hu & Hi & _).
  destruct (step2_summary uuid (default "" (MxPopulate.Tipo data))
              (default "" (MxPopulate.document_name data)) _
              (parent_uuid new_uuid articles) articles Hu) as [_ Hn].
  unfold MxPopulate.populate_collections_batch, mx_file_counts, mx_chunks.
  cbn [fst snd]. fold articles. f_equal; assumption.
Qed.

Variable new_uuid : nat -> nat -> uuid.

Lemma mx_files_fold files :
  let t := foldl (MxPopulateFiles.file_step uuid new_uuid)
                 (MxPopulateFiles.Totals 0 0 0 []) (enumerate files) in
  MxPopulateFiles.total_articles t
  = zsum ((fun f => (mx_file_counts f.2).1) <$> files)
  /\ MxPopulateFiles.total_chunks t
     = zsum ((fun f => (mx_file_counts f.2).2) <$> files)
  /\ MxPopulateFiles.processed_files t
     + Z.of_nat (length (raising files)) = Z.of_nat (length files)
  /\ MxPopulateFiles.failed_files t = raising files.
Proof.
  induction files as [|[name content] files IH] using rev_ind;
    [repeat split|].
  rewrite enumerate_snoc, foldl_app. cbn [foldl]. cbv zeta in IH.
  set (t := foldl _ _ (enumerate files)) in *.
  destruct IH as (Ha & Hc & Hp & Hf).
  unfold raising in *.
  rewrite !fmap_app, filter_app, fmap_app, !length_app.
  cbn [fmap list_fmap]. rewrite !zsum_snoc.
  unfold MxPopulateFiles.file_step.
  destruct content as [data|].
  - pose proof (mx_populate_counts (new_uuid (length files)) data) as Hd.
    destruct (MxPopulate.populate_collections_batch uuid
                (new_uuid (length files)) data) as [[[a c] s1] s2].
    cbn [fst snd] in Hd. injection Hd as -> ->.
    rewrite filter_cons_False by (cbn; congruence). rewrite filter_nil.
    cbn -[mx_file_counts kept mx_chunks Z.of_nat Z.add].
    rewrite !app_nil_r.
    rewrite Ha, Hc. repeat split; try lia. exact Hf.
  - rewrite filter_cons_True by reflexivity. rewrite filter_nil.
    cbn -[Z.of_nat Z.add zsum].
    rewrite Ha, Hc, Hf. repeat split; lia.
Qed.

End MxFiles.

Lemma process_all_json_files_sums
    (uuid : Type) (new_uuid : nat -> nat -> uuid)
    (files : list (string * option MxPopulate.file_data)) :
  let r := MxPopulateFiles.process_all_json_files uuid new_uuid files in
  r.1 = (zsum ((fun f => (mx_file_counts f.2).1) <$> files),
         zsum ((fun f => (mx_file_counts f.2).2) <$> files))
  /\ MxPopulateFiles.processed_files r.2
     + Z.of_nat (length (MxPopulateFiles.failed_files r.2))
     = Z.of_nat (length files)
  /\ MxPopulateFiles.failed_files r.2 = raising files.
Proof.
  destruct files as [|f files]; [repeat split|].
  pose proof (mx_files_fold uuid new_uuid (f :: files)) as H.
  cbv zeta in H. destruct H as (Ha & Hc & Hp & Hf).
  unfold MxPopulateFiles.process_all_json_files. cbv zeta. cbn [fst snd].
  rewrite Ha, Hc, Hf. repeat split. exact Hp.
Qed.

(** X18.  [process_all_json_files] of [mx/populateCollection.py] never
    stops on a file: when [populate_collections_batch] raises on a file,
    whatever the exception, the name of the file is listed as failed and
    the loop goes on.  Every file is counted as processed or listed as
    failed, the failed files are listed in the order of the directory, and
    the two totals returned are the sums, over the files on which the call
    returns, of the articles that are not blank and of the sub-chunks.
    With no file at all the function returns (0, 0). *)
Theorem process_all_json_files_totals
    (uuid : Type) (new_uuid : nat -> nat -> uuid)
    (files : list (string * option MxPopulate.file_data)) :
  let r := MxPopulateFiles.process_all_json_files uuid new_uuid files in
  r.1 = (zsum ((fun f => (mx_file_counts f.2).1) <$> files),
         zsum ((fun f => (mx_file_counts f.2).2) <$> files))
  /\ MxPopulateFiles.processed_files r.2
     + Z.of_nat (length (MxPopulateFiles.failed_files r.2))
     = Z.of_nat (length files)
  /\ MxPopulateFiles.failed_files r.2 = raising files.
Proof. apply process_all_json_files_sums. Qed.

Lemma all_directories_fold (uuid : Type) (new_uuid : nat -> nat -> uuid)
    dirs : forall acc,
  foldl (fun acc json_files =>
           let '(dir_articles, dir_chunks) :=
             (MxPopulateFiles.process_all_json_files uuid new_uuid
                json_files).1 in
           (acc.1 + dir_articles, acc.2 + dir_chunks)) acc dirs
  = (acc.1 + zsum ((fun f => (mx_file_counts f.2).1) <$> concat dirs),
     acc.2 + zsum ((fun f => (mx_file_counts f.2).2) <$> concat dirs)).
Proof.
  induction dirs as [|d dirs IH]; intros [a c]; cbn [foldl concat].
  - cbn. f_equal; lia.
  - destruct (process_all_json_files_sums uuid new_uuid d) as [Hd _].
    rewrite Hd, IH. cbn [fst snd]. rewrite !fmap_app, !zsum_app.
    f_equal; lia.
Qed.

(** X19.  The overall totals of the script [mx/populateCollection.py] do
    not depend on how the files are spread over the directories: they are
    the totals of one directory that holds all the files; an empty
    directory adds nothing. *)
Theorem all_directories_is_one_directory
    (uuid : Type) (new_uuid : nat -> nat -> uuid)
    (dirs : list (list (string * option MxPopulate.file_data))) :
  MxPopulateFiles.all_directories uuid new_uuid dirs
  = (MxPopulateFiles.process_all_json_files uuid new_uuid (concat dirs)).1.
Proof.
  unfold MxPopulateFiles.all_directories. rewrite all_directories_fold.
  destruct (process_all_json_files_sums uuid new_uuid (concat dirs))
    as [-> _].
  cbn [fst snd]. f_equal; lia.
Qed.

(** ** The counters of [populate_collections_batch] of
    [mx/populateCollection.py] *)

Section MxCounters.
Variable uuid : Type.
Variables (tipo doc : string).

Lemma chunk_steps_counters (u : option uuid) cs : forall s,
  let s' := foldl (MxPopulate.chunk_step uuid tipo doc u) s cs in
  MxPopulate.chunks_with_reference uuid s'
  = MxPopulate.chunks_with_reference uuid s
    + match u with Some _ => Z.of_nat (length cs) | None => 0 end
  /\ MxPopulate.chunks_without_reference uuid s'
     = MxPopulate.chunks_without_reference uuid s
       + match u with Some _ => 0 | None => Z.of_nat (length cs) end.
Proof.
  induction cs as [|c cs IH]; intros s; cbn [foldl].
  - destruct u; cbn; lia.
  - destruct (IH (MxPopulate.chunk_step uuid tipo doc u s c)) as [Hw Hn].
    cbv zeta in Hw, Hn. cbv zeta. rewrite Hw, Hn.
    unfold MxPopulate.chunk_step. destruct u; cbn [length
      MxPopulate.chunks_with_reference MxPopulate.chunks_without_reference];
      lia.
Qed.

Lemma step2_counters (uuids : gmap nat (option uuid))
    (expected : nat -> MxPopulate.article_data -> option uuid)
    (l : list MxPopulate.article_data) :
  (forall i a, l !! i = Some a -> uuids !! i = Some (expected i a)) ->
  (forall i a, l !! i = Some a ->
     expected i a = None <-> blank a = true) ->
  let s := foldl (MxPopulate.chunks_of_article uuid tipo doc uuids)
                 (MxPopulate.Step2 uuid [] 0 0 0) (enumerate l) in
  MxPopulate.chunks_with_reference uuid s
  = Z.of_nat (length (mx_chunks (kept l)))
  /\ MxPopulate.chunks_with_reference uuid s
     + MxPopulate.chunks_without_reference uuid s
     = Z.of_nat (length (mx_chunks l)).
Proof.
  induction l as [|a l IH] using rev_ind; intros Hu He.
  - cbn. split; reflexivity.
  - rewrite enumerate_snoc, foldl_app. cbn [foldl].
    assert (Hu' : forall i b, l !! i = Some b -> uuids !! i = Some (expected i b)).
    { intros i b Hib. apply Hu. rewrite lookup_app_l; [assumption|].
      now apply lookup_lt_Some in Hib. }
    assert (He' : forall i b, l !! i = Some b ->
              expected i b = None <-> blank b = true).
    { intros i b Hib. apply He. rewrite lookup_app_l; [assumption|].
      now apply lookup_lt_Some in Hib. }
    specialize (IH Hu' He'). cbv zeta in IH.
    set (s := foldl _ _ (enumerate l)) in *. destruct IH as [Hw Hs].
    assert (Hla : (l ++ [a]) !! length l = Some a)
      by (apply list_lookup_middle; reflexivity).
    unfold kept, mx_chunks in *.
    rewrite filter_app, !flat_map_app, !length_app.
    cbn [flat_map]. rewrite app_nil_r.
    unfold MxPopulate.chunks_of_article.
    rewrite (Hu (length l) a Hla). cbn [mjoin option_join].
    destruct (chunk_steps_counters (expected (length l) a)
                (default [] (MxPopulate.sub_chunks a)) s) as [Hw' Hn'].
    cbv zeta in Hw', Hn'.
    pose proof (He (length l) a Hla) as Hb.
    assert (Hf : filter (fun a => blank a = false) [a]
                 = if blank a then [] else [a]).
    { destruct (blank a) eqn:Hblank.
      - now rewrite filter_cons_False by (rewrite Hblank; discriminate).
      - now rewrite filter_cons_True by exact Hblank. }
    rewrite Hf.
    assert (Hcases : (blank a = true /\ expected (length l) a = None)
                     \/ (blank a = false
                         /\ exists u, expected (length l) a = Some u)).
    { destruct (expected (length l) a) as [u|], (blank a);
        try (left; split; reflexivity); try (right; split; eauto).
      - destruct Hb as [_ Hb]. discriminate (Hb eq_refl).
      - destruct Hb as [Hb _]. discriminate (Hb eq_refl). }
    destruct (default [] (MxPopulate.sub_chunks a)) as [|c cs] eqn:Hcs.
    + destruct Hcases as [[-> _]|[-> _]]; cbn [flat_map];
        rewrite ?Hcs, ?app_nil_r; cbn [length]; split; lia.
    + cbv beta iota. rewrite Hw', Hn'.
      destruct Hcases as [[-> ->]|[-> [u ->]]]; cbn [flat_map];
        rewrite ?Hcs, ?app_nil_r; cbn [length]; split; lia.
Qed.

End MxCounters.

(** X21.  The counters that [populate_collections_batch] of
    [mx/populateCollection.py] prints add up: every article is counted as
    inserted or as skipped, every chunk as with or as without a reference,
    and the chunks with a reference are the sub-chunks of the articles
    that are not blank. *)
Theorem populate_counters_add_up (uuid : Type) (new_uuid : nat -> uuid) data :
  let articles := default [] (MxPopulate.articles data) in
  let r := MxPopulate.populate_collections_batch uuid new_uuid data in
  MxPopulate.inserted_articles uuid r.1.2 + MxPopulate.skipped_articles uuid r.1.2
  = Z.of_nat (length articles)
  /\ MxPopulate.chunks_with_reference uuid r.2
     + MxPopulate.chunks_without_reference uuid r.2
     = MxPopulate.chunk_count uuid r.2
  /\ MxPopulate.chunks_with_reference uuid r.2
     = Z.of_nat (length (mx_chunks (kept articles))).
Proof.
  intros articles r.
  destruct (step1_summary uuid new_uuid
              (default "" (MxPopulate.document_name data)) articles)
    as (_ & _ & Hu & Hi & Hs).
  destruct (step2_summary uuid (default "" (MxPopulate.Tipo data))
              (default "" (MxPopulate.document_name data)) _
              (parent_uuid new_uuid articles) articles Hu) as [_ Hn].
  destruct (step2_counters uuid (default "" (MxPopulate.Tipo data))
              (default "" (MxPopulate.document_name data)) _
              (parent_uuid new_uuid articles) articles Hu) as [Hw Hsum].
  { intros i a _. unfold parent_uuid. destruct (blank a); split; congruence. }
  unfold r, MxPopulate.populate_collections_batch. cbn [fst snd].
  fold articles. rewrite Hi, Hs, Hsum, Hn, Hw.
  unfold mx_chunks. repeat split; lia.
Qed.


(** ** The two-phase loaders: the claim *)

(** The claim C4 fails on [us/federal/populateCollections.py]: an article
    whose content is empty is added to the batch of the articles like any
    other, and its chunk is added with a reference to it. *)
Lemma federal_inserts_empty_article_counterexample :
  let r := Federal.populate_collections_batch nat id "CFR-2024-title48"
                                              federal_empty_article in
  r.1 = Ret tt
  /\ (properties <$> Federal.article_batch nat r.2)
     = [JDict [("content", JStr ""); ("article", JStr "Sec. 1");
               ("document", JStr "CFR-2024-title48")]]
  /\ (source_article <$> Federal.chunk_batch nat r.2) = [Some 0%nat].
Proof. vm_compute. repeat split. Qed.

(** C4, amended.  In [mx/populateCollection.py]: step 1 adds the articles
    whose content is not blank (not empty once stripped), in the order of
    the file, each without a reference, and records under the index of
    every article the identifier returned for it, or [None] when the
    article is blank; step 2 adds every chunk of every article, in the
    order of the file, with the reference to the identifier of its parent
    when the parent is not blank and without a reference when it is: the
    identifier is read with [get] under an index that step 1 has always
    recorded, so the chunks of a skipped article raise nothing; the
    function returns the number of articles added and the number of
    chunks.  [us/federal/populateCollections.py] makes no such test: when
    it returns, it has added every article of the file, whatever its
    content, and every chunk object carries the name of its article and a
    reference to the identifier recorded under that name. *)
Theorem chunk_reference_follows_parent (uuid : Type) (new_uuid : nat -> uuid) :
  (forall data,
     let articles := default [] (MxPopulate.articles data) in
     let doc := default "" (MxPopulate.document_name data) in
     let tipo := default "" (MxPopulate.Tipo data) in
     let r := MxPopulate.populate_collections_batch uuid new_uuid data in
     ((fun b => jfield "content" (properties b))
        <$> MxPopulate.article_batch uuid r.1.2)
     = ((fun a => Some (JStr (default "" (MxPopulate.full_content a))))
          <$> kept articles)
     /\ Forall (fun b => source_article b = None)
               (MxPopulate.article_batch uuid r.1.2)
     /\ (forall i a, articles !! i = Some a ->
           MxPopulate.article_uuids uuid r.1.2 !! i
           = Some (parent_uuid new_uuid articles i a))
     /\ MxPopulate.chunk_batch uuid r.2
        = flat_map (fun ia =>
                      (fun c =>
                         BatchObject (MxPopulate.chunk_properties tipo doc c)
                                     (parent_uuid new_uuid articles ia.1 ia.2))
                        <$> default [] (MxPopulate.sub_chunks ia.2))
                   (enumerate articles)
     /\ r.1.1
        = (Z.of_nat (length (kept articles)),
           Z.of_nat (length (flat_map
                               (fun a => default [] (MxPopulate.sub_chunks a))
                               articles))))
  /\ (forall doc articles_data s,
        Federal.populate_collections_batch uuid new_uuid doc articles_data
        = (Ret tt, s) ->
        Federal.article_batch uuid s
        = federal_article_object doc <$> articles_data
        /\ length (Federal.article_batch uuid s) = length articles_data
        /\ name_and_reference <$> Federal.chunk_batch uuid s
           = flat_map (fun a =>
                         (fun _ =>
                            (JStr <$> Federal.article_name a,
                             match Federal.article_name a with
                             | Some name => Federal.article_uuids uuid s !! name
                             | None => None
                             end))
                           <$> default [] (Federal.sub_chunks a))
                      articles_data
        /\ Forall has_reference (Federal.chunk_batch uuid s)).
Proof.
  split.
  - intros data articles doc tipo r.
    destruct (step1_summary uuid new_uuid doc articles)
      as (Hb & Hr & Hu & Hi & _).
    destruct (step2_summary uuid tipo doc
                (MxPopulate.article_uuids uuid r.1.2)
                (parent_uuid new_uuid articles) articles Hu) as [Hc Hn].
    repeat split; try assumption.
    unfold r, MxPopulate.populate_collections_batch. cbn [fst snd].
    fold articles doc tipo. f_equal; assumption.
  - intros doc articles_data s Hrun.
    pose proof (federal_summary uuid new_uuid doc articles_data) as H.
    pose proof (federal_run uuid new_uuid doc articles_data) as H2.
    destruct (federal_objects uuid new_uuid doc articles_data s Hrun)
      as [Ha _].
    rewrite Hrun in H, H2. destruct H as [Hl Hr].
    destruct H2 as [[Hu _ Hb _] _].
    split; [exact Ha|]. split; [exact Hl|]. split; [|exact Hr].
    rewrite Hb. apply flat_map_ext. intros a. apply list_fmap_ext.
    intros _ _ _. f_equal. unfold federal_parent.
    destruct (Federal.article_name a) as [name|]; [|reflexivity].
    symmetry. apply Hu.
Qed.

Lemma chunk_reference_follows_parent_witness :
  (let r := MxPopulate.populate_collections_batch nat id file_three_articles in
   MxPopulate.article_uuids nat r.1.2 !! 0%nat = Some (Some 0%nat)
   /\ MxPopulate.article_uuids nat r.1.2 !! 1%nat = Some None
   /\ MxPopulate.article_uuids nat r.1.2 !! 2%nat = Some None
   /\ (source_article <$> MxPopulate.chunk_batch nat r.2)
      = [Some 0%nat; None; None; None]
   /\ r.1.1 = (1, 4))
  /\ (exists s,
        Federal.populate_collections_batch nat id "CFR" federal_empty_article
        = (Ret tt, s)
        /\ Federal.article_batch nat s
           = federal_article_object "CFR" <$> federal_empty_article
        /\ length (Federal.article_batch nat s) = 1%nat
        /\ name_and_reference <$> Federal.chunk_batch nat s
           = [(Some (JStr "Sec. 1"), Federal.article_uuids nat s !! "Sec. 1")]
        /\ Forall has_reference (Federal.chunk_batch nat s)).
Proof.
  pose proof (proj1 (chunk_reference_follows_parent nat id) file_three_articles)
    as H.
  cbv zeta in H. destruct H as (_ & _ & Hu & Hc & Hn).
  split.
  - cbv zeta. split; [exact (Hu 0%nat _ eq_refl)|].
    split; [exact (Hu 1%nat _ eq_refl)|].
    split; [exact (Hu 2%nat _ eq_refl)|].
    split; [rewrite Hc; reflexivity | rewrite Hn; reflexivity].
  - eexists. split; [vm_compute; reflexivity|].
    apply (proj2 (chunk_reference_follows_parent nat id) "CFR"
                 federal_empty_article).
    vm_compute. reflexivity.
Defined.
